(** * adk-artifact: versioned artifact storage over a file system and over S3

    A shallow embedding of the two [artifact.Service] back ends of the
    repository, [fsartifact] (local file system) and [s3artifact] (object
    store reached through gocloud.dev/blob), together with the properties
    that the specification states about them and further properties of the
    code.

    The Go standard library, the operating system and the blob library are
    not part of the repository; they are modelled here by small executable
    definitions ([Sprintf_d], [ParseInt], [filepath_Join], the [os_*] calls on
    a tree of named nodes, the [bucket_*] calls on a key/value store).  Every
    call of the environment consults a fault oracle carried by the state, so
    that an I/O failure can be injected at any call. *)

From Stdlib Require Import ZArith String Ascii DecimalString DecimalZ List.
From stdpp Require Import gmap strings list sorting.

Open Scope string_scope.
Open Scope list_scope.
Open Scope Z_scope.

(* ===================================================================== *)
(** * Part I: definitions                                                 *)
(* ===================================================================== *)

(** ** Machine integers: Go's [int64] *)

Definition MinInt64 : Z := - 2 ^ 63.
Definition MaxInt64 : Z := 2 ^ 63 - 1.

Definition is_int64 (z : Z) : bool := (MinInt64 <=? z) && (z <=? MaxInt64).

(** Two's complement wrap-around of an arithmetic result to 64 bits. *)
Definition wrap64 (z : Z) : Z := (z + 2 ^ 63) mod 2 ^ 64 - 2 ^ 63.

(** [slices.Max]: the largest element (the Go function panics on an empty
    slice; every call in the repository is guarded by a length test, and the
    model returns 0 there). *)
Definition slices_Max (l : list Z) : Z :=
  match l with
  | [] => 0
  | x :: r => fold_left Z.max r x
  end.

(** ** Strings: the functions of [strings], [strconv], [fmt] in use *)

(** [fmt.Sprintf("%d", v)]. *)
Definition Sprintf_d (v : Z) : string := NilZero.string_of_int (Z.to_int v).

(** [strconv.ParseInt(s, 10, 64)]: an optional sign, then one or more decimal
    digits; [None] stands for a syntax or a range error. *)
Definition ParseInt (s : string) : option Z :=
  match s with
  | "" => None
  | String c r =>
      let '(neg, body) :=
        if Ascii.eqb c "+" then (false, r)
        else if Ascii.eqb c "-" then (true, r)
        else (false, s) in
      match body with
      | "" => None
      | _ =>
          match NilEmpty.uint_of_string body with
          | None => None
          | Some u =>
              let v := if neg : bool then - Z.of_uint u else Z.of_uint u in
              if is_int64 v then Some v else None
          end
      end
  end.

(** [strings.HasPrefix] and [strings.HasSuffix]. *)
Definition HasPrefix (s pre : string) : bool := String.prefix pre s.

Definition HasSuffix (s suf : string) : bool :=
  (String.length suf <=? String.length s)%nat
  && String.eqb
       (substring (String.length s - String.length suf) (String.length suf) s)
       suf.

Definition sep : ascii := "/"%char.

(** [strings.Split(s, "/")]: never empty, [Split "" = [""]]. *)
Fixpoint Split (s : string) : list string :=
  match s with
  | "" => [""]
  | String c r =>
      if Ascii.eqb c sep then "" :: Split r
      else match Split r with
           | x :: l => String c x :: l
           | [] => [String c ""]
           end
  end.

(** [strings.Join(l, "/")]. *)
Definition JoinSep (l : list string) : string := String.concat "/" l.

(** [slices.Collect(maps.Keys(set))] followed by [sort.Strings]: the keys of
    a [map[string]bool] in ascending order.  Go iterates over a map in no
    fixed order; the keys are distinct, so sorting them gives one result
    whatever that order is. *)
Definition sorted_keys (set : gmap string bool) : list string :=
  merge_sort String.le (map_to_list set).*1.

(** ** Paths: [path/filepath] on a Unix system *)

Definition is_rooted (p : string) : bool :=
  match p with
  | String c _ => Ascii.eqb c sep
  | "" => false
  end.

(** One iteration of the loop of [filepath.Clean], on a whole path element.
    [out] is the output built so far, last element first.  An output element
    [".."] is one that [Clean] could not resolve (the part below Go's
    [dotdot] mark); real elements are never [".."]. *)
Definition clean_step (rooted : bool) (out : list string) (elem : string)
  : list string :=
  if decide (elem = "") then out
  else if decide (elem = ".") then out
  else if decide (elem = "..") then
    match out with
    | top :: rest =>
        if decide (top = "..") then (if rooted then out else ".." :: out)
        else rest
    | [] => if rooted then [] else [".."]
    end
  else elem :: out.

Definition clean_elems (rooted : bool) (elems : list string) : list string :=
  rev (fold_left (clean_step rooted) elems []).

(** The text of a cleaned path. *)
Definition render (rooted : bool) (elems : list string) : string :=
  if rooted then "/" +:+ JoinSep elems
  else match elems with
       | [] => "."
       | _ => JoinSep elems
       end.

(** [filepath.Clean]. *)
Definition filepath_Clean (p : string) : string :=
  render (is_rooted p) (clean_elems (is_rooted p) (Split p)).

(** [filepath.Join]: the elements from the first non-empty one on are joined
    with the separator and cleaned; the result is empty when all are. *)
Fixpoint filepath_Join (elem : list string) : string :=
  match elem with
  | [] => ""
  | e :: r =>
      if decide (e = "") then filepath_Join r
      else filepath_Clean (JoinSep elem)
  end.

(** [filepath.Dir]: everything up to and including the last separator,
    cleaned. *)
Definition filepath_Dir (p : string) : string :=
  match removelast (Split p) with
  | [] => filepath_Clean ""
  | l => filepath_Clean (JoinSep l +:+ "/")
  end.

(** ** Predicates on strings and paths used in the statements *)

Fixpoint all_chars (P : ascii → bool) (s : string) : bool :=
  match s with
  | "" => true
  | String c r => P c && all_chars P r
  end.

(** Free of the path separator. *)
Definition no_sep (s : string) : bool :=
  all_chars (λ c, negb (Ascii.eqb c sep)) s.

Definition is_digit_or_sign (c : ascii) : bool :=
  match NilEmpty.uint_of_string (String c "") with
  | Some _ => true
  | None => Ascii.eqb c "+" || Ascii.eqb c "-"
  end.

(** A path element that [filepath.Clean] keeps as it is: not empty, not
    ["."], not [".."], free of the separator. *)
Definition plain_elem (s : string) : bool :=
  negb (String.eqb s "") && negb (String.eqb s ".") && negb (String.eqb s "..")
  && no_sep s.

(** ** Media types: [mime.ParseMediaType] and [mime.FormatMediaType]

    The blob library does not keep the content type of a writer as it is
    given: it reads it with [mime.ParseMediaType] and keeps what
    [mime.FormatMediaType] writes for the result.  For a type without
    parameters [ParseMediaType] lowers the case and trims the white space
    around it ([strings.ToLower], [strings.TrimSpace]), and [FormatMediaType]
    writes the type it is given.  These are the functions on ASCII strings;
    a type with parameters, or outside ASCII, is left to a parameter of the
    bucket. *)

Definition is_ascii (c : ascii) : bool := (N_of_ascii c <? 128)%N.

Definition is_upper (c : ascii) : bool :=
  (65 <=? N_of_ascii c)%N && (N_of_ascii c <=? 90)%N.

Definition lower (c : ascii) : ascii :=
  if is_upper c then ascii_of_N (N_of_ascii c + 32) else c.

(** [strings.ToLower], on an ASCII string. *)
Fixpoint ToLower (s : string) : string :=
  match s with
  | "" => ""
  | String c r => String (lower c) (ToLower r)
  end.

(** The white space of ASCII: tab, line feed, vertical tab, form feed,
    carriage return, space. *)
Definition is_space (c : ascii) : bool :=
  ((9 <=? N_of_ascii c)%N && (N_of_ascii c <=? 13)%N) || (N_of_ascii c =? 32)%N.

Fixpoint TrimLeft (s : string) : string :=
  match s with
  | "" => ""
  | String c r => if is_space c then TrimLeft r else s
  end.

Fixpoint TrimRight (s : string) : string :=
  match s with
  | "" => ""
  | String c r =>
      match TrimRight r with
      | "" => if is_space c then "" else String c ""
      | r' => String c r'
      end
  end.

(** [strings.TrimSpace], on an ASCII string. *)
Definition TrimSpace (s : string) : string := TrimRight (TrimLeft s).

(** A content type in ASCII and without parameters: no [";"]. *)
Definition plain_type (ct : string) : bool :=
  all_chars is_ascii ct && all_chars (λ c, negb (Ascii.eqb c ";")) ct.

(** [mime.FormatMediaType] of what [mime.ParseMediaType] reads from a type
    without parameters. *)
Definition format_plain (ct : string) : string := TrimSpace (ToLower ct).

(** A content type that the library keeps as it is: not empty, without
    parameters, in lower case and without white space around it. *)
Definition canonical_type (ct : string) : bool :=
  negb (String.eqb ct "") && plain_type ct && String.eqb (format_plain ct) ct.

(** The scope element of a location: the literal ["user"] for a user-scoped
    name, the session otherwise. *)
Definition scope_elem (sessionID fileName : string) : string :=
  if HasPrefix fileName "user:" then "user" else sessionID.

(** The shape of a cleaned path: unresolved [".."] elements first (none when
    the path is rooted), then plain elements. *)
Definition clean_stack (rooted : bool) (L : list string) : Prop :=
  ∃ n R, L = replicate n ".." ++ R
         ∧ Forall (λ x, plain_elem x = true) R
         ∧ (rooted = true → n = 0%nat).

(** ** The request and response types of [google.golang.org/adk/artifact]
    and [genai.Part] *)

Record Blob := mkBlob { Data : list Byte.byte; MIMEType : string }.

Record Part := mkPart { Text : string; InlineData : option Blob }.

(** [genai.NewPartFromBytes]. *)
Definition NewPartFromBytes (data : list Byte.byte) (mimeType : string) : Part :=
  {| Text := ""; InlineData := Some {| Data := data; MIMEType := mimeType |} |}.

Record SaveRequest := mkSaveRequest {
  save_AppName : string; save_UserID : string; save_SessionID : string;
  save_FileName : string;
  save_Part : option Part;       (* a pointer: [None] is nil *)
  save_Version : Z
}.

Record LoadRequest := mkLoadRequest {
  load_AppName : string; load_UserID : string; load_SessionID : string;
  load_FileName : string; load_Version : Z
}.

Record DeleteRequest := mkDeleteRequest {
  del_AppName : string; del_UserID : string; del_SessionID : string;
  del_FileName : string; del_Version : Z
}.

Record VersionsRequest := mkVersionsRequest {
  ver_AppName : string; ver_UserID : string; ver_SessionID : string;
  ver_FileName : string
}.

Record ListRequest := mkListRequest {
  list_AppName : string; list_UserID : string; list_SessionID : string
}.

(** What [Save] stores for a part: its bytes and its content type. *)
Definition stored_bytes (p : Part) : list Byte.byte :=
  match InlineData p with
  | Some inline => Data inline
  | None => list_byte_of_string (Text p)
  end.

Definition stored_type (p : Part) : string :=
  match InlineData p with
  | Some inline => MIMEType inline
  | None => "text/plain"
  end.

(** The same request with another explicit version. *)
Definition with_version (req : SaveRequest) (v : Z) : SaveRequest :=
  {| save_AppName := save_AppName req; save_UserID := save_UserID req;
     save_SessionID := save_SessionID req; save_FileName := save_FileName req;
     save_Part := save_Part req; save_Version := v |}.

(** The requests for the artifact of a [Save] request: its versions, and
    one version of it. *)
Definition versions_of (req : SaveRequest) : VersionsRequest :=
  {| ver_AppName := save_AppName req; ver_UserID := save_UserID req;
     ver_SessionID := save_SessionID req; ver_FileName := save_FileName req |}.

Definition load_of (req : SaveRequest) (v : Z) : LoadRequest :=
  {| load_AppName := save_AppName req; load_UserID := save_UserID req;
     load_SessionID := save_SessionID req; load_FileName := save_FileName req;
     load_Version := v |}.

Definition delete_of (req : SaveRequest) (v : Z) : DeleteRequest :=
  {| del_AppName := save_AppName req; del_UserID := save_UserID req;
     del_SessionID := save_SessionID req; del_FileName := save_FileName req;
     del_Version := v |}.

(** The failures a service operation reports.  [NotFoundError] is an error
    that wraps [fs.ErrNotExist]; [StorageIOError] carries the text the code
    puts in front of the wrapped cause. *)
Inductive error :=
| ValidationError
| NotFoundError
| StorageIOError (msg : string).

Definition present (s : string) : bool := negb (String.eqb s "").

(** The fields every request carries are present. *)
Definition valid_identity (appName userID sessionID fileName : string) : bool :=
  present appName && present userID && present sessionID && present fileName.

(** Modelled from the spec: the [Validate] methods of the request types are
    declared in the ADK module, not in this repository; the spec limits
    validation to field presence. *)
Definition SaveRequest_Validate (req : SaveRequest) : bool :=
  present (save_AppName req) && present (save_UserID req)
  && present (save_SessionID req) && present (save_FileName req)
  && match save_Part req with Some _ => true | None => false end.

(** Modelled from the spec: field presence, see [SaveRequest_Validate]. *)
Definition LoadRequest_Validate (req : LoadRequest) : bool :=
  present (load_AppName req) && present (load_UserID req)
  && present (load_SessionID req) && present (load_FileName req).

(** Modelled from the spec: field presence, see [SaveRequest_Validate]. *)
Definition DeleteRequest_Validate (req : DeleteRequest) : bool :=
  present (del_AppName req) && present (del_UserID req)
  && present (del_SessionID req) && present (del_FileName req).

(** Modelled from the spec: field presence, see [SaveRequest_Validate]. *)
Definition VersionsRequest_Validate (req : VersionsRequest) : bool :=
  present (ver_AppName req) && present (ver_UserID req)
  && present (ver_SessionID req) && present (ver_FileName req).

(** Modelled from the spec: field presence, see [SaveRequest_Validate]. *)
Definition ListRequest_Validate (req : ListRequest) : bool :=
  present (list_AppName req) && present (list_UserID req)
  && present (list_SessionID req).

(* ===================================================================== *)
(** ** The file system back end: [fsartifact]                             *)
(* ===================================================================== *)

Module FsArtifact.

(** *** The operating system: a tree of named nodes

    A node is addressed by the cleaned form of its path name: whether the
    path is rooted, and the list of its elements.  The empty list is the root
    (or the working directory) and always exists.  Symbolic links, hard links
    and permissions are not modelled; a permission or device failure is an
    answer of the fault oracle [fails]. *)

Inductive node :=
| File (data : list Byte.byte)
| Directory.

Abbreviation pathkey := (bool * list string)%type.

Inductive syscall :=
| SysMkdir | SysWriteFile | SysReadFile | SysReadDir | SysRemove | SysRemoveAll.

Inductive errno := ENOENT | ENOTDIR | EISDIR | ENOTEMPTY | EINVAL | EIO.

Record FS := mkFS {
  nodes : gmap pathkey node;
  fails : syscall → pathkey → bool
}.

Definition set_nodes (fs : FS) (m : gmap pathkey node) : FS :=
  {| nodes := m; fails := fails fs |}.

Definition path_key (name : string) : pathkey :=
  (is_rooted name, clean_elems (is_rooted name) (Split name)).

Definition parent (k : pathkey) : pathkey := (k.1, removelast k.2).

(** [extend k x]: the entry named [x] of the directory [k]. *)
Definition extend (k : pathkey) (x : string) : pathkey := (k.1, k.2 ++ [x]).

Inductive lookup_result :=
| Found (n : node)
| NoEnt
| NotDir.

(** Path resolution, one element at a time from the top: [pre] has been
    resolved to a directory, [rest] is still to be looked up. *)
Fixpoint walk (m : gmap pathkey node) (rooted : bool) (pre rest : list string)
  : lookup_result :=
  match rest with
  | [] => Found Directory
  | x :: rest' =>
      match m !! (rooted, pre ++ [x]) with
      | None => NoEnt
      | Some n =>
          match rest' with
          | [] => Found n
          | _ => match n with
                 | Directory => walk m rooted (pre ++ [x]) rest'
                 | File _ => NotDir
                 end
          end
      end
  end.

Definition resolve (fs : FS) (k : pathkey) : lookup_result :=
  walk (nodes fs) k.1 [] k.2.

(** [os.IsNotExist]. *)
Definition os_IsNotExist (e : errno) : bool :=
  match e with ENOENT => true | _ => false end.

(** [os.MkdirAll]: every missing directory on the way is created; a file on
    the way is an error. *)
Fixpoint mkdir_all (fl : pathkey → bool) (m : gmap pathkey node)
    (rooted : bool) (pre rest : list string) : option errno * gmap pathkey node :=
  match rest with
  | [] => (None, m)
  | x :: rest' =>
      let k := (rooted, pre ++ [x]) in
      match m !! k with
      | Some Directory => mkdir_all fl m rooted (pre ++ [x]) rest'
      | Some (File _) => (Some ENOTDIR, m)
      | None =>
          if fl k then (Some EIO, m)
          else mkdir_all fl (<[k := Directory]> m) rooted (pre ++ [x]) rest'
      end
  end.

Definition os_MkdirAll (name : string) (fs : FS) : option errno * FS :=
  let k := path_key name in
  let '(e, m) := mkdir_all (fails fs SysMkdir) (nodes fs) k.1 [] k.2 in
  (e, set_nodes fs m).

(** [os.WriteFile]: create or truncate, then write. *)
Definition os_WriteFile (name : string) (data : list Byte.byte) (fs : FS)
  : option errno * FS :=
  let k := path_key name in
  if fails fs SysWriteFile k then (Some EIO, fs)
  else match k.2 with
       | [] => (Some EISDIR, fs)
       | _ =>
           match resolve fs (parent k) with
           | Found Directory =>
               match nodes fs !! k with
               | Some Directory => (Some EISDIR, fs)
               | _ => (None, set_nodes fs (<[k := File data]> (nodes fs)))
               end
           | Found (File _) => (Some ENOTDIR, fs)
           | NoEnt => (Some ENOENT, fs)
           | NotDir => (Some ENOTDIR, fs)
           end
       end.

(** [os.ReadFile]. *)
Definition os_ReadFile (name : string) (fs : FS) : errno + list Byte.byte :=
  let k := path_key name in
  if fails fs SysReadFile k then inl EIO
  else match resolve fs k with
       | Found (File data) => inr data
       | Found Directory => inl EISDIR
       | NoEnt => inl ENOENT
       | NotDir => inl ENOTDIR
       end.

(** [child_name dir k]: the name under which [k] is an entry of [dir]. *)
Definition child_name (dir k : pathkey) : option string :=
  if decide (k.1 = dir.1 ∧ take (length dir.2) k.2 = dir.2) then
    match drop (length dir.2) k.2 with
    | [x] => Some x
    | _ => None
    end
  else None.

(** The entries of a directory. *)
Definition children (m : gmap pathkey node) (dir : pathkey) : gmap pathkey node :=
  filter (λ kn, is_Some (child_name dir kn.1)) m.

Definition has_children (m : gmap pathkey node) (dir : pathkey) : bool :=
  negb (bool_decide (children m dir = ∅)).

(** [os.Remove]: a file or an empty directory. *)
Definition os_Remove (name : string) (fs : FS) : option errno * FS :=
  let k := path_key name in
  if fails fs SysRemove k then (Some EIO, fs)
  else match k.2 with
       | [] => (Some EINVAL, fs)
       | _ =>
           match resolve fs k with
           | Found (File _) => (None, set_nodes fs (delete k (nodes fs)))
           | Found Directory =>
               if has_children (nodes fs) k then (Some ENOTEMPTY, fs)
               else (None, set_nodes fs (delete k (nodes fs)))
           | NoEnt => (Some ENOENT, fs)
           | NotDir => (Some ENOTDIR, fs)
           end
       end.

Definition is_under (dir k : pathkey) : Prop :=
  k.1 = dir.1 ∧ dir.2 `prefix_of` k.2.

#[global] Instance is_under_dec dir k : Decision (is_under dir k).
Proof. unfold is_under. apply _. Defined.

(** [os.RemoveAll]: the node and everything below it; a path that does not
    exist is not an error. *)
Definition os_RemoveAll (name : string) (fs : FS) : option errno * FS :=
  let k := path_key name in
  if fails fs SysRemoveAll k then (Some EIO, fs)
  else match k.2 with
       | [] => (Some EINVAL, fs)
       | _ =>
           match resolve fs k with
           | Found _ =>
               (None, set_nodes fs (filter (λ kn, ¬ is_under k kn.1) (nodes fs)))
           | NoEnt => (None, fs)
           | NotDir => (Some ENOTDIR, fs)
           end
       end.

Record DirEntry := mkDirEntry { Name : string; IsDir : bool }.

Definition entry_le (e1 e2 : DirEntry) : Prop := String.le (Name e1) (Name e2).

#[global] Instance entry_le_dec : RelDecision entry_le.
Proof. intros e1 e2. unfold entry_le. apply _. Defined.

Definition is_dir (n : node) : bool :=
  match n with Directory => true | File _ => false end.

Definition entry_of (dir : pathkey) (kn : pathkey * node) : DirEntry :=
  {| Name := default "" (child_name dir kn.1); IsDir := is_dir kn.2 |}.

(** [os.ReadDir]: the entries of a directory, sorted by file name. *)
Definition os_ReadDir (name : string) (fs : FS) : errno + list DirEntry :=
  let k := path_key name in
  if fails fs SysReadDir k then inl EIO
  else match resolve fs k with
       | Found Directory =>
           inr (merge_sort entry_le
                  (entry_of k <$> map_to_list (children (nodes fs) k)))
       | Found (File _) => inl ENOTDIR
       | NoEnt => inl ENOENT
       | NotDir => inl ENOTDIR
       end.

(** *** The service *)

(** An operation of the service: it runs on a file system and leaves a file
    system behind, with a response or one failure. *)
Definition M (A : Type) : Type := FS → (error + A) * FS.

Definition ret {A} (a : A) : M A := λ fs, (inr a, fs).

Definition fail {A} (e : error) : M A := λ fs, (inl e, fs).

Definition bind {A B} (m : M A) (k : A → M B) : M B :=
  λ fs, match m fs with
        | (inl e, fs') => (inl e, fs')
        | (inr a, fs') => k a fs'
        end.

Notation "'do' x <~ m ;; k" := (bind m (λ x, k))
  (at level 10, x name, m at level 99, k at level 200).
Notation "'run' m ;; k" := (bind m (λ _, k))
  (at level 10, m at level 99, k at level 200).

(** A call that only reads. *)
Definition reading {A} (f : FS → error + A) : M A := λ fs, (f fs, fs).

(** [if err := call; err != nil { return nil, fmt.Errorf(msg, err) }]. *)
Definition check (msg : string) (call : FS → option errno * FS) : M unit :=
  λ fs, match call fs with
        | (Some _, fs') => (inl (StorageIOError msg), fs')
        | (None, fs') => (inr tt, fs')
        end.

Record fsService := mkService { rootDir : string }.

Record SaveResponse := mkSaveResponse { Version : Z }.
Record LoadResponse := mkLoadResponse { LoadedPart : Part }.
Record VersionsResponse := mkVersionsResponse { Versions_ : list Z }.
Record ListResponse := mkListResponse { FileNames : list string }.

Definition fileHasUserNamespace (filename : string) : bool :=
  HasPrefix filename "user:".

Definition buildPath (s : fsService) (appName userID sessionID fileName : string)
    (version : Z) : string :=
  if fileHasUserNamespace fileName then
    filepath_Join [rootDir s; appName; userID; "user"; fileName; Sprintf_d version]
  else
    filepath_Join [rootDir s; appName; userID; sessionID; fileName; Sprintf_d version].

Definition buildDir (s : fsService) (appName userID sessionID fileName : string)
  : string :=
  if fileHasUserNamespace fileName then
    filepath_Join [rootDir s; appName; userID; "user"; fileName]
  else
    filepath_Join [rootDir s; appName; userID; sessionID; fileName].

Definition buildSessionDir (s : fsService) (appName userID sessionID : string)
  : string :=
  filepath_Join [rootDir s; appName; userID; sessionID].

Definition buildUserDir (s : fsService) (appName userID : string) : string :=
  filepath_Join [rootDir s; appName; userID; "user"].

(** The loop body of [Versions]: directories and sidecar files are skipped,
    names that are not integers are skipped. *)
Definition entry_version (entry : DirEntry) : option Z :=
  if IsDir entry then None
  else if HasSuffix (Name entry) ".meta" then None
  else ParseInt (Name entry).

Definition Versions (s : fsService) (req : VersionsRequest) (fs : FS)
  : error + VersionsResponse :=
  if negb (VersionsRequest_Validate req) then inl ValidationError
  else
    let dir := buildDir s (ver_AppName req) (ver_UserID req)
                 (ver_SessionID req) (ver_FileName req) in
    match os_ReadDir dir fs with
    | inl err =>
        if os_IsNotExist err then inl NotFoundError
        else inl (StorageIOError "failed to list versions")
    | inr entries =>
        let versions := omap entry_version entries in
        if (length versions =? 0)%nat then inl NotFoundError
        else inr {| Versions_ := merge_sort Z.le versions |}
    end.

(** The version [Save] writes: the explicit one when positive, else one past
    the largest listed; 1 when the listing fails or is empty. *)
Definition nextVersion (s : fsService) (req : SaveRequest) (fs : FS) : Z :=
  if 0 <? save_Version req then save_Version req
  else
    match Versions s {| ver_AppName := save_AppName req;
                        ver_UserID := save_UserID req;
                        ver_SessionID := save_SessionID req;
                        ver_FileName := save_FileName req |} fs with
    | inr response =>
        if (0 <? length (Versions_ response))%nat
        then wrap64 (slices_Max (Versions_ response) + 1)
        else 1
    | inl _ => 1
    end.

Definition Save (s : fsService) (req : SaveRequest) : M SaveResponse :=
  if negb (SaveRequest_Validate req) then fail ValidationError
  else
    match save_Part req with
    | None => fail ValidationError   (* excluded by [Validate] *)
    | Some newArtifact =>
        do nextVersion <~ reading (λ fs, inr (nextVersion s req fs)) ;;
        let path := buildPath s (save_AppName req) (save_UserID req)
                      (save_SessionID req) (save_FileName req) nextVersion in
        run check "failed to create directory" (os_MkdirAll (filepath_Dir path)) ;;
        let '(data, contentType) :=
          match InlineData newArtifact with
          | Some inline => (Data inline, MIMEType inline)
          | None => (list_byte_of_string (Text newArtifact), "text/plain")
          end in
        run check "failed to write file" (os_WriteFile path data) ;;
        let metaPath := path +:+ ".meta" in
        run (λ fs, match os_WriteFile metaPath (list_byte_of_string contentType) fs with
               | (Some _, fs') =>
                   (* best effort cleanup *)
                   let '(_, fs'') := os_Remove path fs' in
                   (inl (StorageIOError "failed to write metadata file"), fs'')
               | (None, fs') => (inr tt, fs')
               end) ;;
        ret {| Version := nextVersion |}
    end.

(** The version [Load] reads: the one asked for, or the largest listed when
    none is asked for. *)
Definition loadVersion (s : fsService) (req : LoadRequest) (fs : FS) : error + Z :=
  if load_Version req =? 0 then
    match Versions s {| ver_AppName := load_AppName req;
                        ver_UserID := load_UserID req;
                        ver_SessionID := load_SessionID req;
                        ver_FileName := load_FileName req |} fs with
    | inl err => inl err   (* artifact not found error comes from Versions *)
    | inr response => inr (slices_Max (Versions_ response))
    end
  else inr (load_Version req).

Definition Load (s : fsService) (req : LoadRequest) (fs : FS)
  : error + LoadResponse :=
  if negb (LoadRequest_Validate req) then inl ValidationError
  else
    match loadVersion s req fs with
    | inl err => inl err
    | inr version =>
        let path := buildPath s (load_AppName req) (load_UserID req)
                      (load_SessionID req) (load_FileName req) version in
        match os_ReadFile path fs with
        | inl err =>
            if os_IsNotExist err then inl NotFoundError
            else inl (StorageIOError "could not read file")
        | inr data =>
            let metaPath := path +:+ ".meta" in
            let contentType :=
              match os_ReadFile metaPath fs with
              | inr metaData => string_of_list_byte metaData
              | inl _ => "text/plain"
              end in
            inr {| LoadedPart := NewPartFromBytes data contentType |}
        end
    end.

Definition Delete (s : fsService) (req : DeleteRequest) (fs : FS)
  : option error * FS :=
  if negb (DeleteRequest_Validate req) then (Some ValidationError, fs)
  else if negb (del_Version req =? 0) then
    let path := buildPath s (del_AppName req) (del_UserID req)
                  (del_SessionID req) (del_FileName req) (del_Version req) in
    let '(err, fs1) := os_Remove path fs in
    (* the sidecar goes as well, whatever happens *)
    let '(_, fs2) := os_Remove (path +:+ ".meta") fs1 in
    match err with
    | Some e =>
        if negb (os_IsNotExist e)
        then (Some (StorageIOError "failed to delete artifact file"), fs2)
        else (None, fs2)
    | None => (None, fs2)
    end
  else
    let dir := buildDir s (del_AppName req) (del_UserID req)
                 (del_SessionID req) (del_FileName req) in
    match os_RemoveAll dir fs with
    | (Some _, fs1) => (Some (StorageIOError "failed to delete artifact directory"), fs1)
    | (None, fs1) => (None, fs1)
    end.

(** The helper [readDir] of [List]: the names of the directories in [dir]
    are added to the set; a directory that cannot be read adds nothing. *)
Definition readDir (dir : string) (fs : FS) (filenamesSet : gmap string bool)
  : gmap string bool :=
  match os_ReadDir dir fs with
  | inl _ => filenamesSet   (* ignore missing dirs *)
  | inr entries =>
      foldl (λ set entry, if IsDir entry then <[Name entry := true]> set else set)
        filenamesSet entries
  end.

Definition List (s : fsService) (req : ListRequest) (fs : FS)
  : error + ListResponse :=
  if negb (ListRequest_Validate req) then inl ValidationError
  else
    (* session artifacts, then user artifacts *)
    let filenamesSet :=
      readDir (buildSessionDir s (list_AppName req) (list_UserID req)
                 (list_SessionID req)) fs ∅ in
    let filenamesSet :=
      readDir (buildUserDir s (list_AppName req) (list_UserID req)) fs
        filenamesSet in
    inr {| FileNames := sorted_keys filenamesSet |}.

(** *** Notions used in the statements about the service *)

(** The directory that holds the versions of an artifact. *)
Definition artifact_dir (s : fsService) (appName userID sessionID fileName : string)
  : pathkey :=
  path_key (buildDir s appName userID sessionID fileName).

Definition save_dir (s : fsService) (req : SaveRequest) : pathkey :=
  artifact_dir s (save_AppName req) (save_UserID req) (save_SessionID req)
    (save_FileName req).

Definition load_dir (s : fsService) (req : LoadRequest) : pathkey :=
  artifact_dir s (load_AppName req) (load_UserID req) (load_SessionID req)
    (load_FileName req).

Definition del_dir (s : fsService) (req : DeleteRequest) : pathkey :=
  artifact_dir s (del_AppName req) (del_UserID req) (del_SessionID req)
    (del_FileName req).

Definition ver_dir (s : fsService) (req : VersionsRequest) : pathkey :=
  artifact_dir s (ver_AppName req) (ver_UserID req) (ver_SessionID req)
    (ver_FileName req).

(** The two directories [List] reads. *)
Definition session_dir (s : fsService) (appName userID sessionID : string)
  : pathkey :=
  path_key (buildSessionDir s appName userID sessionID).

Definition user_dir (s : fsService) (appName userID : string) : pathkey :=
  path_key (buildUserDir s appName userID).

(** The directory of the scope of a file name: that of the user for a
    user-scoped name, that of the session otherwise. *)
Definition scope_dir (s : fsService) (appName userID sessionID fileName : string)
  : pathkey :=
  if fileHasUserNamespace fileName then user_dir s appName userID
  else session_dir s appName userID sessionID.

(** [x] is the name of a directory in the directory [dir], and [dir] can be
    read. *)
Definition lists (fs : FS) (dir : pathkey) (x : string) : Prop :=
  fails fs SysReadDir dir = false ∧ resolve fs (extend dir x) = Found Directory.

(** No call fails for a reason outside the tree. *)
Definition quiet (fs : FS) : Prop := ∀ c k, fails fs c k = false.

(** A tree with nothing in it, where no call fails. *)
Definition empty_fs : FS := {| nodes := ∅; fails := λ _ _, false |}.

(** Version [v] is stored in the directory [dir]: a file there, not a
    sidecar, has a name that reads as [v]. *)
Definition has_version (fs : FS) (dir : pathkey) (v : Z) : Prop :=
  ∃ name data, nodes fs !! extend dir name = Some (File data)
               ∧ HasSuffix name ".meta" = false
               ∧ ParseInt name = Some v.

(** No file stands where the directory [dir] or one of its ancestors has to
    be. *)
Definition dir_free (fs : FS) (dir : pathkey) : Prop :=
  ∀ P data, P `prefix_of` dir.2 → nodes fs !! (dir.1, P) ≠ Some (File data).

(** No directory stands where a version file or a sidecar of [dir] has to
    be. *)
Definition only_files (fs : FS) (dir : pathkey) : Prop :=
  ∀ x, nodes fs !! extend dir x ≠ Some Directory.

(** The nodes form a tree: the parent of every node is the top or a
    directory. *)
Definition tree (fs : FS) : Prop :=
  ∀ k x n, nodes fs !! extend k x = Some n →
           k.2 = [] ∨ nodes fs !! k = Some Directory.

(** [tree], as a test on the nodes. *)
Definition parent_ok (fs : FS) (q : pathkey) : bool :=
  match (parent q).2 with
  | [] => true
  | _ => match nodes fs !! parent q with
         | Some Directory => true
         | _ => false
         end
  end.

Definition is_tree (fs : FS) : bool :=
  forallb (λ kn, parent_ok fs kn.1) (map_to_list (nodes fs)).

(** The container of an artifact can be used: what [Save] has to create can
    be created. *)
Definition usable (fs : FS) (dir : pathkey) : Prop :=
  quiet fs ∧ dir_free fs dir ∧ only_files fs dir.

(** The version files of [dir] carry the names [Save] gives them. *)
Definition canonical (fs : FS) (dir : pathkey) : Prop :=
  ∀ name data v,
    nodes fs !! extend dir name = Some (File data) →
    HasSuffix name ".meta" = false →
    ParseInt name = Some v →
    name = Sprintf_d v.

(** [Save] called for each part in turn, for one artifact and without an
    explicit version; the versions returned, up to the first failure. *)
Fixpoint save_each (s : fsService) (appName userID sessionID fileName : string)
    (parts : list Part) (fs : FS) : list Z * FS :=
  match parts with
  | [] => ([], fs)
  | p :: rest =>
      match Save s {| save_AppName := appName; save_UserID := userID;
                      save_SessionID := sessionID; save_FileName := fileName;
                      save_Part := Some p; save_Version := 0 |} fs with
      | (inr resp, fs') =>
          let '(vs, fs'') := save_each s appName userID sessionID fileName rest fs' in
          (Version resp :: vs, fs'')
      | (inl _, fs') => ([], fs')
      end
  end.

End FsArtifact.

(* ===================================================================== *)
(** ** The object store back end: [s3artifact]                            *)
(* ===================================================================== *)

Module S3Artifact.

(** *** The bucket of gocloud.dev/blob

    A bucket maps keys to objects; an object is its bytes and its content
    type.  [List] yields the keys under a prefix in the lexicographic order of
    their bytes.  A writer makes its object visible when it is closed.  With
    an empty content type the library detects one from the bytes written
    ([detect], a parameter of the bucket).  A content type that is not empty
    is read by [mime.ParseMediaType]; a type that it refuses makes
    [NewWriter] fail, which is an answer of the fault oracle [fails] at
    [CallParseMediaType] and the content type; of a type that it accepts the
    writer keeps what [mime.FormatMediaType] writes ([media_type]; [format],
    a parameter of the bucket, for a type with parameters). *)

Record object := mkObject { body : list Byte.byte; contentType : string }.

Inductive blobcall :=
| CallNewWriter | CallParseMediaType | CallWrite | CallCloseWriter
| CallNewReader | CallReadAll | CallCloseReader
| CallDelete | CallList.

(** [gcerrors.Code] of a failed call. *)
Inductive code := NotFound | Unknown.

Record Bucket := mkBucket {
  objects : gmap string object;
  fails : blobcall → string → bool;
  detect : list Byte.byte → string;
  format : string → string
}.

Definition set_objects (b : Bucket) (m : gmap string object) : Bucket :=
  {| objects := m; fails := fails b; detect := detect b; format := format b |}.

(** What the library keeps of a content type that [mime.ParseMediaType]
    accepts: [mime.FormatMediaType] of the type read. *)
Definition media_type (b : Bucket) (ct : string) : string :=
  if plain_type ct then format_plain ct else format b ct.

(** A writer: its content type, or the mark [w_sniff] that the type is to be
    detected from the bytes. *)
Record Writer := mkWriter {
  w_key : string; w_contentType : string; w_sniff : bool;
  w_written : list Byte.byte; w_broken : bool
}.

Definition bucket_NewWriter (key ct : string) (b : Bucket) : code + Writer :=
  if fails b CallNewWriter key then inl Unknown
  else if decide (ct = "") then
    inr {| w_key := key; w_contentType := ""; w_sniff := true;
           w_written := []; w_broken := false |}
  else if fails b CallParseMediaType ct then inl Unknown
  else
    inr {| w_key := key; w_contentType := media_type b ct; w_sniff := false;
           w_written := []; w_broken := false |}.

Definition Writer_Write (w : Writer) (p : list Byte.byte) (b : Bucket)
  : option code * Writer :=
  if fails b CallWrite (w_key w)
  then (Some Unknown,
        {| w_key := w_key w; w_contentType := w_contentType w;
           w_sniff := w_sniff w;
           w_written := w_written w; w_broken := true |})
  else (None,
        {| w_key := w_key w; w_contentType := w_contentType w;
           w_sniff := w_sniff w;
           w_written := w_written w ++ p; w_broken := w_broken w |}).

Definition Writer_Close (w : Writer) (b : Bucket) : option code * Bucket :=
  if w_broken w then (Some Unknown, b)
  else if fails b CallCloseWriter (w_key w) then (Some Unknown, b)
  else
    let ct := if w_sniff w then detect b (w_written w) else w_contentType w in
    (None, set_objects b (<[w_key w := {| body := w_written w; contentType := ct |}]>
                            (objects b))).

Record Reader := mkReader { r_key : string; r_object : object }.

Definition bucket_NewReader (key : string) (b : Bucket) : code + Reader :=
  if fails b CallNewReader key then inl Unknown
  else match objects b !! key with
       | None => inl NotFound
       | Some o => inr {| r_key := key; r_object := o |}
       end.

Definition io_ReadAll (r : Reader) (b : Bucket) : code + list Byte.byte :=
  if fails b CallReadAll (r_key r) then inl Unknown else inr (body (r_object r)).

Definition Reader_ContentType (r : Reader) : string := contentType (r_object r).

Definition Reader_Close (r : Reader) (b : Bucket) : option code :=
  if fails b CallCloseReader (r_key r) then Some Unknown else None.

Definition bucket_Delete (key : string) (b : Bucket) : option code * Bucket :=
  if fails b CallDelete key then (Some Unknown, b)
  else match objects b !! key with
       | None => (Some NotFound, b)
       | Some _ => (None, set_objects b (delete key (objects b)))
       end.

(** The whole iteration of [bucket.List] with a prefix: all the keys, or the
    error of the first failing [Next]. *)
Definition bucket_List (prefix : string) (b : Bucket) : code + list string :=
  if fails b CallList prefix then inl Unknown
  else inr (merge_sort String.le
              (map_to_list (filter (λ ko, HasPrefix ko.1 prefix = true)
                                   (objects b))).*1).

(** *** The service *)

Record SaveResponse := mkSaveResponse { Version : Z }.
Record LoadResponse := mkLoadResponse { LoadedPart : Part }.
Record VersionsResponse := mkVersionsResponse { Versions_ : list Z }.
Record ListResponse := mkListResponse { FileNames : list string }.

Definition fileHasUserNamespace (filename : string) : bool :=
  HasPrefix filename "user:".

(** [fmt.Sprintf("%s/%s/user/%s/%d", ...)] and
    [fmt.Sprintf("%s/%s/%s/%s/%d", ...)]. *)
Definition buildKey (appName userID sessionID fileName : string) (version : Z)
  : string :=
  if fileHasUserNamespace fileName then
    appName +:+ "/" +:+ userID +:+ "/user/" +:+ fileName +:+ "/" +:+ Sprintf_d version
  else
    appName +:+ "/" +:+ userID +:+ "/" +:+ sessionID +:+ "/" +:+ fileName
      +:+ "/" +:+ Sprintf_d version.

Definition buildKeyPrefix (appName userID sessionID fileName : string) : string :=
  if fileHasUserNamespace fileName then
    appName +:+ "/" +:+ userID +:+ "/user/" +:+ fileName +:+ "/"
  else
    appName +:+ "/" +:+ userID +:+ "/" +:+ sessionID +:+ "/" +:+ fileName +:+ "/".

Definition buildSessionPrefix (appName userID sessionID : string) : string :=
  appName +:+ "/" +:+ userID +:+ "/" +:+ sessionID +:+ "/".

Definition buildUserPrefix (appName userID : string) : string :=
  appName +:+ "/" +:+ userID +:+ "/user/".

(** The loop body of [versions]: the last segment of the key, when it is an
    integer. *)
Definition key_version (key : string) : option Z :=
  ParseInt (List.last (Split key) "").

(** The internal [versions]: no error when there are none. *)
Definition versions (req : VersionsRequest) (b : Bucket)
  : error + VersionsResponse :=
  if negb (VersionsRequest_Validate req) then inl ValidationError
  else
    let prefix := buildKeyPrefix (ver_AppName req) (ver_UserID req)
                    (ver_SessionID req) (ver_FileName req) in
    match bucket_List prefix b with
    | inl _ => inl (StorageIOError "error iterating objects")
    | inr keys => inr {| Versions_ := omap key_version keys |}
    end.

Definition Versions (req : VersionsRequest) (b : Bucket)
  : error + VersionsResponse :=
  match versions req b with
  | inl err => inl err
  | inr response =>
      if (length (Versions_ response) =? 0)%nat then inl NotFoundError
      else inr response
  end.

(** [NewWriter], [Write], [Close] as [Save] chains them, with the text of
    the failure of the middle step. *)
Definition write_object (key ct : string) (p : list Byte.byte) (writeMsg : string)
    (b : Bucket) : option error * Bucket :=
  match bucket_NewWriter key ct b with
  | inl _ => (Some (StorageIOError "failed to create writer"), b)
  | inr w =>
      match Writer_Write w p b with
      | (Some _, w') =>
          (* best effort close *)
          let '(_, b') := Writer_Close w' b in
          (Some (StorageIOError writeMsg), b')
      | (None, w') =>
          match Writer_Close w' b with
          | (Some _, b') => (Some (StorageIOError "failed to close writer"), b')
          | (None, b') => (None, b')
          end
      end
  end.

Definition Save (req : SaveRequest) (b : Bucket)
  : (error + SaveResponse) * Bucket :=
  if negb (SaveRequest_Validate req) then (inl ValidationError, b)
  else
    match save_Part req with
    | None => (inl ValidationError, b)
    | Some newArtifact =>
        match versions {| ver_AppName := save_AppName req;
                          ver_UserID := save_UserID req;
                          ver_SessionID := save_SessionID req;
                          ver_FileName := save_FileName req |} b with
        | inl _ => (inl (StorageIOError "failed to list artifact versions"), b)
        | inr response =>
            let nextVersion :=
              if (0 <? length (Versions_ response))%nat
              then wrap64 (slices_Max (Versions_ response) + 1)
              else 1 in
            let key := buildKey (save_AppName req) (save_UserID req)
                         (save_SessionID req) (save_FileName req) nextVersion in
            let '(err, b') :=
              match InlineData newArtifact with
              | Some inline =>
                  write_object key (MIMEType inline) (Data inline)
                    "failed to write data" b
              | None =>
                  write_object key "text/plain"
                    (list_byte_of_string (Text newArtifact))
                    "failed to write text" b
              end in
            match err with
            | Some e => (inl e, b')
            | None => (inr {| Version := nextVersion |}, b')
            end
        end
    end.

(** The body of one goroutine of the delete fan-out. *)
Definition delete_version (appName userID sessionID fileName : string) (v : Z)
    (b : Bucket) : option error * Bucket :=
  let key := buildKey appName userID sessionID fileName v in
  match bucket_Delete key b with
  | (Some NotFound, b') => (None, b')
  | (Some _, b') => (Some (StorageIOError "failed to delete artifact"), b')
  | (None, b') => (None, b')
  end.

(** The error group, run in the order of the listing: the first failure is
    the result and cancels what has not run yet. *)
Fixpoint delete_all (appName userID sessionID fileName : string) (vs : list Z)
    (b : Bucket) : option error * Bucket :=
  match vs with
  | [] => (None, b)
  | v :: rest =>
      match delete_version appName userID sessionID fileName v b with
      | (Some e, b') => (Some e, b')
      | (None, b') => delete_all appName userID sessionID fileName rest b'
      end
  end.

Definition Delete (req : DeleteRequest) (b : Bucket) : option error * Bucket :=
  if negb (DeleteRequest_Validate req) then (Some ValidationError, b)
  else if negb (del_Version req =? 0) then
    let key := buildKey (del_AppName req) (del_UserID req) (del_SessionID req)
                 (del_FileName req) (del_Version req) in
    match bucket_Delete key b with
    | (Some NotFound, b') => (None, b')   (* not an error *)
    | (Some _, b') => (Some (StorageIOError "failed to delete artifact"), b')
    | (None, b') => (None, b')
    end
  else
    match versions {| ver_AppName := del_AppName req;
                      ver_UserID := del_UserID req;
                      ver_SessionID := del_SessionID req;
                      ver_FileName := del_FileName req |} b with
    | inl _ => (Some (StorageIOError "failed to fetch versions on delete artifact"), b)
    | inr response =>
        delete_all (del_AppName req) (del_UserID req) (del_SessionID req)
          (del_FileName req) (Versions_ response) b
    end.

(** The version [Load] reads: the one asked for, or the largest listed when
    none is asked for. *)
Definition loadVersion (req : LoadRequest) (b : Bucket) : error + Z :=
  if load_Version req =? 0 then
    match versions {| ver_AppName := load_AppName req;
                      ver_UserID := load_UserID req;
                      ver_SessionID := load_SessionID req;
                      ver_FileName := load_FileName req |} b with
    | inl _ => inl (StorageIOError "failed to list artifact versions")
    | inr response =>
        if (length (Versions_ response) =? 0)%nat then inl NotFoundError
        else inr (slices_Max (Versions_ response))
    end
  else inr (load_Version req).

Definition Load (req : LoadRequest) (b : Bucket) : error + LoadResponse :=
  if negb (LoadRequest_Validate req) then inl ValidationError
  else
    match loadVersion req b with
    | inl err => inl err
    | inr version =>
        let key := buildKey (load_AppName req) (load_UserID req)
                     (load_SessionID req) (load_FileName req) version in
        match bucket_NewReader key b with
        | inl NotFound => inl NotFoundError
        | inl _ => inl (StorageIOError "could not get object")
        | inr reader =>
            let result :=
              match io_ReadAll reader b with
              | inl _ => inl (StorageIOError "could not read data from object")
              | inr data =>
                  inr {| LoadedPart :=
                           NewPartFromBytes data (Reader_ContentType reader) |}
              end in
            (* the deferred close *)
            match Reader_Close reader b, result with
            | Some _, inr _ => inl (StorageIOError "failed to close object reader")
            | _, _ => result
            end
        end
    end.

(** The loop of [fetchFilenamesFromPrefix] over the keys of the listing: the
    last segment but one of each key is added to the set.  The set is
    updated in place: what was added before a failure stays in it. *)
Fixpoint collect_filenames (keys : list string) (filenamesSet : gmap string bool)
  : option error * gmap string bool :=
  match keys with
  | [] => (None, filenamesSet)
  | key :: rest =>
      let segments := Split key in
      if (length segments <? 2)%nat
      then (Some (StorageIOError "error iterating objects"), filenamesSet)
      else
        (* appName/userId/sessionId/filename/version or
           appName/userId/user/filename/version *)
        let filename := nth (length segments - 2) segments "" in
        collect_filenames rest (<[filename := true]> filenamesSet)
  end.

(** [fetchFilenamesFromPrefix]; the set is a Go map, [None] is the nil
    map. *)
Definition fetchFilenamesFromPrefix (prefix : string)
    (filenamesSet : option (gmap string bool)) (b : Bucket)
  : option error * option (gmap string bool) :=
  match filenamesSet with
  | None => (Some (StorageIOError "filenamesSet cannot be nil"), None)
  | Some set =>
      match bucket_List prefix b with
      | inl _ => (Some (StorageIOError "error iterating objects"), Some set)
      | inr keys =>
          let '(err, set') := collect_filenames keys set in (err, Some set')
      end
  end.

Definition List (req : ListRequest) (b : Bucket) : error + ListResponse :=
  if negb (ListRequest_Validate req) then inl ValidationError
  else
    let filenamesSet := Some ∅ in
    match fetchFilenamesFromPrefix
            (buildSessionPrefix (list_AppName req) (list_UserID req)
               (list_SessionID req)) filenamesSet b with
    | (Some _, _) => inl (StorageIOError "failed to fetch session filenames")
    | (None, filenamesSet) =>
        match fetchFilenamesFromPrefix
                (buildUserPrefix (list_AppName req) (list_UserID req))
                filenamesSet b with
        | (Some _, _) => inl (StorageIOError "failed to fetch user filenames")
        | (None, filenamesSet) =>
            inr {| FileNames := sorted_keys (default ∅ filenamesSet) |}
        end
    end.

(** *** Notions used in the statements about the service *)

(** The last segment but one of a key: the file name in the keys that
    [buildKey] builds. *)
Definition key_filename (key : string) : string :=
  nth (length (Split key) - 2) (Split key) "".

(** The prefix of the scope of a file name: that of the user for a
    user-scoped name, that of the session otherwise. *)
Definition scope_prefix (appName userID sessionID fileName : string) : string :=
  if fileHasUserNamespace fileName then buildUserPrefix appName userID
  else buildSessionPrefix appName userID sessionID.

Definition save_prefix (req : SaveRequest) : string :=
  buildKeyPrefix (save_AppName req) (save_UserID req) (save_SessionID req)
    (save_FileName req).

Definition ver_prefix (req : VersionsRequest) : string :=
  buildKeyPrefix (ver_AppName req) (ver_UserID req) (ver_SessionID req)
    (ver_FileName req).

(** The content type the bucket keeps for a part: the type detected from
    the bytes when the part has none, else the type of the part as the
    library formats it. *)
Definition kept_type (b : Bucket) (p : Part) : string :=
  if decide (stored_type p = "") then detect b (stored_bytes p)
  else media_type b (stored_type p).

(** No call fails for a reason outside the bucket. *)
Definition quiet (b : Bucket) : Prop := ∀ c k, fails b c k = false.

(** A bucket with nothing in it, where no call fails. *)
Definition empty_bucket : Bucket :=
  {| objects := ∅; fails := λ _ _, false;
     detect := λ _, "application/octet-stream";
     format := λ ct, ct |}.

(** Version [v] is stored under [prefix]: the last segment of a key with
    that prefix reads as [v]. *)
Definition has_version (b : Bucket) (prefix : string) (v : Z) : Prop :=
  ∃ key o, objects b !! key = Some o
           ∧ HasPrefix key prefix = true
           ∧ key_version key = Some v.

(** The keys under [prefix] that read as a version are those [Save] builds. *)
Definition canonical (b : Bucket) (prefix : string) : Prop :=
  ∀ key o v,
    objects b !! key = Some o →
    HasPrefix key prefix = true →
    key_version key = Some v →
    key = prefix +:+ Sprintf_d v.

(** [Save] called for each part in turn, for one artifact and without an
    explicit version; the versions returned, up to the first failure. *)
Fixpoint save_each (appName userID sessionID fileName : string)
    (parts : list Part) (b : Bucket) : list Z * Bucket :=
  match parts with
  | [] => ([], b)
  | p :: rest =>
      match Save {| save_AppName := appName; save_UserID := userID;
                    save_SessionID := sessionID; save_FileName := fileName;
                    save_Part := Some p; save_Version := 0 |} b with
      | (inr resp, b') =>
          let '(vs, b'') := save_each appName userID sessionID fileName rest b' in
          (Version resp :: vs, b'')
      | (inl _, b') => ([], b')
      end
  end.

End S3Artifact.

(* ===================================================================== *)
(** ** Stores and requests of the examples                                *)
(* ===================================================================== *)

(** The artifact of the examples: ["notes.txt"] of session ["s1"] of user
    ["u1"] of the application ["app"], kept under the root ["root"]. *)

Definition text_part (t : string) : Part := {| Text := t; InlineData := None |}.

Definition notes_save (t : string) (v : Z) : SaveRequest :=
  {| save_AppName := "app"; save_UserID := "u1"; save_SessionID := "s1";
     save_FileName := "notes.txt"; save_Part := Some (text_part t);
     save_Version := v |}.

Definition notes_load (v : Z) : LoadRequest :=
  {| load_AppName := "app"; load_UserID := "u1"; load_SessionID := "s1";
     load_FileName := "notes.txt"; load_Version := v |}.

Definition notes_delete (v : Z) : DeleteRequest :=
  {| del_AppName := "app"; del_UserID := "u1"; del_SessionID := "s1";
     del_FileName := "notes.txt"; del_Version := v |}.

Definition notes_versions : VersionsRequest :=
  {| ver_AppName := "app"; ver_UserID := "u1"; ver_SessionID := "s1";
     ver_FileName := "notes.txt" |}.

Definition notes_list : ListRequest :=
  {| list_AppName := "app"; list_UserID := "u1"; list_SessionID := "s1" |}.

Definition root_service : FsArtifact.fsService := {| FsArtifact.rootDir := "root" |}.

Definition two_notes : list Part := [text_part "hello"; text_part "world"].


(** A tree in which a directory stands where the sidecar of version 1 has to
    be written. *)
Definition blocked_sidecar_fs : FsArtifact.FS :=
  (FsArtifact.os_MkdirAll "root/app/u1/s1/notes.txt/1.meta" FsArtifact.empty_fs).2.

(** A tree with version 1 of the notes, an image, and no sidecar for it. *)
Definition image_save : SaveRequest :=
  {| save_AppName := "app"; save_UserID := "u1"; save_SessionID := "s1";
     save_FileName := "notes.txt";
     save_Part := Some {| Text := "";
                          InlineData := Some {| Data := list_byte_of_string "PNG";
                                                MIMEType := "image/png" |} |};
     save_Version := 0 |}.

Definition lost_sidecar_fs : FsArtifact.FS :=
  (FsArtifact.os_Remove "root/app/u1/s1/notes.txt/1.meta"
     (FsArtifact.Save root_service image_save FsArtifact.empty_fs).2).2.

(** A tree that holds version 1 of the notes and whose directories cannot be
    listed, and a bucket that cannot be listed. *)
Definition unlistable_fs : FsArtifact.FS :=
  {| FsArtifact.nodes :=
       FsArtifact.nodes
         (FsArtifact.Save root_service (notes_save "old" 0) FsArtifact.empty_fs).2;
     FsArtifact.fails :=
       λ c _, match c with FsArtifact.SysReadDir => true | _ => false end |}.

Definition unlistable_bucket : S3Artifact.Bucket :=
  {| S3Artifact.objects := ∅;
     S3Artifact.fails :=
       λ c _, match c with S3Artifact.CallList => true | _ => false end;
     S3Artifact.detect := λ _, "application/octet-stream";
     S3Artifact.format := λ ct, ct |}.

(** A user-scoped artifact: an avatar of user ["u1"], saved in session
    ["s1"]; and the listing of another session of that user. *)
Definition avatar_save : SaveRequest :=
  {| save_AppName := "app"; save_UserID := "u1"; save_SessionID := "s1";
     save_FileName := "user:avatar.png";
     save_Part := Some {| Text := "";
                          InlineData := Some {| Data := list_byte_of_string "PNG";
                                                MIMEType := "image/png" |} |};
     save_Version := 0 |}.

Definition other_session_list : ListRequest :=
  {| list_AppName := "app"; list_UserID := "u1"; list_SessionID := "s2" |}.

(** An image whose MIME type is written in upper case. *)
Definition shouting_part : Part :=
  {| Text := "";
     InlineData := Some {| Data := list_byte_of_string "PNG";
                           MIMEType := "IMAGE/PNG" |} |}.

Definition shouting_save : SaveRequest :=
  {| save_AppName := "app"; save_UserID := "u1"; save_SessionID := "s1";
     save_FileName := "notes.txt"; save_Part := Some shouting_part;
     save_Version := 0 |}.

(* ===================================================================== *)
(** * Part II: facts about the model                                      *)
(* ===================================================================== *)

(** ** The library functions on examples *)

Example Sprintf_d_neg : Sprintf_d (-120) = "-120".
Proof. reflexivity. Qed.

Example ParseInt_plus : ParseInt "+007" = Some 7.
Proof. reflexivity. Qed.

Example ParseInt_meta : ParseInt "7.meta" = None.
Proof. reflexivity. Qed.

Example ParseInt_range : ParseInt "9223372036854775808" = None.
Proof. reflexivity. Qed.

Example Join_dots :
  filepath_Join ["root"; "a"; "."; "b/../c"; ""; "1"] = "root/a/c/1".
Proof. reflexivity. Qed.

Example Join_up : filepath_Join ["../x"; ".."; ".."; "y"] = "../../y".
Proof. reflexivity. Qed.

Example Dir_file : filepath_Dir "/r/a/1" = "/r/a".
Proof. reflexivity. Qed.

Example format_upper : format_plain "IMAGE/PNG" = "image/png".
Proof. reflexivity. Qed.

Example format_spaces : format_plain " Text/Plain " = "text/plain".
Proof. reflexivity. Qed.

Example canonical_text : canonical_type "text/plain" = true.
Proof. reflexivity. Qed.

Example canonical_upper : canonical_type "IMAGE/PNG" = false.
Proof. reflexivity. Qed.

(** ** Integers and the characters of their decimal form *)

Lemma append_empty_l s : "" +:+ s = s.
Proof. reflexivity. Qed.

Lemma append_String c s t : String c s +:+ t = String c (s +:+ t).
Proof. reflexivity. Qed.

Lemma append_empty_r s : s +:+ "" = s.
Proof. induction s as [|c s IH]; [done|]. by rewrite append_String, IH. Qed.

Lemma append_assoc s t u : (s +:+ t) +:+ u = s +:+ t +:+ u.
Proof. induction s as [|c s IH]; [done|]. by rewrite !append_String, IH. Qed.

Lemma all_chars_app P s t :
  all_chars P (s +:+ t) = all_chars P s && all_chars P t.
Proof.
  induction s as [|c s IH]; simpl; [done|].
  rewrite IH. by rewrite andb_assoc.
Qed.

Lemma all_chars_impl (P Q : ascii → bool) s :
  (∀ c, P c = true → Q c = true) → all_chars P s = true → all_chars Q s = true.
Proof.
  intros HPQ. induction s as [|c s IH]; simpl; [done|].
  intros [Hc Hs]%andb_true_iff. rewrite (HPQ _ Hc). simpl. auto.
Qed.

Lemma uint_of_char_digit c o u :
  uint_of_char c o = Some u → is_digit_or_sign c = true ∧ ∃ u', o = Some u'.
Proof.
  unfold is_digit_or_sign. simpl.
  destruct o as [u'|]; [|intros H; exfalso; revert H; unfold uint_of_char;
    destruct c as [[] [] [] [] [] [] [] []]; simpl; discriminate].
  intros H. split; [|eauto].
  revert H. unfold uint_of_char.
  destruct c as [[] [] [] [] [] [] [] []]; simpl; try discriminate; done.
Qed.

Lemma uint_of_string_digits s u :
  NilEmpty.uint_of_string s = Some u → all_chars is_digit_or_sign s = true.
Proof.
  revert u. induction s as [|c s IH]; simpl; [done|].
  intros u H. apply uint_of_char_digit in H as [Hc [u' Hu']].
  rewrite Hc. simpl. eauto.
Qed.

Lemma ParseInt_chars s v :
  ParseInt s = Some v → s ≠ "" ∧ all_chars is_digit_or_sign s = true.
Proof.
  unfold ParseInt. destruct s as [|c r]; [done|].
  intros H. split; [done|].
  destruct (Ascii.eqb c "+") eqn:Hp.
  { apply Ascii.eqb_eq in Hp as ->. simpl.
    destruct r as [|c' r']; [done|].
    destruct (NilEmpty.uint_of_string (String c' r')) eqn:Hu; [|done].
    by apply uint_of_string_digits in Hu. }
  destruct (Ascii.eqb c "-") eqn:Hm.
  { apply Ascii.eqb_eq in Hm as ->. simpl.
    destruct r as [|c' r']; [done|].
    destruct (NilEmpty.uint_of_string (String c' r')) eqn:Hu; [|done].
    by apply uint_of_string_digits in Hu. }
  destruct (NilEmpty.uint_of_string (String c r)) eqn:Hu; [|done].
  by apply uint_of_string_digits in Hu.
Qed.

Lemma string_of_uint_first u :
  u ≠ Decimal.Nil →
  ∃ c r, NilEmpty.string_of_uint u = String c r
         ∧ Ascii.eqb c "+" = false ∧ Ascii.eqb c "-" = false.
Proof. destruct u; [done|..]; intros _; simpl; eauto. Qed.

Lemma is_int64_spec z : is_int64 z = true ↔ MinInt64 ≤ z ≤ MaxInt64.
Proof. unfold is_int64. rewrite andb_true_iff, !Z.leb_le. done. Qed.

Lemma ParseInt_pos_uint u :
  u ≠ Decimal.Nil →
  ParseInt (NilEmpty.string_of_uint u)
  = if is_int64 (Z.of_uint u) then Some (Z.of_uint u) else None.
Proof.
  intros Hu. destruct (string_of_uint_first u Hu) as (c & r & Hs & Hp & Hm).
  assert (NilEmpty.uint_of_string (String c r) = Some u) as Hu'
    by (rewrite <- Hs; apply NilEmpty.usu).
  unfold ParseInt. rewrite Hs, Hp, Hm, Hu'. reflexivity.
Qed.

Lemma ParseInt_Sprintf_d v : is_int64 v = true → ParseInt (Sprintf_d v) = Some v.
Proof.
  intros Hv. unfold Sprintf_d. destruct v as [|p|p]; [done|..]; simpl.
  - pose proof (DecimalPos.Unsigned.to_uint_nonnil p) as Hn.
    assert (NilZero.string_of_uint (Pos.to_uint p)
            = NilEmpty.string_of_uint (Pos.to_uint p)) as ->.
    { unfold NilZero.string_of_uint. by destruct (Pos.to_uint p). }
    rewrite ParseInt_pos_uint by done.
    unfold Z.of_uint. rewrite DecimalPos.Unsigned.of_to. simpl. by rewrite Hv.
  - pose proof (DecimalPos.Unsigned.to_uint_nonnil p) as Hn.
    assert (NilZero.string_of_uint (Pos.to_uint p)
            = NilEmpty.string_of_uint (Pos.to_uint p)) as ->.
    { unfold NilZero.string_of_uint. by destruct (Pos.to_uint p). }
    destruct (string_of_uint_first _ Hn) as (c & r & Hs & _ & _).
    assert (NilEmpty.uint_of_string (String c r) = Some (Pos.to_uint p)) as Hu'
      by (rewrite <- Hs; apply NilEmpty.usu).
    unfold ParseInt. cbn [NilZero.string_of_int Ascii.eqb Bool.eqb].
    rewrite Hs, Hu'.
    unfold Z.of_uint. rewrite DecimalPos.Unsigned.of_to.
    change (- Z.of_N (N.pos p)) with (Z.neg p). by rewrite Hv.
Qed.

Lemma Sprintf_d_inj v w :
  is_int64 v = true → is_int64 w = true → Sprintf_d v = Sprintf_d w → v = w.
Proof.
  intros Hv Hw E. apply ParseInt_Sprintf_d in Hv, Hw. rewrite E in Hv. congruence.
Qed.

Lemma Sprintf_d_chars v : all_chars is_digit_or_sign (Sprintf_d v) = true.
Proof.
  assert (∀ u, all_chars is_digit_or_sign (NilZero.string_of_uint u) = true) as Hu.
  { intros u. unfold NilZero.string_of_uint. destruct u; [done|..];
      (eapply uint_of_string_digits; apply NilEmpty.usu). }
  unfold Sprintf_d. destruct (Z.to_int v); simpl; [apply Hu|].
  rewrite Hu. done.
Qed.

Lemma Sprintf_d_nonempty v : Sprintf_d v ≠ "".
Proof.
  unfold Sprintf_d. destruct (Z.to_int v) as [u|u]; simpl; [|done].
  unfold NilZero.string_of_uint. destruct u; done.
Qed.

Lemma digits_no_sep s : all_chars is_digit_or_sign s = true → no_sep s = true.
Proof.
  apply all_chars_impl. intros c.
  destruct c as [[] [] [] [] [] [] [] []]; done.
Qed.

Lemma digits_no_dot s t :
  all_chars is_digit_or_sign (s +:+ String "." t) = false.
Proof.
  rewrite all_chars_app. simpl. apply andb_false_intro2. done.
Qed.

Lemma Sprintf_d_plain v : plain_elem (Sprintf_d v) = true.
Proof.
  pose proof (Sprintf_d_chars v) as Hc. pose proof (Sprintf_d_nonempty v) as Hn.
  unfold plain_elem. rewrite (digits_no_sep _ Hc), andb_true_r.
  destruct (Sprintf_d v) as [|c [|c' [|c'' r]]]; [done|..].
  - destruct c as [[] [] [] [] [] [] [] []]; done.
  - destruct c as [[] [] [] [] [] [] [] []]; try done.
  - destruct c as [[] [] [] [] [] [] [] []]; try done;
    destruct c' as [[] [] [] [] [] [] [] []]; done.
Qed.

Lemma no_sep_app s t : no_sep (s +:+ t) = no_sep s && no_sep t.
Proof. apply all_chars_app. Qed.

Lemma plain_elem_app s t :
  plain_elem s = true → no_sep t = true →
  all_chars is_digit_or_sign s = true → plain_elem (s +:+ t) = true.
Proof.
  unfold plain_elem. intros Hs Ht Hd.
  rewrite no_sep_app, Ht, andb_true_r.
  destruct s as [|c [|c' r]]; [done|..]; simpl in *.
  - destruct c as [[] [] [] [] [] [] [] []]; try done; by destruct t.
  - destruct c as [[] [] [] [] [] [] [] []]; try done;
    destruct c' as [[] [] [] [] [] [] [] []]; try done; by destruct r.
Qed.

Lemma Sprintf_d_meta_plain v : plain_elem (Sprintf_d v +:+ ".meta") = true.
Proof.
  apply plain_elem_app; [apply Sprintf_d_plain|done|apply Sprintf_d_chars].
Qed.

Lemma ParseInt_meta_None s : ParseInt (s +:+ ".meta") = None.
Proof.
  destruct (ParseInt (s +:+ ".meta")) as [v|] eqn:E; [|done].
  apply ParseInt_chars in E as [_ E]. by rewrite digits_no_dot in E.
Qed.

(** ** [HasSuffix] *)

Lemma substring_split s n :
  (n ≤ String.length s)%nat →
  s = substring 0 n s +:+ substring n (String.length s - n) s.
Proof.
  revert n. induction s as [|c s IH]; intros n Hn; simpl in *.
  - destruct n; done.
  - destruct n as [|n]; simpl.
    + rewrite append_empty_l. clear. f_equal.
      induction s as [|c' s IH]; simpl; [done|]. by f_equal.
    + rewrite append_String. f_equal. apply IH. lia.
Qed.

Lemma HasSuffix_app s suf : HasSuffix s suf = true → ∃ pre, s = pre +:+ suf.
Proof.
  unfold HasSuffix. intros [Hl He]%andb_true_iff.
  apply Nat.leb_le in Hl. apply String.eqb_eq in He.
  exists (substring 0 (String.length s - String.length suf) s).
  rewrite (substring_split s (String.length s - String.length suf)) at 1 by lia.
  f_equal.
  replace (String.length s - (String.length s - String.length suf))%nat
    with (String.length suf) by lia.
  done.
Qed.

Lemma Sprintf_d_not_meta v : HasSuffix (Sprintf_d v) ".meta" = false.
Proof.
  destruct (HasSuffix (Sprintf_d v) ".meta") eqn:E; [|done].
  apply HasSuffix_app in E as [pre E].
  pose proof (Sprintf_d_chars v) as Hc. rewrite E, digits_no_dot in Hc. done.
Qed.

(** ** [Split] and [JoinSep] *)

Lemma Split_nonempty s : Split s ≠ [].
Proof.
  destruct s as [|c r]; simpl; [done|].
  destruct (Ascii.eqb c sep); [done|]. by destruct (Split r).
Qed.

Lemma Split_String c r :
  Ascii.eqb c sep = false →
  ∃ x l, Split r = x :: l ∧ Split (String c r) = String c x :: l.
Proof.
  intros Hc. simpl. rewrite Hc.
  destruct (Split r) as [|x l] eqn:E; [by apply Split_nonempty in E|]. eauto.
Qed.

Lemma Split_no_sep s : no_sep s = true → Split s = [s].
Proof.
  induction s as [|c r IH]; [done|].
  unfold no_sep. simpl. intros [Hc Hr]%andb_true_iff.
  apply negb_true_iff in Hc. rewrite Hc, (IH Hr). done.
Qed.

Lemma Split_app_sep a b : Split (a +:+ String sep b) = Split a ++ Split b.
Proof.
  induction a as [|c r IH]; [done|].
  rewrite append_String. simpl.
  destruct (Ascii.eqb c sep); [by rewrite IH|].
  rewrite IH. destruct (Split r) as [|x l] eqn:E; [by apply Split_nonempty in E|].
  done.
Qed.

Lemma Split_all_no_sep s : Forall (λ x, no_sep x = true) (Split s).
Proof.
  induction s as [|c r IH]; simpl; [by repeat constructor|].
  destruct (Ascii.eqb c sep) eqn:Hc; [by constructor|].
  destruct (Split r) as [|x l] eqn:E; [by apply Split_nonempty in E|].
  inversion IH; subst. constructor; [|done].
  unfold no_sep in *. simpl. by rewrite Hc.
Qed.

Lemma JoinSep_cons x y l : JoinSep (x :: y :: l) = x +:+ String sep (JoinSep (y :: l)).
Proof. reflexivity. Qed.

Lemma JoinSep_snoc l x :
  l ≠ [] → JoinSep (l ++ [x]) = JoinSep l +:+ String sep x.
Proof.
  induction l as [|y l IH]; [done|]. intros _.
  destruct l as [|z l]; [done|].
  rewrite <- !app_comm_cons, JoinSep_cons, (app_comm_cons l [x] z), IH by done.
  by rewrite JoinSep_cons, append_assoc.
Qed.

Lemma Split_JoinSep l :
  l ≠ [] → Forall (λ x, no_sep x = true) l → Split (JoinSep l) = l.
Proof.
  induction l as [|x l IH] using rev_ind; [done|]. intros _ Hall.
  apply Forall_app in Hall as [Hl Hx]. inversion Hx; subst.
  destruct l as [|y l]; [by apply Split_no_sep|].
  rewrite JoinSep_snoc, Split_app_sep, IH, Split_no_sep by done. done.
Qed.

(** ** [filepath.Clean] *)

Lemma plain_elem_spec x :
  plain_elem x = true ↔ x ≠ "" ∧ x ≠ "." ∧ x ≠ ".." ∧ no_sep x = true.
Proof.
  unfold plain_elem. rewrite !andb_true_iff, !negb_true_iff, !String.eqb_neq.
  tauto.
Qed.

Lemma clean_step_plain r out x :
  plain_elem x = true → clean_step r out x = x :: out.
Proof.
  intros (H1 & H2 & H3 & _)%plain_elem_spec. unfold clean_step.
  repeat case_decide; done.
Qed.

Lemma clean_fold_plain r R acc :
  Forall (λ x, plain_elem x = true) R →
  fold_left (clean_step r) R acc = rev R ++ acc.
Proof.
  intros H. revert acc. induction H as [|x R Hx _ IH]; intros acc; simpl; [done|].
  rewrite clean_step_plain, IH by done. by rewrite <- app_assoc.
Qed.

Lemma clean_step_dotdot r out :
  clean_step r out ".."
  = match out with
    | top :: rest =>
        if decide (top = "..") then (if r then out else ".." :: out) else rest
    | [] => if r then [] else [".."]
    end.
Proof. reflexivity. Qed.

Lemma clean_fold_dots n k :
  fold_left (clean_step false) (replicate n "..") (replicate k "..")
  = replicate (n + k) "..".
Proof.
  revert k. induction n as [|n IH]; intros k; simpl; [done|].
  assert (clean_step false (replicate k "..") ".." = replicate (S k) "..") as ->.
  { rewrite clean_step_dotdot. destruct k as [|k]; [done|].
    cbn [replicate]. by rewrite decide_True. }
  rewrite IH. by replace (n + S k)%nat with (S (n + k)) by lia.
Qed.

Lemma clean_elems_stack r L : clean_stack r L → clean_elems r L = L.
Proof.
  intros (n & R & -> & HR & Hn). unfold clean_elems.
  rewrite fold_left_app.
  destruct r.
  - rewrite (Hn eq_refl). simpl. rewrite clean_fold_plain by done.
    by rewrite app_nil_r, rev_involutive.
  - pose proof (clean_fold_dots n 0) as Hd. cbn [replicate] in Hd.
    rewrite Hd, clean_fold_plain by done.
    rewrite rev_app_distr, rev_involutive, Nat.add_0_r.
    f_equal. clear. induction n as [|n IH]; [done|].
    simpl. rewrite IH. clear. induction n; simpl; [done|]. by f_equal.
Qed.

Lemma clean_stack_snoc r L x :
  clean_stack r L → plain_elem x = true → clean_stack r (L ++ [x]).
Proof.
  intros (n & R & -> & HR & Hn) Hx. exists n, (R ++ [x]).
  split; [by rewrite app_assoc|]. split; [|done].
  apply Forall_app. split; [done|]. by constructor.
Qed.

Lemma clean_step_stack r out x :
  clean_stack r (rev out) → no_sep x = true →
  clean_stack r (rev (clean_step r out x)).
Proof.
  intros Hst Hx.
  destruct (decide (x = "")) as [->|H1]; [done|].
  destruct (decide (x = ".")) as [->|H2]; [done|].
  destruct (decide (x = "..")) as [->|H3].
  - rewrite clean_step_dotdot.
    destruct Hst as (n & R & E & HR & Hn).
    destruct out as [|top rest].
    { destruct r; [by exists 0%nat, []|]. exists 1%nat, []. by repeat split. }
    simpl in E.
    destruct R as [|y R' _] using rev_ind.
    + rewrite app_nil_r in E.
      assert (top = "..") as ->.
      { assert (top ∈ replicate n "..") as Hin.
        { rewrite <- E. apply list_elem_of_In, in_app_iff. right. by left. }
        by apply elem_of_replicate in Hin as [-> _]. }
      rewrite decide_True by done.
      destruct r.
      { rewrite (Hn eq_refl) in E. simpl in E.
        by apply app_eq_nil in E as [_ ?]. }
      exists (S n), []. split; [|by split].
      simpl. rewrite E, app_nil_r. clear.
      induction n; simpl; [done|]. by f_equal.
    + rewrite app_assoc in E. apply app_inj_tail in E as [E ->].
      apply Forall_app in HR as [HR' Hy]. inversion Hy; subst.
      rewrite decide_False.
      2:{ intros ->. done. }
      exists n, R'. by rewrite E.
  - rewrite clean_step_plain by (by apply plain_elem_spec).
    simpl. apply clean_stack_snoc; [done|].
    apply plain_elem_spec. done.
Qed.

Lemma clean_elems_is_stack r elems :
  Forall (λ x, no_sep x = true) elems → clean_stack r (clean_elems r elems).
Proof.
  unfold clean_elems. intros H.
  assert (clean_stack r (rev [])) as Hinit by (exists 0%nat, []; by repeat split).
  revert Hinit. generalize (@nil string) as acc.
  induction H as [|x l Hx _ IH]; intros acc Hacc; simpl; [done|].
  apply IH. by apply clean_step_stack.
Qed.

Lemma clean_elems_snoc r elems x :
  plain_elem x = true →
  clean_elems r (elems ++ [x]) = clean_elems r elems ++ [x].
Proof.
  intros Hx. unfold clean_elems. rewrite fold_left_app. simpl.
  by rewrite clean_step_plain.
Qed.

Lemma clean_elems_snoc_empty r elems :
  clean_elems r (elems ++ [""]) = clean_elems r elems.
Proof. unfold clean_elems. rewrite fold_left_app. done. Qed.

Lemma clean_elems_cons_empty r elems :
  clean_elems r ("" :: elems) = clean_elems r elems.
Proof. done. Qed.

Section PathFacts.
Import FsArtifact.

Lemma clean_stack_no_sep r L :
  clean_stack r L → Forall (λ x, no_sep x = true) L.
Proof.
  intros (n & R & -> & HR & _). apply Forall_app. split.
  - apply Forall_forall. intros x Hx.
    by apply elem_of_replicate in Hx as [-> _].
  - eapply Forall_impl; [done|]. by intros x (_ & _ & _ & ?)%plain_elem_spec.
Qed.

Lemma clean_stack_head r x L :
  clean_stack r (x :: L) → x ≠ "" ∧ no_sep x = true.
Proof.
  intros (n & R & E & HR & _). destruct n as [|n]; simpl in E.
  - subst R. inversion HR as [|?? Hx]; subst.
    apply plain_elem_spec in Hx. tauto.
  - by inversion E.
Qed.

Lemma is_rooted_app x t :
  x ≠ "" → no_sep x = true → is_rooted (x +:+ t) = false.
Proof.
  destruct x as [|c x]; [done|]. intros _. unfold no_sep. simpl.
  intros [Hc _]%andb_true_iff. by apply negb_true_iff in Hc.
Qed.

Lemma is_rooted_JoinSep r L :
  clean_stack r L → L ≠ [] → is_rooted (JoinSep L) = false.
Proof.
  destruct L as [|x L]; [done|]. intros [Hx Hs]%clean_stack_head _.
  destruct L as [|y L].
  - rewrite <- (append_empty_r x). by apply is_rooted_app.
  - rewrite JoinSep_cons. by apply is_rooted_app.
Qed.

(** The text of a cleaned path names its own elements. *)
Lemma path_key_render r L : clean_stack r L → path_key (render r L) = (r, L).
Proof.
  intros Hst. pose proof (clean_stack_no_sep _ _ Hst) as Hns.
  unfold path_key, render. destruct r.
  - change ("/" +:+ JoinSep L) with (String sep (JoinSep L)).
    cbn [is_rooted Split]. rewrite Ascii.eqb_refl. f_equal.
    rewrite clean_elems_cons_empty.
    destruct L as [|x L]; [done|].
    rewrite Split_JoinSep by done. by apply clean_elems_stack.
  - destruct L as [|x L]; [done|].
    rewrite (is_rooted_JoinSep false) by done.
    rewrite Split_JoinSep by done. f_equal. by apply clean_elems_stack.
Qed.

Lemma path_key_stack p : clean_stack (path_key p).1 (path_key p).2.
Proof. apply clean_elems_is_stack, Split_all_no_sep. Qed.

Lemma Clean_render p :
  filepath_Clean p = render (path_key p).1 (path_key p).2.
Proof. reflexivity. Qed.

Lemma path_key_Clean p : path_key (filepath_Clean p) = path_key p.
Proof.
  rewrite Clean_render, path_key_render by apply path_key_stack.
  by destruct (path_key p).
Qed.

Lemma is_rooted_append_sep p t :
  p ≠ "" → is_rooted (p +:+ t) = is_rooted p.
Proof. destruct p; [done|]. intros _. reflexivity. Qed.

Lemma path_key_append_elem p x :
  p ≠ "" → plain_elem x = true →
  path_key (p +:+ String sep x) = extend (path_key p) x.
Proof.
  intros Hp Hx. unfold path_key, extend. simpl.
  rewrite is_rooted_append_sep by done. f_equal.
  pose proof Hx as (_ & _ & _ & Hns)%plain_elem_spec.
  rewrite Split_app_sep, (Split_no_sep x) by done.
  by apply clean_elems_snoc.
Qed.

Lemma JoinSep_nonempty e l : e ≠ "" → JoinSep (e :: l) ≠ "".
Proof.
  intros He. destruct l as [|y l]; [done|].
  rewrite JoinSep_cons. by destruct e.
Qed.

(** [filepath.Join] of a list with one more plain element at the end. *)
Lemma Join_snoc elem x :
  plain_elem x = true →
  filepath_Join (elem ++ [x])
  = render (path_key (filepath_Join elem)).1
           ((path_key (filepath_Join elem)).2 ++ [x]).
Proof.
  intros Hx. induction elem as [|e l IH].
  - pose proof Hx as (Hne & _ & _ & Hns)%plain_elem_spec.
    simpl. rewrite decide_False by done.
    rewrite Clean_render.
    change (JoinSep [x]) with x.
    replace (path_key x) with (false, [x]); [done|].
    rewrite <- (path_key_render false [x]); [done|].
    exists 0%nat, [x]. split; [done|]. split; [|done]. by constructor.
  - rewrite <- app_comm_cons. cbn [filepath_Join].
    destruct (decide (e = "")) as [->|He]; [done|].
    rewrite path_key_Clean, Clean_render.
    rewrite app_comm_cons, JoinSep_snoc by done.
    rewrite path_key_append_elem by (done || by apply JoinSep_nonempty).
    done.
Qed.

Lemma path_key_Join_snoc elem x :
  plain_elem x = true →
  path_key (filepath_Join (elem ++ [x])) = extend (path_key (filepath_Join elem)) x.
Proof.
  intros Hx. rewrite Join_snoc by done.
  apply path_key_render, clean_stack_snoc; [apply path_key_stack|done].
Qed.

Lemma render_snoc_append r L x t :
  render r (L ++ [x]) +:+ t = render r (L ++ [x +:+ t]).
Proof.
  unfold render. destruct r.
  - rewrite append_assoc. f_equal.
    destruct L as [|y L]; [done|]. rewrite !JoinSep_snoc by done.
    rewrite append_assoc. f_equal.
  - destruct L as [|y L]; [done|].
    rewrite <- !app_comm_cons.
    destruct (L ++ [x]) eqn:E1; [by destruct L|].
    destruct (L ++ [x +:+ t]) eqn:E2; [by destruct L|].
    rewrite <- E1, <- E2, !app_comm_cons, !JoinSep_snoc by done.
    rewrite append_assoc. f_equal.
Qed.

(** The sidecar of an entry is the entry of the same directory with the
    suffix added to its name. *)
Lemma path_key_Join_snoc_suffix elem x t :
  plain_elem x = true → plain_elem (x +:+ t) = true →
  path_key (filepath_Join (elem ++ [x]) +:+ t)
  = extend (path_key (filepath_Join elem)) (x +:+ t).
Proof.
  intros Hx Hxt. rewrite Join_snoc, render_snoc_append by done.
  apply path_key_render, clean_stack_snoc; [apply path_key_stack|done].
Qed.

Lemma render_unrooted L : L ≠ [] → render false L = JoinSep L.
Proof. by destruct L. Qed.

Lemma Split_render_snoc r L x :
  clean_stack r L → plain_elem x = true →
  removelast (Split (render r (L ++ [x])))
  = if r then "" :: L else L.
Proof.
  intros Hst Hx.
  assert (Forall (λ x, no_sep x = true) (L ++ [x])) as Hns.
  { apply Forall_app. split; [by eapply clean_stack_no_sep|].
    constructor; [|done]. by apply plain_elem_spec in Hx as (_ & _ & _ & ?). }
  assert (L ++ [x] ≠ []) as Hne by (by destruct L).
  destruct r.
  - unfold render.
    change ("/" +:+ JoinSep (L ++ [x])) with (String sep (JoinSep (L ++ [x]))).
    cbn [Split]. rewrite Ascii.eqb_refl, Split_JoinSep by done.
    change ("" :: L ++ [x]) with (("" :: L) ++ [x]). apply removelast_last.
  - rewrite render_unrooted, Split_JoinSep by done. apply removelast_last.
Qed.

(** [filepath.Dir] of an entry is its directory. *)
Lemma path_key_Dir_Join_snoc elem x :
  plain_elem x = true →
  path_key (filepath_Dir (filepath_Join (elem ++ [x])))
  = path_key (filepath_Join elem).
Proof.
  intros Hx. rewrite Join_snoc by done.
  pose proof (path_key_stack (filepath_Join elem)) as Hst.
  destruct (path_key (filepath_Join elem)) as [r L] eqn:Ek. simpl in *.
  unfold filepath_Dir. rewrite Split_render_snoc by done.
  destruct r.
  - rewrite path_key_Clean.
    destruct L as [|y L].
    + done.
    + unfold path_key.
      change (JoinSep ("" :: y :: L)) with (String sep (JoinSep (y :: L))).
      rewrite append_String. cbn [is_rooted]. rewrite Ascii.eqb_refl. f_equal.
      change (String sep (JoinSep (y :: L) +:+ "/"))
        with ("" +:+ String sep (JoinSep (y :: L) +:+ String sep "")).
      rewrite !Split_app_sep.
      rewrite Split_JoinSep by (done || by eapply clean_stack_no_sep).
      change (Split "") with [""]. rewrite app_assoc, clean_elems_snoc_empty.
      simpl. rewrite clean_elems_cons_empty. by apply clean_elems_stack.
  - destruct L as [|y L]; [done|].
    rewrite path_key_Clean. unfold path_key.
    change (JoinSep (y :: L) +:+ "/") with (JoinSep (y :: L) +:+ String sep "").
    rewrite is_rooted_append_sep.
    2:{ destruct (clean_stack_head _ _ _ Hst) as [Hy _].
        by apply JoinSep_nonempty. }
    rewrite (is_rooted_JoinSep false) by done. f_equal.
    rewrite Split_app_sep.
    rewrite Split_JoinSep by (done || by eapply clean_stack_no_sep).
    change (Split "") with [""]. rewrite clean_elems_snoc_empty.
    by apply clean_elems_stack.
Qed.

End PathFacts.

Section FsFacts.
Import FsArtifact.

(** ** The tree of nodes *)

Lemma child_name_extend dir x : child_name dir (extend dir x) = Some x.
Proof.
  unfold child_name, extend. simpl.
  rewrite decide_True by (by rewrite take_app_length).
  by rewrite drop_app_length.
Qed.

Lemma child_name_Some dir k x : child_name dir k = Some x ↔ k = extend dir x.
Proof.
  split; [|intros ->; apply child_name_extend].
  unfold child_name. case_decide as H; [|done]. destruct H as [H1 H2].
  destruct (drop (length dir.2) k.2) as [|y [|z l]] eqn:E; try done.
  intros [= ->]. destruct k as [r L]. unfold extend. simpl in *.
  f_equal; [done|]. by rewrite <- (take_drop (length dir.2) L), H2, E.
Qed.

Lemma extend_inj k x y : extend k x = extend k y → x = y.
Proof. unfold extend. intros [= H]. by apply app_inv_head in H as [= ->]. Qed.

Lemma extend_not_prefix k x P : P `prefix_of` k.2 → (k.1, P) ≠ extend k x.
Proof.
  intros Hp [= E]. apply prefix_length in Hp. rewrite E, length_app in Hp.
  simpl in Hp. lia.
Qed.

Lemma parent_extend k x : parent (extend k x) = k.
Proof. unfold parent, extend. simpl. rewrite removelast_last. by destruct k. Qed.

Lemma children_lookup_extend m dir x :
  children m dir !! extend dir x = m !! extend dir x.
Proof.
  unfold children. destruct (m !! extend dir x) as [n|] eqn:E.
  - apply map_lookup_filter_Some. split; [done|]. simpl.
    rewrite child_name_extend. by eexists.
  - apply map_lookup_filter_None. by left.
Qed.

Lemma children_lookup_Some m dir k n :
  children m dir !! k = Some n ↔ ∃ x, k = extend dir x ∧ m !! k = Some n.
Proof.
  unfold children. rewrite map_lookup_filter_Some. simpl. split.
  - intros [Hm [x Hx]]. apply child_name_Some in Hx. eauto.
  - intros (x & -> & Hm). split; [done|]. rewrite child_name_extend. by eexists.
Qed.

Lemma children_ext m1 m2 dir :
  (∀ x, m1 !! extend dir x = m2 !! extend dir x) →
  children m1 dir = children m2 dir.
Proof.
  intros H. apply map_eq. intros k.
  destruct (children m1 dir !! k) as [n|] eqn:E1.
  - apply children_lookup_Some in E1 as (x & -> & Hm). symmetry.
    apply children_lookup_Some. exists x. by rewrite <- H.
  - destruct (children m2 dir !! k) as [n|] eqn:E2; [|done].
    apply children_lookup_Some in E2 as (x & -> & Hm).
    rewrite children_lookup_extend, H, Hm in E1. done.
Qed.

Lemma walk_snoc m r pre L x :
  walk m r pre (L ++ [x])
  = match walk m r pre L with
    | Found Directory =>
        match m !! (r, pre ++ L ++ [x]) with
        | Some n => Found n
        | None => NoEnt
        end
    | Found (File _) => NotDir
    | NoEnt => NoEnt
    | NotDir => NotDir
    end.
Proof.
  revert pre. induction L as [|y L IH]; intros pre.
  - simpl. by destruct (m !! (r, pre ++ [x])).
  - cbn [app walk]. destruct (m !! (r, pre ++ [y])) as [n|] eqn:E; [|done].
    destruct L as [|z L].
    + simpl. destruct n; [done|]. by rewrite <- app_assoc.
    + change ((z :: L) ++ [x]) with (z :: L ++ [x]).
      destruct n; [done|].
      change (z :: L ++ [x]) with ((z :: L) ++ [x]).
      rewrite IH. by rewrite <- app_assoc.
Qed.

Lemma resolve_extend fs k x :
  resolve fs (extend k x)
  = match resolve fs k with
    | Found Directory =>
        match nodes fs !! extend k x with
        | Some n => Found n
        | None => NoEnt
        end
    | Found (File _) => NotDir
    | NoEnt => NoEnt
    | NotDir => NotDir
    end.
Proof. unfold resolve, extend. simpl. by rewrite walk_snoc. Qed.

Lemma walk_ext m1 m2 r pre L :
  (∀ P, P ≠ [] → P `prefix_of` L → m1 !! (r, pre ++ P) = m2 !! (r, pre ++ P)) →
  walk m1 r pre L = walk m2 r pre L.
Proof.
  revert pre. induction L as [|y L IH]; intros pre H; [done|].
  cbn [walk]. rewrite <- (H [y]) by (done || by apply prefix_cons, prefix_nil).
  destruct (m1 !! (r, pre ++ [y])) as [n|]; [|done].
  destruct L as [|z L]; [done|]. destruct n; [done|].
  apply IH. intros P HP Hpre. rewrite <- !app_assoc. apply H; [done|].
  by apply prefix_cons.
Qed.

Lemma resolve_ext fs1 fs2 k :
  (∀ P, P `prefix_of` k.2 → nodes fs1 !! (k.1, P) = nodes fs2 !! (k.1, P)) →
  resolve fs1 k = resolve fs2 k.
Proof. intros H. apply walk_ext. intros P _ HP. by apply H. Qed.

Lemma resolve_dirs fs k :
  (∀ P, P ≠ [] → P `prefix_of` k.2 → nodes fs !! (k.1, P) = Some Directory) →
  resolve fs k = Found Directory.
Proof.
  destruct k as [r L]. simpl. induction L as [|x L IH] using rev_ind; [done|].
  intros H. change (r, L ++ [x]) with (extend (r, L) x).
  rewrite resolve_extend, IH.
  - unfold extend. simpl. rewrite H; [done|by destruct L|done].
  - intros P HP Hpre. apply H; [done|]. by apply prefix_app_r.
Qed.

(** ** [os.MkdirAll] *)

Lemma mkdir_all_ok fl m r pre rest :
  (∀ k, fl k = false) →
  (∀ P data, P ≠ [] → P `prefix_of` rest → m !! (r, pre ++ P) ≠ Some (File data)) →
  ∃ m', mkdir_all fl m r pre rest = (None, m')
        ∧ (∀ P, P ≠ [] → P `prefix_of` rest → m' !! (r, pre ++ P) = Some Directory)
        ∧ (∀ k, (∀ P, P ≠ [] → P `prefix_of` rest → k ≠ (r, pre ++ P)) →
                m' !! k = m !! k).
Proof.
  intros Hfl. revert m pre. induction rest as [|x rest IH]; intros m pre Hfree.
  { exists m. split; [done|]. split; [|done].
    intros P HP Hpre. by apply prefix_nil_inv in Hpre. }
  cbn [mkdir_all].
  assert (∀ m0 : gmap pathkey node, (∀ P, P ≠ [] → P `prefix_of` (x :: rest) →
                      m0 !! (r, pre ++ P) = m !! (r, pre ++ P)
                      ∨ m0 !! (r, pre ++ P) = Some Directory) →
          ∀ P data, P ≠ [] → P `prefix_of` rest →
                    m0 !! (r, (pre ++ [x]) ++ P) ≠ Some (File data)) as Hstep.
  { intros m0 H0 P data HP Hpre. rewrite <- app_assoc.
    destruct (H0 ([x] ++ P)) as [E|E]; [done|by apply prefix_cons|..].
    - rewrite E. apply Hfree; [done|by apply prefix_cons].
    - by rewrite E. }
  assert (∀ m0 m' : gmap pathkey node, m0 !! (r, pre ++ [x]) = Some Directory →
            (∀ k, k ≠ (r, pre ++ [x]) → m0 !! k = m !! k) →
            (∀ P, P ≠ [] → P `prefix_of` rest →
                  m' !! (r, (pre ++ [x]) ++ P) = Some Directory) →
            (∀ k, (∀ P, P ≠ [] → P `prefix_of` rest → k ≠ (r, (pre ++ [x]) ++ P)) →
                  m' !! k = m0 !! k) →
            (∀ P, P ≠ [] → P `prefix_of` (x :: rest) →
                  m' !! (r, pre ++ P) = Some Directory)
            ∧ (∀ k, (∀ P, P ≠ [] → P `prefix_of` (x :: rest) → k ≠ (r, pre ++ P)) →
                    m' !! k = m !! k)) as Hpost.
  { intros m0 m' Hx H0 Ha Hb. split.
    - intros P HP Hpre. destruct P as [|y P]; [done|].
      apply prefix_cons_inv_1 in Hpre as Hy. subst y.
      apply prefix_cons_inv_2 in Hpre.
      destruct P as [|z P].
      + rewrite Hb; [done|]. intros P HP' _ [= E].
        apply (f_equal length) in E. rewrite !length_app in E. simpl in E.
        destruct P; [done|]. simpl in E. lia.
      + change (pre ++ x :: z :: P) with (pre ++ [x] ++ z :: P).
        rewrite app_assoc. by apply Ha.
    - intros k Hk. rewrite Hb, H0; [done|..].
      + apply (Hk [x]); [done|]. apply prefix_cons, prefix_nil.
      + intros P HP Hpre. rewrite <- app_assoc. apply Hk; [done|].
        by apply prefix_cons. }
  destruct (m !! (r, pre ++ [x])) as [[data|]|] eqn:E.
  - exfalso. apply (Hfree [x] data); [done| |done]. apply prefix_cons, prefix_nil.
  - destruct (IH m (pre ++ [x])) as (m' & Hm' & Ha & Hb).
    { apply Hstep. auto. }
    exists m'. split; [done|]. by apply (Hpost m m').
  - rewrite Hfl.
    destruct (IH (<[(r, pre ++ [x]) := Directory]> m) (pre ++ [x]))
      as (m' & Hm' & Ha & Hb).
    { apply Hstep. intros P HP Hpre.
      destruct (decide ((r, pre ++ [x]) = (r, pre ++ P))) as [<-|Hne].
      - right. apply lookup_insert_eq.
      - left. by apply lookup_insert_ne. }
    exists m'. split; [done|].
    apply (Hpost (<[(r, pre ++ [x]) := Directory]> m) m'); try done.
    + apply lookup_insert_eq.
    + intros k Hk. by apply lookup_insert_ne.
Qed.

(** ** The paths of an artifact *)

Lemma buildPath_key s a u ss f v :
  path_key (buildPath s a u ss f v) = extend (artifact_dir s a u ss f) (Sprintf_d v).
Proof.
  unfold buildPath, artifact_dir, buildDir.
  destruct (fileHasUserNamespace f).
  - apply (path_key_Join_snoc [_; _; _; _; _]), Sprintf_d_plain.
  - apply (path_key_Join_snoc [_; _; _; _; _]), Sprintf_d_plain.
Qed.

Lemma buildPath_meta_key s a u ss f v :
  path_key (buildPath s a u ss f v +:+ ".meta")
  = extend (artifact_dir s a u ss f) (Sprintf_d v +:+ ".meta").
Proof.
  unfold buildPath, artifact_dir, buildDir.
  destruct (fileHasUserNamespace f).
  - apply (path_key_Join_snoc_suffix [_; _; _; _; _]);
      [apply Sprintf_d_plain|apply Sprintf_d_meta_plain].
  - apply (path_key_Join_snoc_suffix [_; _; _; _; _]);
      [apply Sprintf_d_plain|apply Sprintf_d_meta_plain].
Qed.

Lemma buildPath_Dir_key s a u ss f v :
  path_key (filepath_Dir (buildPath s a u ss f v)) = artifact_dir s a u ss f.
Proof.
  unfold buildPath, artifact_dir, buildDir.
  destruct (fileHasUserNamespace f).
  - apply (path_key_Dir_Join_snoc [_; _; _; _; _]), Sprintf_d_plain.
  - apply (path_key_Dir_Join_snoc [_; _; _; _; _]), Sprintf_d_plain.
Qed.

Lemma meta_name_ne v w : Sprintf_d v +:+ ".meta" ≠ Sprintf_d w.
Proof.
  intros E. pose proof (Sprintf_d_chars w) as H.
  rewrite <- E, digits_no_dot in H. done.
Qed.

(** ** The calls of the operating system on an entry of a directory *)

Lemma extend_ne_nil k x : (extend k x).2 ≠ [].
Proof. unfold extend. simpl. by destruct k.2. Qed.

Lemma resolve_insert_child fs k x n :
  resolve (set_nodes fs (<[extend k x := n]> (nodes fs))) k = resolve fs k.
Proof.
  apply resolve_ext. intros P HP. simpl.
  apply lookup_insert_ne. intros E. by apply (extend_not_prefix k x P).
Qed.

Lemma resolve_delete_child fs k x :
  resolve (set_nodes fs (delete (extend k x) (nodes fs))) k = resolve fs k.
Proof.
  apply resolve_ext. intros P HP. simpl.
  apply lookup_delete_ne. intros E. by apply (extend_not_prefix k x P).
Qed.

Lemma os_MkdirAll_ok fs name :
  quiet fs → dir_free fs (path_key name) →
  ∃ fs', os_MkdirAll name fs = (None, fs')
         ∧ fails fs' = fails fs
         ∧ resolve fs' (path_key name) = Found Directory
         ∧ (∀ x, nodes fs' !! extend (path_key name) x
                 = nodes fs !! extend (path_key name) x)
         ∧ dir_free fs' (path_key name).
Proof.
  intros Hq Hfree. unfold os_MkdirAll.
  destruct (mkdir_all_ok (fails fs SysMkdir) (nodes fs) (path_key name).1 []
              (path_key name).2) as (m' & Hm' & Ha & Hb).
  { intros k. apply Hq. }
  { intros P data _ HP. by apply Hfree. }
  rewrite Hm'. eexists. split; [done|]. split; [done|]. split; [|split].
  - apply resolve_dirs. simpl. intros P HP Hpre. by apply Ha.
  - intros x. simpl. apply Hb. intros P HP Hpre E.
    by apply (extend_not_prefix (path_key name) x P).
  - intros P data HP. simpl.
    destruct P as [|y P].
    + rewrite Hb; [by apply Hfree|]. intros P HP' _ [= E]. by destruct P.
    + pose proof (Ha (y :: P)) as H. simpl in H. by rewrite H.
Qed.

Lemma os_WriteFile_child fs name data k x :
  path_key name = extend k x →
  fails fs SysWriteFile (extend k x) = false →
  resolve fs k = Found Directory →
  nodes fs !! extend k x ≠ Some Directory →
  os_WriteFile name data fs
  = (None, set_nodes fs (<[extend k x := File data]> (nodes fs))).
Proof.
  intros Hk Hf Hr Hn. unfold os_WriteFile. rewrite Hk, Hf.
  pose proof (extend_ne_nil k x) as Hne.
  destruct (extend k x).2 eqn:E; [done|]. rewrite parent_extend, Hr.
  by destruct (nodes fs !! extend k x) as [[]|].
Qed.

Lemma os_WriteFile_failed fs name data e fs' :
  os_WriteFile name data fs = (Some e, fs') → fs' = fs.
Proof.
  unfold os_WriteFile. destruct (fails fs SysWriteFile _); [by intros [= _ <-]|].
  destruct (path_key name).2; [by intros [= _ <-]|].
  destruct (resolve fs _) as [[]| |]; try by intros [= _ <-].
  destruct (nodes fs !! _) as [[]|]; by intros [= <-] || intros [= _ <-].
Qed.

Lemma os_ReadFile_child fs name k x :
  path_key name = extend k x →
  fails fs SysReadFile (extend k x) = false →
  resolve fs k = Found Directory →
  os_ReadFile name fs
  = match nodes fs !! extend k x with
    | Some (File data) => inr data
    | Some Directory => inl EISDIR
    | None => inl ENOENT
    end.
Proof.
  intros Hk Hf Hr. unfold os_ReadFile. rewrite Hk, Hf, resolve_extend, Hr.
  by destruct (nodes fs !! extend k x) as [[]|].
Qed.

Lemma os_ReadDir_entries fs name es :
  os_ReadDir name fs = inr es →
  resolve fs (path_key name) = Found Directory
  ∧ ∀ e, e ∈ es ↔ ∃ x n, nodes fs !! extend (path_key name) x = Some n
                          ∧ e = {| Name := x; IsDir := is_dir n |}.
Proof.
  unfold os_ReadDir. destruct (fails fs SysReadDir _); [done|].
  destruct (resolve fs _) as [[]| |] eqn:Hr; try done.
  intros [= <-]. split; [done|]. intros e.
  rewrite merge_sort_Permutation, list_elem_of_fmap. split.
  - intros ([k n] & -> & Hin). apply elem_of_map_to_list in Hin.
    apply children_lookup_Some in Hin as (x & -> & Hm).
    exists x, n. split; [done|]. unfold entry_of. simpl.
    by rewrite child_name_extend.
  - intros (x & n & Hm & ->). exists (extend (path_key name) x, n). split.
    + unfold entry_of. simpl. by rewrite child_name_extend.
    + apply elem_of_map_to_list. by rewrite children_lookup_extend.
Qed.

(** ** [Versions] *)

Lemma entry_version_Some e v :
  entry_version e = Some v
  ↔ IsDir e = false ∧ HasSuffix (Name e) ".meta" = false ∧ ParseInt (Name e) = Some v.
Proof.
  unfold entry_version. destruct (IsDir e); [by split; [|intros (? & _)]|].
  destruct (HasSuffix (Name e) ".meta"); [by split; [|intros (_ & ? & _)]|].
  by split; [|intros (_ & _ & ?)].
Qed.

Lemma versions_of_entries fs k (es : list DirEntry) :
  (∀ e, e ∈ es ↔ ∃ x n, nodes fs !! extend k x = Some n
                         ∧ e = {| Name := x; IsDir := is_dir n |}) →
  ∀ v, v ∈ omap entry_version es ↔ has_version fs k v.
Proof.
  intros Hes v. rewrite list_elem_of_omap. split.
  - intros (e & He & Hv). apply Hes in He as (x & n & Hm & ->).
    apply entry_version_Some in Hv as (Hd & Hs & Hp). simpl in *.
    destruct n; [|done]. by exists x, data.
  - intros (x & data & Hm & Hs & Hp).
    exists {| Name := x; IsDir := false |}. split.
    + apply Hes. by exists x, (File data).
    + by apply entry_version_Some.
Qed.

Lemma Z_le_sorted l : StronglySorted Z.le (merge_sort Z.le l).
Proof. apply StronglySorted_merge_sort; apply _. Qed.

(** What a successful [Versions] returns. *)
Lemma Versions_inr s req fs resp :
  Versions s req fs = inr resp →
  resolve fs (ver_dir s req) = Found Directory
  ∧ Versions_ resp ≠ []
  ∧ StronglySorted Z.le (Versions_ resp)
  ∧ ∀ v, v ∈ Versions_ resp ↔ has_version fs (ver_dir s req) v.
Proof.
  unfold Versions. destruct (negb _); [done|].
  destruct (os_ReadDir _ fs) as [e|es] eqn:Hrd; [by destruct (os_IsNotExist e)|].
  apply os_ReadDir_entries in Hrd as [Hr Hes].
  destruct (length (omap entry_version es) =? 0)%nat eqn:Hlen; [done|].
  intros [= <-]. simpl. split; [done|]. split; [|split].
  - intros E. apply Nat.eqb_neq in Hlen. apply Hlen.
    by rewrite <- (merge_sort_Permutation Z.le), E.
  - apply Z_le_sorted.
  - intros v. rewrite merge_sort_Permutation. by apply versions_of_entries.
Qed.

(** [Versions] on an existing directory that can be read. *)
Lemma Versions_Found s req fs :
  VersionsRequest_Validate req = true →
  fails fs SysReadDir (ver_dir s req) = false →
  resolve fs (ver_dir s req) = Found Directory →
  ∃ l, (∀ v, v ∈ l ↔ has_version fs (ver_dir s req) v)
       ∧ StronglySorted Z.le l
       ∧ Versions s req fs = match l with
                             | [] => inl NotFoundError
                             | _ => inr {| Versions_ := l |}
                             end.
Proof.
  intros Hv Hf Hr. unfold Versions. rewrite Hv. simpl.
  unfold os_ReadDir. fold (artifact_dir s (ver_AppName req) (ver_UserID req)
    (ver_SessionID req) (ver_FileName req)). fold (ver_dir s req).
  rewrite Hf, Hr.
  set (es := merge_sort entry_le _).
  assert (os_ReadDir (buildDir s (ver_AppName req) (ver_UserID req)
            (ver_SessionID req) (ver_FileName req)) fs = inr es) as Hrd.
  { unfold os_ReadDir. fold (artifact_dir s (ver_AppName req) (ver_UserID req)
      (ver_SessionID req) (ver_FileName req)). fold (ver_dir s req).
    by rewrite Hf, Hr. }
  apply os_ReadDir_entries in Hrd as [_ Hes].
  exists (merge_sort Z.le (omap entry_version es)). split; [|split].
  - intros v. rewrite merge_sort_Permutation. by apply versions_of_entries.
  - apply Z_le_sorted.
  - destruct (omap entry_version es) as [|v l] eqn:E; [done|].
    simpl length. cbn [Nat.eqb].
    destruct (merge_sort Z.le (v :: l)) eqn:E'; [|done].
    pose proof (merge_sort_Permutation Z.le (v :: l)) as HP.
    rewrite E' in HP. by apply Permutation_nil_cons in HP.
Qed.

Lemma Versions_NoEnt s req fs :
  VersionsRequest_Validate req = true →
  fails fs SysReadDir (ver_dir s req) = false →
  resolve fs (ver_dir s req) = NoEnt →
  Versions s req fs = inl NotFoundError.
Proof.
  intros Hv Hf Hr. unfold Versions. rewrite Hv. simpl.
  unfold os_ReadDir. fold (artifact_dir s (ver_AppName req) (ver_UserID req)
    (ver_SessionID req) (ver_FileName req)). fold (ver_dir s req).
  by rewrite Hf, Hr.
Qed.

(** ** [slices.Max] and the 64-bit successor *)

Lemma fold_max_spec r x :
  (fold_left Z.max r x = x ∨ fold_left Z.max r x ∈ r)
  ∧ x ≤ fold_left Z.max r x
  ∧ ∀ y, y ∈ r → y ≤ fold_left Z.max r x.
Proof.
  revert x. induction r as [|z r IH]; intros x; simpl.
  { split; [by left|]. split; [lia|]. by intros y Hy%elem_of_nil. }
  destruct (IH (Z.max x z)) as (Hin & Hle & Hall). split; [|split].
  - destruct Hin as [E|Hin].
    + rewrite E. destruct (Z.max_spec x z) as [[_ ->]|[_ ->]].
      * right. by left.
      * by left.
    + right. by right.
  - lia.
  - intros y [->|Hy]%elem_of_cons; [lia|by apply Hall].
Qed.

Lemma slices_Max_elem l : l ≠ [] → slices_Max l ∈ l.
Proof.
  destruct l as [|x r]; [done|]. intros _. simpl.
  destruct (fold_max_spec r x) as ([->|H] & _ & _); [by left|by right].
Qed.

Lemma slices_Max_upper l y : y ∈ l → y ≤ slices_Max l.
Proof.
  destruct l as [|x r]; [by intros ?%elem_of_nil|]. simpl.
  destruct (fold_max_spec r x) as (_ & Hx & Hall).
  intros [->|Hy]%elem_of_cons; [done|by apply Hall].
Qed.

Lemma slices_Max_unique l m :
  m ∈ l → (∀ y, y ∈ l → y ≤ m) → slices_Max l = m.
Proof.
  intros Hm Hall. assert (l ≠ []) as Hne by (by destruct l; [apply elem_of_nil in Hm|]).
  pose proof (slices_Max_elem l Hne) as H1. pose proof (slices_Max_upper l m Hm) as H2.
  apply Hall in H1. lia.
Qed.

Lemma wrap64_small z : is_int64 z = true → wrap64 z = z.
Proof.
  intros [H1 H2]%is_int64_spec. unfold wrap64, MinInt64, MaxInt64 in *.
  rewrite Z.mod_small; lia.
Qed.

Lemma wrap64_int64 z : is_int64 (wrap64 z) = true.
Proof.
  apply is_int64_spec. unfold wrap64, MinInt64, MaxInt64.
  pose proof (Z.mod_pos_bound (z + 2 ^ 63) (2 ^ 64)). lia.
Qed.

Lemma wrap64_succ_zero m : is_int64 m = true → wrap64 (m + 1) = 0 → m = -1.
Proof.
  intros [H1 H2]%is_int64_spec. unfold MinInt64, MaxInt64 in *.
  destruct (decide (m = 2 ^ 63 - 1)) as [->|Hne]; [by vm_compute|].
  rewrite wrap64_small; [lia|]. apply is_int64_spec. unfold MinInt64, MaxInt64. lia.
Qed.

Lemma has_version_int64 fs k v : has_version fs k v → is_int64 v = true.
Proof.
  intros (name & data & _ & _ & Hp). unfold ParseInt in Hp.
  destruct name as [|c r]; [done|].
  destruct (if Ascii.eqb c "+" then _ else _) as [neg body].
  destruct body; [done|].
  destruct (NilEmpty.uint_of_string _); [|done].
  destruct (is_int64 _) eqn:E; [|done]. by injection Hp as <-.
Qed.

(** ** The container of an artifact *)

Lemma resolve_dir_free fs k :
  dir_free fs k → resolve fs k = Found Directory ∨ resolve fs k = NoEnt.
Proof.
  destruct k as [r L]. unfold dir_free. simpl.
  induction L as [|x L IH] using rev_ind; intros Hfree; [by left|].
  change (r, L ++ [x]) with (extend (r, L) x). rewrite resolve_extend.
  assert (∀ P data, P `prefix_of` L → nodes fs !! (r, P) ≠ Some (File data)) as HL.
  { intros P data HP. apply Hfree. by apply prefix_app_r. }
  destruct (IH HL) as [->| ->]; [|by right].
  change (extend (r, L) x) with (r, L ++ [x]).
  destruct (nodes fs !! _) as [[data|]|] eqn:E.
  - by apply Hfree in E.
  - by left.
  - by right.
Qed.

Lemma usable_set_child fs k x data :
  usable fs k → usable (set_nodes fs (<[extend k x := File data]> (nodes fs))) k.
Proof.
  intros (Hq & Hfree & Hfiles). split; [done|]. split.
  - intros P d HP. simpl. rewrite lookup_insert_ne; [by apply Hfree|].
    intros E. by apply (extend_not_prefix k x P).
  - intros y. simpl. destruct (decide (x = y)) as [->|Hne].
    + by rewrite lookup_insert_eq.
    + rewrite lookup_insert_ne; [apply Hfiles|]. by intros ?%extend_inj.
Qed.

(** ** [Save] *)

(** On a usable container [Save] succeeds, returns [nextVersion] and leaves
    the payload and its sidecar as two files of the container. *)
Lemma Save_ok s req part fs :
  SaveRequest_Validate req = true →
  save_Part req = Some part →
  usable fs (save_dir s req) →
  ∃ fs',
    Save s req fs = (inr {| Version := nextVersion s req fs |}, fs')
    ∧ usable fs' (save_dir s req)
    ∧ resolve fs' (save_dir s req) = Found Directory
    ∧ nodes fs' !! extend (save_dir s req) (Sprintf_d (nextVersion s req fs))
      = Some (File (stored_bytes part))
    ∧ nodes fs' !! extend (save_dir s req)
                     (Sprintf_d (nextVersion s req fs) +:+ ".meta")
      = Some (File (list_byte_of_string (stored_type part)))
    ∧ ∀ x, x ≠ Sprintf_d (nextVersion s req fs) →
           x ≠ Sprintf_d (nextVersion s req fs) +:+ ".meta" →
           nodes fs' !! extend (save_dir s req) x
           = nodes fs !! extend (save_dir s req) x.
Proof.
  intros Hv Hp (Hq & Hfree & Hfiles).
  set (D := save_dir s req) in *. set (v := nextVersion s req fs).
  unfold Save. rewrite Hv, Hp. cbn [negb]. unfold bind at 1, reading at 1.
  fold v. unfold bind at 1. unfold check at 1.
  destruct (os_MkdirAll_ok fs (filepath_Dir (buildPath s (save_AppName req)
              (save_UserID req) (save_SessionID req) (save_FileName req) v)))
    as (fs1 & -> & Hf1 & Hr1 & Hc1 & Hfree1).
  { done. } { by rewrite buildPath_Dir_key. }
  rewrite buildPath_Dir_key in Hr1, Hc1, Hfree1.
  fold (save_dir s req) in Hr1, Hc1, Hfree1. fold D in Hr1, Hc1, Hfree1.
  assert (quiet fs1) as Hq1 by (intros c k; by rewrite Hf1).
  assert ((match InlineData part with
           | Some inline => (Data inline, MIMEType inline)
           | None => (list_byte_of_string (Text part), "text/plain")
           end) = (stored_bytes part, stored_type part)) as ->.
  { unfold stored_bytes, stored_type. by destruct (InlineData part). }
  unfold bind at 1. unfold check at 1.
  rewrite (os_WriteFile_child fs1 _ _ D (Sprintf_d v)); cycle 1.
  { apply buildPath_key. } { apply Hq1. } { done. }
  { rewrite Hc1. apply Hfiles. }
  set (fs2 := set_nodes fs1 _).
  unfold bind at 1.
  rewrite (os_WriteFile_child fs2 _ _ D (Sprintf_d v +:+ ".meta")); cycle 1.
  { apply buildPath_meta_key. } { apply Hq1. }
  { unfold fs2. by rewrite resolve_insert_child. }
  { unfold fs2. simpl. rewrite lookup_insert_ne.
    - rewrite Hc1. apply Hfiles.
    - intros E%extend_inj. symmetry in E. by apply meta_name_ne in E. }
  set (fs3 := set_nodes fs2 _). unfold ret.
  exists fs3. split; [done|].
  assert (usable fs1 D) as Hu1.
  { split; [done|]. split; [done|]. intros x. rewrite Hc1. apply Hfiles. }
  split; [by apply usable_set_child, usable_set_child|].
  split; [unfold fs3, fs2; by rewrite !resolve_insert_child|].
  split; [|split].
  - unfold fs3, fs2. simpl. rewrite lookup_insert_ne.
    + by rewrite lookup_insert_eq.
    + intros E%extend_inj. by apply meta_name_ne in E.
  - unfold fs3. simpl. by rewrite lookup_insert_eq.
  - intros x Hx1 Hx2. unfold fs3, fs2. simpl.
    rewrite !lookup_insert_ne; [apply Hc1|..]; by intros ?%extend_inj.
Qed.

(** ** The versions of a container after a write *)

Lemma has_version_written fs fs' k v data md :
  is_int64 v = true →
  nodes fs' !! extend k (Sprintf_d v) = Some (File data) →
  nodes fs' !! extend k (Sprintf_d v +:+ ".meta") = Some (File md) →
  (∀ x, x ≠ Sprintf_d v → x ≠ Sprintf_d v +:+ ".meta" →
        nodes fs' !! extend k x = nodes fs !! extend k x) →
  ∀ w, has_version fs' k w ↔ w = v ∨ has_version fs k w.
Proof.
  intros Hv Hd Hm Hother w. split.
  - intros (name & d & Hn & Hs & Hp).
    destruct (decide (name = Sprintf_d v)) as [->|Hne1].
    { left. rewrite ParseInt_Sprintf_d in Hp by done. congruence. }
    destruct (decide (name = Sprintf_d v +:+ ".meta")) as [->|Hne2].
    { by rewrite ParseInt_meta_None in Hp. }
    right. exists name, d. by rewrite <- Hother.
  - intros [->|(name & d & Hn & Hs & Hp)].
    { exists (Sprintf_d v), data. split; [done|]. split.
      - apply Sprintf_d_not_meta.
      - by apply ParseInt_Sprintf_d. }
    destruct (decide (name = Sprintf_d v)) as [->|Hne1].
    { exists (Sprintf_d v), data. by rewrite Hd. }
    destruct (decide (name = Sprintf_d v +:+ ".meta")) as [->|Hne2].
    { by rewrite ParseInt_meta_None in Hp. }
    exists name, d. by rewrite Hother.
Qed.

(** ** The version [Save] assigns *)

Lemma save_versions_valid req :
  SaveRequest_Validate req = true →
  VersionsRequest_Validate
    {| ver_AppName := save_AppName req; ver_UserID := save_UserID req;
       ver_SessionID := save_SessionID req; ver_FileName := save_FileName req |}
  = true.
Proof.
  unfold SaveRequest_Validate, VersionsRequest_Validate. simpl.
  by intros [? _]%andb_true_iff.
Qed.

Lemma nextVersion_explicit s req fs :
  0 < save_Version req → nextVersion s req fs = save_Version req.
Proof. intros H%Z.ltb_lt. unfold nextVersion. by rewrite H. Qed.

Lemma nextVersion_int64 s req fs :
  is_int64 (save_Version req) = true → is_int64 (nextVersion s req fs) = true.
Proof.
  intros H. unfold nextVersion. destruct (0 <? save_Version req); [done|].
  destruct (Versions _ _ _) as [|resp]; [done|].
  destruct (0 <? length _)%nat; [apply wrap64_int64|done].
Qed.

Lemma nextVersion_fresh s req fs :
  save_Version req ≤ 0 →
  (∀ w, ¬ has_version fs (save_dir s req) w) →
  nextVersion s req fs = 1.
Proof.
  intros Hle Hnone. unfold nextVersion.
  destruct (0 <? save_Version req) eqn:E; [apply Z.ltb_lt in E; lia|].
  destruct (Versions _ _ _) as [|resp] eqn:Hvs; [done|].
  apply Versions_inr in Hvs as (_ & Hne & _ & Hel).
  destruct (Versions_ resp) as [|w l]; [done|].
  exfalso. apply (Hnone w), Hel. by left.
Qed.

Lemma nextVersion_max s req fs M :
  SaveRequest_Validate req = true →
  save_Version req ≤ 0 →
  fails fs SysReadDir (save_dir s req) = false →
  resolve fs (save_dir s req) = Found Directory →
  has_version fs (save_dir s req) M →
  (∀ w, has_version fs (save_dir s req) w → w ≤ M) →
  nextVersion s req fs = wrap64 (M + 1).
Proof.
  intros Hv Hle Hf Hr HM Hmax. unfold nextVersion.
  destruct (0 <? save_Version req) eqn:E; [apply Z.ltb_lt in E; lia|].
  destruct (Versions_Found s _ fs (save_versions_valid _ Hv) Hf Hr)
    as (l & Hel & _ & ->).
  assert (M ∈ l) as HMl by (by apply Hel).
  destruct l as [|x l]; [by apply elem_of_nil in HMl|].
  cbn [Versions_ length Nat.ltb Nat.leb].
  rewrite (slices_Max_unique _ M); [done|done|].
  intros y Hy. by apply Hmax, Hel.
Qed.

(** ** [Load], once the version to read is known *)

Lemma Load_resolved s req fs v :
  LoadRequest_Validate req = true →
  loadVersion s req fs = inr v →
  Load s req fs
  = match os_ReadFile (buildPath s (load_AppName req) (load_UserID req)
                         (load_SessionID req) (load_FileName req) v) fs with
    | inl err =>
        if os_IsNotExist err then inl NotFoundError
        else inl (StorageIOError "could not read file")
    | inr data =>
        inr {| LoadedPart :=
                 NewPartFromBytes data
                   match os_ReadFile
                           (buildPath s (load_AppName req) (load_UserID req)
                              (load_SessionID req) (load_FileName req) v
                            +:+ ".meta") fs with
                   | inr metaData => string_of_list_byte metaData
                   | inl _ => "text/plain"
                   end |}
    end.
Proof. intros Hv H. unfold Load. by rewrite Hv, H. Qed.

(** Reading a version that is stored with its sidecar. *)
Lemma Load_stored s req fs v data md :
  LoadRequest_Validate req = true →
  loadVersion s req fs = inr v →
  quiet fs →
  resolve fs (load_dir s req) = Found Directory →
  nodes fs !! extend (load_dir s req) (Sprintf_d v) = Some (File data) →
  nodes fs !! extend (load_dir s req) (Sprintf_d v +:+ ".meta") = Some (File md) →
  Load s req fs
  = inr {| LoadedPart := NewPartFromBytes data (string_of_list_byte md) |}.
Proof.
  intros Hv Hres Hq Hr Hd Hm. rewrite (Load_resolved s req fs v) by done.
  rewrite (os_ReadFile_child fs _ (load_dir s req) (Sprintf_d v));
    [|apply buildPath_key|apply Hq|done].
  rewrite Hd.
  rewrite (os_ReadFile_child fs _ (load_dir s req) (Sprintf_d v +:+ ".meta"));
    [|apply buildPath_meta_key|apply Hq|done].
  by rewrite Hm.
Qed.

(** ** Save, then load what was saved *)

Lemma nextVersion_zero s req fs :
  nextVersion s req fs = 0 →
  ∀ w, has_version fs (save_dir s req) w → w ≤ -1.
Proof.
  unfold nextVersion.
  destruct (0 <? save_Version req) eqn:E; [apply Z.ltb_lt in E; lia|].
  destruct (Versions _ _ _) as [|resp] eqn:Hvs; [done|].
  apply Versions_inr in Hvs as (_ & Hne & _ & Hel).
  destruct (0 <? length _)%nat; [|done].
  intros H0 w Hw.
  pose proof (slices_Max_elem _ Hne) as Hmax.
  apply Hel, has_version_int64 in Hmax.
  apply wrap64_succ_zero in H0; [|done].
  apply Hel, slices_Max_upper in Hw. fold (save_dir s req) in Hw. lia.
Qed.

Lemma fs_save_load s req part fs :
  SaveRequest_Validate req = true →
  save_Part req = Some part →
  usable fs (save_dir s req) →
  ∃ resp fs',
    Save s req fs = (inr resp, fs')
    ∧ Load s {| load_AppName := save_AppName req; load_UserID := save_UserID req;
                load_SessionID := save_SessionID req;
                load_FileName := save_FileName req;
                load_Version := Version resp |} fs'
      = inr {| LoadedPart := NewPartFromBytes (stored_bytes part) (stored_type part) |}.
Proof.
  intros Hv Hp Hu.
  destruct (Save_ok s req part fs Hv Hp Hu) as (fs' & HS & Hu' & Hr' & Hd & Hm & Hother).
  exists {| Version := nextVersion s req fs |}, fs'. split; [done|].
  set (v := nextVersion s req fs) in *.
  rewrite <- (string_of_list_byte_of_string (stored_type part)).
  assert (LoadRequest_Validate
            {| load_AppName := save_AppName req; load_UserID := save_UserID req;
               load_SessionID := save_SessionID req;
               load_FileName := save_FileName req; load_Version := v |} = true) as Hlv.
  { revert Hv. unfold SaveRequest_Validate, LoadRequest_Validate. simpl.
    by intros [? _]%andb_true_iff. }
  apply (Load_stored s _ fs' v); try done; [|apply Hu'].
  unfold loadVersion. cbn [load_Version load_AppName load_UserID load_SessionID
    load_FileName Version].
  destruct (Z.eqb_spec v 0) as [Hz|Hnz]; [|done].
  destruct (Versions_Found s {| ver_AppName := save_AppName req;
              ver_UserID := save_UserID req; ver_SessionID := save_SessionID req;
              ver_FileName := save_FileName req |} fs')
    as (l & Hel & _ & HV).
  { by apply save_versions_valid. } { apply Hu'. } { done. }
  assert (∀ w, has_version fs' (save_dir s req) w
               ↔ w = v ∨ has_version fs (save_dir s req) w) as Hhv.
  { eapply has_version_written; [|done..]. by rewrite Hz. }
  assert (v ∈ l) as Hvl by (apply Hel, Hhv; by left).
  destruct l as [|x l]; [by apply elem_of_nil in Hvl|].
  rewrite HV. f_equal. cbn [Versions_].
  apply slices_Max_unique; [done|].
  intros y [->|Hy]%Hel%Hhv; [done|].
  apply (nextVersion_zero s req fs Hz) in Hy. lia.
Qed.

(** ** Saving several times in a row *)

Lemma valid_identity_save a u ss f p v :
  valid_identity a u ss f = true →
  SaveRequest_Validate
    {| save_AppName := a; save_UserID := u; save_SessionID := ss;
       save_FileName := f; save_Part := Some p; save_Version := v |} = true.
Proof. unfold valid_identity, SaveRequest_Validate. simpl. by intros ->. Qed.

Lemma fs_save_each_from s a u ss f parts :
  valid_identity a u ss f = true →
  ∀ k fs,
    0 ≤ k → k + Z.of_nat (length parts) ≤ MaxInt64 →
    usable fs (artifact_dir s a u ss f) →
    (∀ w, has_version fs (artifact_dir s a u ss f) w ↔ 1 ≤ w ≤ k) →
    (1 ≤ k → resolve fs (artifact_dir s a u ss f) = Found Directory) →
    (save_each s a u ss f parts fs).1 = seqZ (k + 1) (Z.of_nat (length parts)).
Proof.
  intros Hid. induction parts as [|p parts IH]; intros k fs Hk Hbound Hu Hhv Hr.
  { done. }
  cbn [save_each length] in *. rewrite Nat2Z.inj_succ in *.
  set (req := {| save_AppName := a; save_UserID := u; save_SessionID := ss;
                 save_FileName := f; save_Part := Some p; save_Version := 0 |}).
  pose proof (valid_identity_save a u ss f p 0 Hid) as Hv. fold req in Hv.
  destruct (Save_ok s req p fs Hv eq_refl Hu)
    as (fs' & HS & Hu' & Hr' & Hd & Hm & Hother).
  assert (nextVersion s req fs = k + 1) as Hnext.
  { destruct (decide (k = 0)) as [->|Hk0].
    - apply nextVersion_fresh; [done|]. intros w Hw%Hhv. lia.
    - rewrite (nextVersion_max s req fs k); try done.
      + apply wrap64_small, is_int64_spec. unfold MinInt64, MaxInt64 in *. lia.
      + apply Hu.
      + apply Hr. lia.
      + apply Hhv. lia.
      + intros w Hw%Hhv. lia. }
  rewrite HS, Hnext in *.
  specialize (IH (k + 1) fs').
  destruct (save_each s a u ss f parts fs') as [vs fs''].
  cbn [fst Version] in *. rewrite IH; try done; try lia.
  - rewrite (seqZ_cons (k + 1)) by lia. f_equal. f_equal; lia.
  - intros w.
    rewrite (has_version_written fs fs' (artifact_dir s a u ss f) (k + 1)); try done.
    + rewrite Hhv. lia.
    + apply is_int64_spec. unfold MinInt64, MaxInt64 in *. lia.
Qed.

Lemma fs_save_each_fresh s a u ss f parts fs :
  valid_identity a u ss f = true →
  Z.of_nat (length parts) ≤ MaxInt64 →
  usable fs (artifact_dir s a u ss f) →
  (∀ w, ¬ has_version fs (artifact_dir s a u ss f) w) →
  (save_each s a u ss f parts fs).1 = seqZ 1 (Z.of_nat (length parts)).
Proof.
  intros Hid Hlen Hu Hnone.
  apply (fs_save_each_from s a u ss f parts Hid 0 fs); try done; try lia.
  intros w. split; [by intros ?%Hnone|lia].
Qed.

(** ** [os.Remove] and [os.RemoveAll] *)

Lemma os_Remove_child fs name k x :
  path_key name = extend k x →
  fails fs SysRemove (extend k x) = false →
  resolve fs k = Found Directory →
  nodes fs !! extend k x ≠ Some Directory →
  ∃ e fs',
    os_Remove name fs = (e, fs')
    ∧ (e = None ∨ e = Some ENOENT)
    ∧ fails fs' = fails fs
    ∧ resolve fs' k = Found Directory
    ∧ nodes fs' !! extend k x = None
    ∧ ∀ y, y ≠ x → nodes fs' !! extend k y = nodes fs !! extend k y.
Proof.
  intros Hk Hf Hr Hn. unfold os_Remove. rewrite Hk, Hf.
  pose proof (extend_ne_nil k x) as Hne.
  destruct (extend k x).2 eqn:E; [done|]. rewrite resolve_extend, Hr.
  destruct (nodes fs !! extend k x) as [[data|]|] eqn:El; [|done|].
  - eexists _, _. split; [done|]. split; [by left|]. split; [done|].
    split; [by rewrite resolve_delete_child|]. split.
    + simpl. apply lookup_delete_eq.
    + intros y Hy. simpl. apply lookup_delete_ne. by intros ?%extend_inj.
  - eexists _, _. split; [done|]. split; [by right|]. by repeat split.
Qed.

Lemma os_Remove_missing fs name :
  fails fs SysRemove (path_key name) = false →
  resolve fs (path_key name) = NoEnt →
  os_Remove name fs = (Some ENOENT, fs).
Proof.
  intros Hf Hr. unfold os_Remove. rewrite Hf.
  destruct (path_key name) as [r [|x L]] eqn:E; [done|]. simpl.
  by rewrite Hr.
Qed.

Lemma resolve_extend_Found fs k x n :
  resolve fs (extend k x) = Found n → resolve fs k = Found Directory.
Proof.
  rewrite resolve_extend. by destruct (resolve fs k) as [[]| |].
Qed.

Lemma os_RemoveAll_dir fs name k x :
  path_key name = extend k x →
  fails fs SysRemoveAll (extend k x) = false →
  dir_free fs (extend k x) →
  ∃ fs', os_RemoveAll name fs = (None, fs')
         ∧ fails fs' = fails fs
         ∧ resolve fs' (extend k x) = NoEnt.
Proof.
  intros Hk Hf Hfree. unfold os_RemoveAll. rewrite Hk, Hf.
  pose proof (extend_ne_nil k x) as Hne.
  destruct (extend k x).2 eqn:E; [done|]. clear E.
  destruct (resolve_dir_free _ _ Hfree) as [Hr|Hr]; rewrite Hr.
  - eexists. split; [done|]. split; [done|].
    rewrite resolve_extend.
    erewrite resolve_ext; [rewrite (resolve_extend_Found _ _ _ _ Hr)|].
    + simpl. replace (filter _ (nodes fs) !! extend k x) with (@None node); [done|].
      symmetry. apply map_lookup_filter_None. right. intros n _ Hnot.
      apply Hnot. by split.
    + intros P HP. simpl.
      destruct (nodes fs !! (k.1, P)) as [n|] eqn:El.
      * apply map_lookup_filter_Some. split; [done|]. simpl.
        intros [_ Hpre]. simpl in Hpre.
        apply prefix_length in Hpre, HP. rewrite length_app in Hpre.
        simpl in Hpre. lia.
      * apply map_lookup_filter_None. by left.
  - by exists fs.
Qed.

Lemma artifact_dir_extend s a u ss f :
  plain_elem f = true → ∃ k, artifact_dir s a u ss f = extend k f.
Proof.
  intros Hf. unfold artifact_dir, buildDir.
  destruct (fileHasUserNamespace f); eexists;
    by apply (path_key_Join_snoc [_; _; _; _]).
Qed.

(** ** [Delete] *)

(** Deleting one version of a container whose directory exists. *)
Lemma fs_delete_version s req fs :
  DeleteRequest_Validate req = true →
  del_Version req ≠ 0 →
  usable fs (del_dir s req) →
  resolve fs (del_dir s req) = Found Directory →
  ∃ fs',
    Delete s req fs = (None, fs')
    ∧ fails fs' = fails fs
    ∧ resolve fs' (del_dir s req) = Found Directory
    ∧ nodes fs' !! extend (del_dir s req) (Sprintf_d (del_Version req)) = None
    ∧ ∀ y, y ≠ Sprintf_d (del_Version req) →
           y ≠ Sprintf_d (del_Version req) +:+ ".meta" →
           nodes fs' !! extend (del_dir s req) y
           = nodes fs !! extend (del_dir s req) y.
Proof.
  intros Hv Hne (Hq & Hfree & Hfiles) Hr. unfold Delete. rewrite Hv. cbn [negb].
  apply Z.eqb_neq in Hne. rewrite Hne. cbn [negb].
  destruct (os_Remove_child fs (buildPath s (del_AppName req) (del_UserID req)
              (del_SessionID req) (del_FileName req) (del_Version req))
              (del_dir s req) (Sprintf_d (del_Version req)))
    as (e1 & fs1 & -> & He1 & Hf1 & Hr1 & Hn1 & Ho1).
  { apply buildPath_key. } { apply Hq. } { done. } { apply Hfiles. }
  destruct (os_Remove_child fs1 (buildPath s (del_AppName req) (del_UserID req)
              (del_SessionID req) (del_FileName req) (del_Version req) +:+ ".meta")
              (del_dir s req) (Sprintf_d (del_Version req) +:+ ".meta"))
    as (e2 & fs2 & -> & He2 & Hf2 & Hr2 & Hn2 & Ho2).
  { apply buildPath_meta_key. } { rewrite Hf1. apply Hq. } { done. }
  { rewrite Ho1; [apply Hfiles|]. apply meta_name_ne. }
  exists fs2. split; [by destruct He1 as [-> | ->]|].
  split; [by rewrite Hf2|]. split; [done|]. split.
  - rewrite Ho2; [done|]. intros E. symmetry in E. by apply meta_name_ne in E.
  - intros y Hy1 Hy2. by rewrite Ho2, Ho1.
Qed.

Lemma has_version_deleted fs fs' k v :
  is_int64 v = true →
  canonical fs k →
  nodes fs' !! extend k (Sprintf_d v) = None →
  (∀ y, y ≠ Sprintf_d v → y ≠ Sprintf_d v +:+ ".meta" →
        nodes fs' !! extend k y = nodes fs !! extend k y) →
  ∀ w, has_version fs' k w ↔ has_version fs k w ∧ w ≠ v.
Proof.
  intros Hv Hcan Hgone Hother w. split.
  - intros (name & d & Hn & Hs & Hp).
    destruct (decide (name = Sprintf_d v)) as [->|Hne1]; [congruence|].
    destruct (decide (name = Sprintf_d v +:+ ".meta")) as [->|Hne2].
    { by rewrite ParseInt_meta_None in Hp. }
    rewrite Hother in Hn by done. split; [by exists name, d|].
    intros ->. by apply Hne1, (Hcan name d).
  - intros [(name & d & Hn & Hs & Hp) Hw].
    destruct (decide (name = Sprintf_d v)) as [->|Hne1].
    { rewrite ParseInt_Sprintf_d in Hp by done. congruence. }
    destruct (decide (name = Sprintf_d v +:+ ".meta")) as [->|Hne2].
    { by rewrite ParseInt_meta_None in Hp. }
    exists name, d. by rewrite Hother.
Qed.

(** After [Delete] of version [V], [Versions] lists what it listed before,
    without [V]; it reports not-found when nothing is left. *)
Lemma fs_delete_then_versions s a u ss f V fs S :
  valid_identity a u ss f = true →
  is_int64 V = true → V ≠ 0 →
  usable fs (artifact_dir s a u ss f) →
  canonical fs (artifact_dir s a u ss f) →
  Versions s {| ver_AppName := a; ver_UserID := u; ver_SessionID := ss;
                ver_FileName := f |} fs = inr {| Versions_ := S |} →
  ∃ fs',
    Delete s {| del_AppName := a; del_UserID := u; del_SessionID := ss;
                del_FileName := f; del_Version := V |} fs = (None, fs')
    ∧ match Versions s {| ver_AppName := a; ver_UserID := u; ver_SessionID := ss;
                          ver_FileName := f |} fs' with
      | inr resp => ∀ w, w ∈ Versions_ resp ↔ w ∈ S ∧ w ≠ V
      | inl e => e = NotFoundError ∧ ∀ w, w ∈ S → w = V
      end.
Proof.
  intros Hid HV HV0 Hu Hcan HS.
  apply Versions_inr in HS as (Hr & _ & _ & Hel). cbn [Versions_] in Hel.
  change (ver_dir s _) with (artifact_dir s a u ss f) in *.
  set (req := {| del_AppName := a; del_UserID := u; del_SessionID := ss;
                 del_FileName := f; del_Version := V |}).
  destruct (fs_delete_version s req fs) as (fs' & HD & Hf' & Hr' & Hgone & Hother);
    try done.
  exists fs'. split; [done|].
  pose proof (has_version_deleted fs fs' _ V HV Hcan Hgone Hother) as Hhv.
  destruct (Versions_Found s {| ver_AppName := a; ver_UserID := u;
              ver_SessionID := ss; ver_FileName := f |} fs')
    as (l & Hel' & _ & ->); try done.
  { rewrite Hf'. apply Hu. }
  destruct l as [|x l].
  - split; [done|]. intros w Hw. destruct (decide (w = V)) as [|Hne]; [done|].
    exfalso. apply (elem_of_nil w), Hel', Hhv. split; [by apply Hel|done].
  - intros w. cbn [Versions_]. by rewrite Hel', Hhv, Hel.
Qed.

(** After [Delete] of the whole artifact, [Versions] and [Load] report
    not-found. *)
Lemma fs_delete_all s a u ss f fs :
  valid_identity a u ss f = true →
  plain_elem f = true →
  quiet fs → dir_free fs (artifact_dir s a u ss f) →
  ∃ fs',
    Delete s {| del_AppName := a; del_UserID := u; del_SessionID := ss;
                del_FileName := f; del_Version := 0 |} fs = (None, fs')
    ∧ Versions s {| ver_AppName := a; ver_UserID := u; ver_SessionID := ss;
                    ver_FileName := f |} fs' = inl NotFoundError
    ∧ ∀ v, Load s {| load_AppName := a; load_UserID := u; load_SessionID := ss;
                     load_FileName := f; load_Version := v |} fs'
           = inl NotFoundError.
Proof.
  intros Hid Hf Hq Hfree.
  destruct (artifact_dir_extend s a u ss f Hf) as [k Hk].
  unfold Delete, DeleteRequest_Validate.
  cbn [del_AppName del_UserID del_SessionID del_FileName del_Version Z.eqb negb].
  fold (valid_identity a u ss f). rewrite Hid. cbn [negb].
  destruct (os_RemoveAll_dir fs (buildDir s a u ss f) k f)
    as (fs' & -> & Hf' & Hr').
  { done. } { apply Hq. } { by rewrite <- Hk. }
  rewrite <- Hk in Hr'.
  assert (Versions s {| ver_AppName := a; ver_UserID := u; ver_SessionID := ss;
                        ver_FileName := f |} fs' = inl NotFoundError) as HV.
  { apply Versions_NoEnt; [done| |done]. rewrite Hf'. apply Hq. }
  exists fs'. split; [done|]. split; [done|]. intros v.
  unfold Load, LoadRequest_Validate.
  cbn [load_AppName load_UserID load_SessionID load_FileName load_Version].
  fold (valid_identity a u ss f). rewrite Hid. cbn [negb].
  unfold loadVersion.
  cbn [load_AppName load_UserID load_SessionID load_FileName load_Version].
  destruct (v =? 0); [by rewrite HV|].
  unfold os_ReadFile. rewrite buildPath_key, Hf', Hq, resolve_extend, Hr'. done.
Qed.

(** ** Deleting what is not there *)

Lemma fs_delete_absent_version s req fs :
  DeleteRequest_Validate req = true →
  del_Version req ≠ 0 →
  fails fs SysRemove
    (path_key (buildPath s (del_AppName req) (del_UserID req) (del_SessionID req)
                 (del_FileName req) (del_Version req))) = false →
  resolve fs
    (path_key (buildPath s (del_AppName req) (del_UserID req) (del_SessionID req)
                 (del_FileName req) (del_Version req))) = NoEnt →
  (Delete s req fs).1 = None.
Proof.
  intros Hv Hne Hf Hr. unfold Delete. rewrite Hv. cbn [negb].
  apply Z.eqb_neq in Hne. rewrite Hne. cbn [negb].
  rewrite os_Remove_missing by done.
  by destruct (os_Remove _ fs) as [e2 fs2].
Qed.

Lemma fs_delete_absent_artifact s req fs :
  DeleteRequest_Validate req = true →
  del_Version req = 0 →
  plain_elem (del_FileName req) = true →
  fails fs SysRemoveAll (del_dir s req) = false →
  resolve fs (del_dir s req) = NoEnt →
  Delete s req fs = (None, fs).
Proof.
  intros Hv H0 Hf Hfl Hr. unfold Delete. rewrite Hv, H0. cbn [negb Z.eqb].
  unfold os_RemoveAll. fold (artifact_dir s (del_AppName req) (del_UserID req)
    (del_SessionID req) (del_FileName req)). fold (del_dir s req).
  rewrite Hfl, Hr.
  destruct (artifact_dir_extend s (del_AppName req) (del_UserID req)
              (del_SessionID req) (del_FileName req) Hf) as [k Hk].
  fold (del_dir s req) in Hk. rewrite Hk.
  pose proof (extend_ne_nil k (del_FileName req)) as Hne.
  by destruct (extend k (del_FileName req)).2.
Qed.

(** ** The sidecar *)

Lemma os_MkdirAll_fails name fs : fails (os_MkdirAll name fs).2 = fails fs.
Proof. unfold os_MkdirAll. by destruct (mkdir_all _ _ _ _ _). Qed.

Lemma os_WriteFile_fails name data fs :
  fails (os_WriteFile name data fs).2 = fails fs.
Proof.
  unfold os_WriteFile. destruct (fails fs SysWriteFile _); [done|].
  destruct (path_key name).2; [done|].
  destruct (resolve fs _) as [[]| |]; try done.
  by destruct (nodes fs !! _) as [[]|].
Qed.

Lemma os_WriteFile_success fs name data fs' k x :
  os_WriteFile name data fs = (None, fs') →
  path_key name = extend k x →
  fs' = set_nodes fs (<[extend k x := File data]> (nodes fs))
  ∧ resolve fs k = Found Directory.
Proof.
  intros H Hk. revert H. unfold os_WriteFile. rewrite Hk.
  destruct (fails fs SysWriteFile _); [done|].
  destruct (extend k x).2 eqn:E; [done|]. rewrite parent_extend.
  destruct (resolve fs k) as [[]| |]; try done.
  destruct (nodes fs !! extend k x) as [[]|]; try done; by intros [= <-].
Qed.

Lemma resolve_file_written fs k x data :
  resolve fs k = Found Directory →
  resolve (set_nodes fs (<[extend k x := File data]> (nodes fs))) (extend k x)
  = Found (File data).
Proof.
  intros Hr. rewrite resolve_extend, resolve_insert_child, Hr. simpl.
  by rewrite lookup_insert_eq.
Qed.

Lemma resolve_sibling_written fs k x y n :
  x ≠ y →
  resolve (set_nodes fs (<[extend k x := n]> (nodes fs))) (extend k y)
  = resolve fs (extend k y).
Proof.
  intros Hne. rewrite !resolve_extend, resolve_insert_child. simpl.
  rewrite lookup_insert_ne; [done|]. by intros ?%extend_inj.
Qed.

(** A successful [Save] leaves the payload and its sidecar behind, both as
    files. *)
Lemma fs_save_success s req fs resp fs' :
  Save s req fs = (inr resp, fs') →
  ∃ part,
    save_Part req = Some part
    ∧ Version resp = nextVersion s req fs
    ∧ resolve fs'
        (path_key (buildPath s (save_AppName req) (save_UserID req)
                     (save_SessionID req) (save_FileName req) (Version resp)))
      = Found (File (stored_bytes part))
    ∧ resolve fs'
        (path_key (buildPath s (save_AppName req) (save_UserID req)
                     (save_SessionID req) (save_FileName req) (Version resp)
                   +:+ ".meta"))
      = Found (File (list_byte_of_string (stored_type part))).
Proof.
  unfold Save. destruct (negb _); [done|].
  destruct (save_Part req) as [part|]; [|done].
  unfold bind at 1, reading at 1. set (v := nextVersion s req fs).
  unfold bind at 1. unfold check at 1.
  destruct (os_MkdirAll _ fs) as [[e1|] fs1]; [done|].
  assert ((match InlineData part with
           | Some inline => (Data inline, MIMEType inline)
           | None => (list_byte_of_string (Text part), "text/plain")
           end) = (stored_bytes part, stored_type part)) as ->.
  { unfold stored_bytes, stored_type. by destruct (InlineData part). }
  unfold bind at 1. unfold check at 1.
  destruct (os_WriteFile _ (stored_bytes part) fs1) as [[e2|] fs2] eqn:W1; [done|].
  unfold bind at 1.
  destruct (os_WriteFile _ (list_byte_of_string _) fs2) as [[e3|] fs3] eqn:W2.
  { by destruct (os_Remove _ fs3). }
  unfold ret. intros [= <- <-]. exists part. split; [done|]. split; [done|].
  cbn [Version].
  destruct (os_WriteFile_success _ _ _ _ _ _ W1 (buildPath_key _ _ _ _ _ _))
    as [-> Hr1].
  destruct (os_WriteFile_success _ _ _ _ _ _ W2 (buildPath_meta_key _ _ _ _ _ _))
    as [-> Hr2].
  rewrite buildPath_key, buildPath_meta_key.
  rewrite resolve_insert_child in Hr2. split.
  - rewrite resolve_sibling_written by apply meta_name_ne.
    by apply resolve_file_written.
  - apply resolve_file_written. by rewrite resolve_insert_child.
Qed.

(** When the write of the sidecar fails, [Save] removes the payload it has
    just written and reports the failure. *)
Lemma fs_save_sidecar_failure s req part fs fs1 fs2 e fs3 :
  SaveRequest_Validate req = true →
  save_Part req = Some part →
  os_MkdirAll
    (filepath_Dir (buildPath s (save_AppName req) (save_UserID req)
                     (save_SessionID req) (save_FileName req)
                     (nextVersion s req fs))) fs = (None, fs1) →
  os_WriteFile (buildPath s (save_AppName req) (save_UserID req)
                  (save_SessionID req) (save_FileName req) (nextVersion s req fs))
    (stored_bytes part) fs1 = (None, fs2) →
  os_WriteFile (buildPath s (save_AppName req) (save_UserID req)
                  (save_SessionID req) (save_FileName req) (nextVersion s req fs)
                +:+ ".meta")
    (list_byte_of_string (stored_type part)) fs2 = (Some e, fs3) →
  ∃ fs',
    Save s req fs = (inl (StorageIOError "failed to write metadata file"), fs')
    ∧ (resolve fs'
         (path_key (buildPath s (save_AppName req) (save_UserID req)
                      (save_SessionID req) (save_FileName req)
                      (nextVersion s req fs))) = NoEnt
       ∨ fails fs SysRemove
           (path_key (buildPath s (save_AppName req) (save_UserID req)
                        (save_SessionID req) (save_FileName req)
                        (nextVersion s req fs))) = true).
Proof.
  intros Hv Hp Hmk W1 W2. unfold Save. rewrite Hv, Hp. cbn [negb].
  unfold bind at 1, reading at 1. set (v := nextVersion s req fs) in *.
  unfold bind at 1. unfold check at 1. rewrite Hmk.
  assert ((match InlineData part with
           | Some inline => (Data inline, MIMEType inline)
           | None => (list_byte_of_string (Text part), "text/plain")
           end) = (stored_bytes part, stored_type part)) as ->.
  { unfold stored_bytes, stored_type. by destruct (InlineData part). }
  unfold bind at 1. unfold check at 1. rewrite W1.
  unfold bind at 1. rewrite W2.
  pose proof (os_WriteFile_failed _ _ _ _ _ W2) as ->.
  assert (fails fs2 = fails fs) as Hf2.
  { pose proof (os_WriteFile_fails (buildPath s (save_AppName req)
      (save_UserID req) (save_SessionID req) (save_FileName req) v)
      (stored_bytes part) fs1) as H1. rewrite W1 in H1. simpl in H1.
    pose proof (os_MkdirAll_fails (filepath_Dir (buildPath s (save_AppName req)
      (save_UserID req) (save_SessionID req) (save_FileName req) v)) fs) as H2.
    rewrite Hmk in H2. simpl in H2. congruence. }
  destruct (os_WriteFile_success _ _ _ _ _ _ W1 (buildPath_key _ _ _ _ _ _))
    as [-> Hr1].
  destruct (os_Remove _ _) as [e4 fs4] eqn:HR. eexists. split; [done|].
  revert HR. unfold os_Remove. rewrite buildPath_key, Hf2.
  set (D := artifact_dir s _ _ _ _) in *.
  destruct (fails fs SysRemove _) eqn:Hfl; [by right|].
  intros HR. left. revert HR.
  pose proof (extend_ne_nil D (Sprintf_d v)) as Hne.
  destruct (extend D (Sprintf_d v)).2 eqn:E; [done|].
  rewrite resolve_file_written by done.
  intros [= _ <-]. rewrite resolve_extend, resolve_delete_child.
  rewrite resolve_insert_child, Hr1. simpl. by rewrite lookup_delete_eq.
Qed.

(** ** [Load] without a sidecar *)

Lemma fs_load_without_sidecar s req fs v data e :
  LoadRequest_Validate req = true →
  loadVersion s req fs = inr v →
  os_ReadFile (buildPath s (load_AppName req) (load_UserID req)
                 (load_SessionID req) (load_FileName req) v) fs = inr data →
  os_ReadFile (buildPath s (load_AppName req) (load_UserID req)
                 (load_SessionID req) (load_FileName req) v +:+ ".meta") fs
  = inl e →
  Load s req fs = inr {| LoadedPart := NewPartFromBytes data "text/plain" |}.
Proof.
  intros Hv Hver Hd Hm. rewrite (Load_resolved s req fs v) by done.
  by rewrite Hd, Hm.
Qed.

(** ** [Save] when the versions cannot be listed *)

Lemma Save_by_nextVersion s req req' fs :
  save_AppName req' = save_AppName req → save_UserID req' = save_UserID req →
  save_SessionID req' = save_SessionID req → save_FileName req' = save_FileName req →
  save_Part req' = save_Part req →
  nextVersion s req' fs = nextVersion s req fs →
  Save s req' fs = Save s req fs.
Proof.
  intros Ha Hu Hs Hf Hp Hn. unfold Save, SaveRequest_Validate.
  rewrite Ha, Hu, Hs, Hf, Hp. destruct (negb _); [done|].
  destruct (save_Part req); [|done].
  unfold bind at 1 3, reading. by rewrite Hn.
Qed.

Lemma fs_save_listing_fails s req fs e :
  save_Version req ≤ 0 →
  Versions s {| ver_AppName := save_AppName req; ver_UserID := save_UserID req;
                ver_SessionID := save_SessionID req;
                ver_FileName := save_FileName req |} fs = inl e →
  nextVersion s req fs = 1 ∧ Save s req fs = Save s (with_version req 1) fs.
Proof.
  intros Hle HV.
  assert (nextVersion s req fs = 1) as Hn.
  { unfold nextVersion. rewrite HV.
    by destruct (0 <? save_Version req) eqn:E; [apply Z.ltb_lt in E; lia|]. }
  split; [done|]. symmetry. by apply Save_by_nextVersion.
Qed.

(** With an explicit version the allocator is not consulted: the version is
    the one given, whatever the container holds. *)
Lemma fs_save_explicit s req part fs :
  SaveRequest_Validate req = true →
  save_Part req = Some part →
  0 < save_Version req →
  usable fs (save_dir s req) →
  ∃ fs', Save s req fs = (inr {| Version := save_Version req |}, fs')
         ∧ nodes fs' !! extend (save_dir s req) (Sprintf_d (save_Version req))
           = Some (File (stored_bytes part)).
Proof.
  intros Hv Hp Hpos Hu.
  destruct (Save_ok s req part fs Hv Hp Hu) as (fs' & HS & _ & _ & Hd & _).
  rewrite nextVersion_explicit in HS, Hd by done. by exists fs'.
Qed.

End FsFacts.

Section S3Facts.
Import S3Artifact.

(** ** The keys of an artifact *)

Lemma buildKey_prefix a u ss f v :
  buildKey a u ss f v = buildKeyPrefix a u ss f +:+ Sprintf_d v.
Proof.
  unfold buildKey, buildKeyPrefix.
  destruct (fileHasUserNamespace f); by rewrite !append_assoc.
Qed.

Lemma buildKeyPrefix_sep a u ss f :
  ∃ X, buildKeyPrefix a u ss f = X +:+ String sep "".
Proof.
  unfold buildKeyPrefix. destruct (fileHasUserNamespace f).
  - exists (a +:+ "/" +:+ u +:+ "/user/" +:+ f). by rewrite !append_assoc.
  - exists (a +:+ "/" +:+ u +:+ "/" +:+ ss +:+ "/" +:+ f). by rewrite !append_assoc.
Qed.

Lemma HasPrefix_append p x : HasPrefix (p +:+ x) p = true.
Proof.
  unfold HasPrefix. induction p as [|c p IH]; [by destruct x|].
  rewrite append_String. simpl. by destruct (ascii_dec c c).
Qed.

Lemma key_version_append X v :
  is_int64 v = true →
  key_version ((X +:+ String sep "") +:+ Sprintf_d v) = Some v.
Proof.
  intros Hv. unfold key_version.
  rewrite append_assoc. change (String sep "" +:+ Sprintf_d v)
    with (String sep (Sprintf_d v)).
  rewrite Split_app_sep, (Split_no_sep (Sprintf_d v)).
  - rewrite last_last. by apply ParseInt_Sprintf_d.
  - apply digits_no_sep, Sprintf_d_chars.
Qed.

Lemma key_version_built a u ss f v :
  is_int64 v = true → key_version (buildKey a u ss f v) = Some v.
Proof.
  intros Hv. rewrite buildKey_prefix.
  destruct (buildKeyPrefix_sep a u ss f) as [X ->]. by apply key_version_append.
Qed.

Lemma HasPrefix_built a u ss f v :
  HasPrefix (buildKey a u ss f v) (buildKeyPrefix a u ss f) = true.
Proof. rewrite buildKey_prefix. apply HasPrefix_append. Qed.

Lemma key_version_int64 key v : key_version key = Some v → is_int64 v = true.
Proof.
  unfold key_version, ParseInt. destruct (List.last _ _) as [|c r]; [done|].
  destruct (if Ascii.eqb c "+" then _ else _) as [neg body].
  destruct body; [done|].
  destruct (NilEmpty.uint_of_string _); [|done].
  destruct (is_int64 _) eqn:E; [|done]. by intros [= <-].
Qed.

(** ** Listing *)

Lemma bucket_List_keys prefix b keys :
  bucket_List prefix b = inr keys →
  ∀ k, k ∈ keys ↔ ∃ o, objects b !! k = Some o ∧ HasPrefix k prefix = true.
Proof.
  unfold bucket_List. destruct (fails b CallList prefix); [done|].
  intros [= <-] k. rewrite merge_sort_Permutation, list_elem_of_fmap. split.
  - intros ([k' o] & -> & Hin). apply elem_of_map_to_list in Hin.
    apply map_lookup_filter_Some in Hin as [Hm Hp]. by exists o.
  - intros (o & Hm & Hp). exists (k, o). split; [done|].
    apply elem_of_map_to_list, map_lookup_filter_Some. by split.
Qed.

Lemma versions_ok req b :
  VersionsRequest_Validate req = true →
  fails b CallList (ver_prefix req) = false →
  ∃ l, versions req b = inr {| Versions_ := l |}
       ∧ ∀ v, v ∈ l ↔ has_version b (ver_prefix req) v.
Proof.
  intros Hv Hf. unfold versions. rewrite Hv. cbn [negb].
  fold (ver_prefix req).
  destruct (bucket_List (ver_prefix req) b) as [c|keys] eqn:HL.
  { unfold bucket_List in HL. by rewrite Hf in HL. }
  eexists. split; [done|]. intros v. rewrite list_elem_of_omap.
  pose proof (bucket_List_keys _ _ _ HL) as Hk. split.
  - intros (k & Hin & Hkv). apply Hk in Hin as (o & Hm & Hp). by exists k, o.
  - intros (k & o & Hm & Hp & Hkv). exists k. split; [|done]. apply Hk. by exists o.
Qed.

Lemma versions_inr req b resp :
  versions req b = inr resp →
  ∀ v, v ∈ Versions_ resp ↔ has_version b (ver_prefix req) v.
Proof.
  unfold versions. destruct (negb _); [done|]. fold (ver_prefix req).
  destruct (bucket_List (ver_prefix req) b) as [c|keys] eqn:HL; [done|].
  intros [= <-] v. cbn [Versions_]. rewrite list_elem_of_omap.
  pose proof (bucket_List_keys _ _ _ HL) as Hk. split.
  - intros (k & Hin & Hkv). apply Hk in Hin as (o & Hm & Hp). by exists k, o.
  - intros (k & o & Hm & Hp & Hkv). exists k. split; [|done]. apply Hk. by exists o.
Qed.

(** ** The versions under a prefix after a write or a removal *)

Lemma s3_has_version_written b b' a u ss f v o :
  is_int64 v = true →
  objects b' = <[buildKey a u ss f v := o]> (objects b) →
  ∀ w, has_version b' (buildKeyPrefix a u ss f) w
       ↔ w = v ∨ has_version b (buildKeyPrefix a u ss f) w.
Proof.
  intros Hv Hb' w. unfold has_version. rewrite Hb'. split.
  - intros (k & o' & Hm & Hp & Hkv).
    destruct (decide (k = buildKey a u ss f v)) as [->|Hne].
    + left. rewrite key_version_built in Hkv by done. congruence.
    + right. rewrite lookup_insert_ne in Hm by done. by exists k, o'.
  - intros [->|(k & o' & Hm & Hp & Hkv)].
    + exists (buildKey a u ss f v), o. rewrite lookup_insert_eq.
      split; [done|]. split; [apply HasPrefix_built|by apply key_version_built].
    + destruct (decide (k = buildKey a u ss f v)) as [->|Hne].
      * exists (buildKey a u ss f v), o. by rewrite lookup_insert_eq.
      * exists k, o'. by rewrite lookup_insert_ne.
Qed.

Lemma s3_has_version_deleted b b' a u ss f v :
  is_int64 v = true →
  canonical b (buildKeyPrefix a u ss f) →
  objects b' = delete (buildKey a u ss f v) (objects b) →
  ∀ w, has_version b' (buildKeyPrefix a u ss f) w
       ↔ has_version b (buildKeyPrefix a u ss f) w ∧ w ≠ v.
Proof.
  intros Hv Hcan Hb' w. unfold has_version. rewrite Hb'. split.
  - intros (k & o & Hm & Hp & Hkv).
    apply lookup_delete_Some in Hm as [Hne Hm]. split; [by exists k, o|].
    intros ->. apply Hne. rewrite buildKey_prefix. symmetry. by apply (Hcan k o).
  - intros [(k & o & Hm & Hp & Hkv) Hw]. exists k, o. split; [|done].
    apply lookup_delete_Some. split; [|done]. intros <-.
    rewrite key_version_built in Hkv by done. congruence.
Qed.

(** ** [Save] on the bucket *)

Lemma write_object_ok key ct p msg b :
  quiet b →
  write_object key ct p msg b
  = (None, set_objects b
             (<[key := {| body := p;
                          contentType := if decide (ct = "") then detect b p
                                         else media_type b ct |}]>
                (objects b))).
Proof.
  intros Hq. unfold write_object, bucket_NewWriter, Writer_Write, Writer_Close.
  rewrite Hq. destruct (decide (ct = "")); repeat (rewrite Hq; simpl); done.
Qed.

Lemma s3_save_versions_valid req :
  SaveRequest_Validate req = true →
  VersionsRequest_Validate
    {| ver_AppName := save_AppName req; ver_UserID := save_UserID req;
       ver_SessionID := save_SessionID req; ver_FileName := save_FileName req |}
  = true.
Proof.
  unfold SaveRequest_Validate, VersionsRequest_Validate. simpl.
  by intros [? _]%andb_true_iff.
Qed.

(** On a quiet bucket [Save] succeeds; the version is one past the largest
    listed, 1 when none is. *)
Lemma s3_Save_ok req part b :
  SaveRequest_Validate req = true →
  save_Part req = Some part →
  quiet b →
  ∃ l v,
    (∀ w, w ∈ l ↔ has_version b (save_prefix req) w)
    ∧ v = (if (0 <? length l)%nat then wrap64 (slices_Max l + 1) else 1)
    ∧ Save req b
      = (inr {| Version := v |},
         set_objects b
           (<[buildKey (save_AppName req) (save_UserID req) (save_SessionID req)
                (save_FileName req) v
              := {| body := stored_bytes part; contentType := kept_type b part |}]>
              (objects b))).
Proof.
  intros Hv Hp Hq. unfold Save. rewrite Hv, Hp. cbn [negb].
  destruct (versions_ok _ b (s3_save_versions_valid _ Hv)) as (l & -> & Hel).
  { apply Hq. }
  exists l, (if (0 <? length l)%nat then wrap64 (slices_Max l + 1) else 1).
  split; [done|]. split; [done|]. cbn [Versions_].
  unfold kept_type, stored_bytes, stored_type.
  destruct (InlineData part); by rewrite write_object_ok.
Qed.

Lemma s3_next_int64 (l : list Z) :
  is_int64 (if (0 <? length l)%nat then wrap64 (slices_Max l + 1) else 1) = true.
Proof. destruct (0 <? length l)%nat; [apply wrap64_int64|done]. Qed.

(** ** Saving several times in a row *)

Lemma s3_save_each_from a u ss f parts :
  valid_identity a u ss f = true →
  ∀ k b,
    0 ≤ k → k + Z.of_nat (length parts) ≤ MaxInt64 →
    quiet b →
    (∀ w, has_version b (buildKeyPrefix a u ss f) w ↔ 1 ≤ w ≤ k) →
    (save_each a u ss f parts b).1 = seqZ (k + 1) (Z.of_nat (length parts)).
Proof.
  intros Hid. induction parts as [|p parts IH]; intros k b Hk Hbound Hq Hhv.
  { done. }
  cbn [save_each length] in *. rewrite Nat2Z.inj_succ in *.
  set (req := {| save_AppName := a; save_UserID := u; save_SessionID := ss;
                 save_FileName := f; save_Part := Some p; save_Version := 0 |}).
  assert (SaveRequest_Validate req = true) as Hv.
  { unfold SaveRequest_Validate. simpl. fold (valid_identity a u ss f).
    by rewrite Hid. }
  destruct (s3_Save_ok req p b Hv eq_refl Hq) as (l & v & Hel & Hvdef & ->).
  change (save_prefix req) with (buildKeyPrefix a u ss f) in Hel.
  assert (v = k + 1) as ->.
  { rewrite Hvdef. destruct l as [|x l].
    - simpl. destruct (decide (k = 0)) as [->|Hk0]; [done|].
      exfalso. apply (elem_of_nil 1), Hel, Hhv. lia.
    - cbn [length Nat.ltb Nat.leb].
      rewrite (slices_Max_unique _ k).
      + apply wrap64_small, is_int64_spec. unfold MinInt64, MaxInt64 in *. lia.
      + apply Hel, Hhv.
        assert (x ∈ x :: l) as Hx%Hel%Hhv by (by left). lia.
      + intros y Hy%Hel%Hhv. lia. }
  specialize (IH (k + 1)
    (set_objects b (<[buildKey a u ss f (k + 1)
                      := {| body := stored_bytes p; contentType := kept_type b p |}]>
                      (objects b)))).
  cbn [save_AppName save_UserID save_SessionID save_FileName req] in *.
  destruct (save_each a u ss f parts _) as [vs b''].
  cbn [fst Version] in *. rewrite IH; try done; try lia.
  - rewrite (seqZ_cons (k + 1)) by lia. f_equal. f_equal; lia.
  - intros w. rewrite (s3_has_version_written b _ a u ss f (k + 1)); [|  |done].
    + rewrite Hhv. lia.
    + apply is_int64_spec. unfold MinInt64, MaxInt64 in *. lia.
Qed.

Lemma s3_save_each_fresh a u ss f parts b :
  valid_identity a u ss f = true →
  Z.of_nat (length parts) ≤ MaxInt64 →
  quiet b →
  (∀ w, ¬ has_version b (buildKeyPrefix a u ss f) w) →
  (save_each a u ss f parts b).1 = seqZ 1 (Z.of_nat (length parts)).
Proof.
  intros Hid Hlen Hq Hnone.
  apply (s3_save_each_from a u ss f parts Hid 0 b); try done; try lia.
  intros w. split; [by intros ?%Hnone|lia].
Qed.

(** ** Save, then load what was saved *)

Lemma s3_Load_stored req b v o :
  LoadRequest_Validate req = true →
  loadVersion req b = inr v →
  quiet b →
  objects b !! buildKey (load_AppName req) (load_UserID req) (load_SessionID req)
                 (load_FileName req) v = Some o →
  Load req b = inr {| LoadedPart := NewPartFromBytes (body o) (contentType o) |}.
Proof.
  intros Hv Hver Hq Hm. unfold Load. rewrite Hv, Hver. cbn [negb].
  unfold bucket_NewReader, io_ReadAll, Reader_Close, Reader_ContentType.
  rewrite Hq, Hm. repeat (rewrite Hq; simpl). done.
Qed.

Lemma s3_save_load req part b :
  SaveRequest_Validate req = true →
  save_Part req = Some part →
  quiet b →
  ∃ resp b',
    Save req b = (inr resp, b')
    ∧ Load {| load_AppName := save_AppName req; load_UserID := save_UserID req;
              load_SessionID := save_SessionID req;
              load_FileName := save_FileName req;
              load_Version := Version resp |} b'
      = inr {| LoadedPart := NewPartFromBytes (stored_bytes part) (kept_type b part) |}.
Proof.
  intros Hv Hp Hq.
  destruct (s3_Save_ok req part b Hv Hp Hq) as (l & v & Hel & Hvdef & HS).
  eexists _, _. split; [done|]. cbn [Version].
  set (b' := set_objects b _).
  assert (quiet b') as Hq' by done.
  set (o := {| body := stored_bytes part; contentType := kept_type b part |}).
  change (stored_bytes part) with (body o).
  change (kept_type b part) with (contentType o).
  assert (LoadRequest_Validate
            {| load_AppName := save_AppName req; load_UserID := save_UserID req;
               load_SessionID := save_SessionID req;
               load_FileName := save_FileName req; load_Version := v |} = true) as Hlv.
  { revert Hv. unfold SaveRequest_Validate, LoadRequest_Validate. simpl.
    by intros [? _]%andb_true_iff. }
  apply (s3_Load_stored _ b' v); try done.
  2:{ unfold b'. simpl. by rewrite lookup_insert_eq. }
  unfold loadVersion.
  cbn [load_Version load_AppName load_UserID load_SessionID load_FileName].
  destruct (Z.eqb_spec v 0) as [Hz|Hnz]; [|done].
  destruct (versions_ok {| ver_AppName := save_AppName req;
              ver_UserID := save_UserID req; ver_SessionID := save_SessionID req;
              ver_FileName := save_FileName req |} b')
    as (l' & -> & Hel').
  { by apply s3_save_versions_valid. } { apply Hq'. }
  change (ver_prefix _) with (save_prefix req) in Hel'.
  assert (is_int64 v = true) as Hvi by (rewrite Hvdef; apply s3_next_int64).
  assert (∀ w, has_version b' (save_prefix req) w
               ↔ w = v ∨ has_version b (save_prefix req) w) as Hhv.
  { by apply (s3_has_version_written b b' _ _ _ _ v o). }
  assert (v ∈ l') as Hvl by (apply Hel', Hhv; by left).
  assert (∀ w, has_version b (save_prefix req) w → w ≤ -1) as Hneg.
  { intros w Hw%Hel. rewrite Hz in Hvdef. destruct l as [|x l]; [by apply elem_of_nil in Hw|].
    cbn [length Nat.ltb Nat.leb] in Hvdef. symmetry in Hvdef.
    apply wrap64_succ_zero in Hvdef.
    - apply slices_Max_upper in Hw. lia.
    - assert (slices_Max (x :: l) ∈ x :: l) as Hin by (by apply slices_Max_elem).
      apply Hel in Hin as (key & o' & _ & _ & Hkv). by apply key_version_int64 in Hkv. }
  cbn [Versions_]. destruct l' as [|x l']; [by apply elem_of_nil in Hvl|].
  cbn [length Nat.eqb]. f_equal.
  apply slices_Max_unique; [done|].
  intros y [->|Hy%Hneg]%Hel'%Hhv; lia.
Qed.

(** ** The content type the bucket keeps *)

Lemma kept_type_canonical b part :
  canonical_type (stored_type part) = true →
  kept_type b part = stored_type part.
Proof.
  unfold canonical_type, kept_type, media_type.
  intros [[Hne Hpl]%andb_true_iff Hf%String.eqb_eq]%andb_true_iff.
  rewrite decide_False, Hpl; [done|].
  intros E. by rewrite E in Hne.
Qed.

(** ** [Delete] on the bucket *)

Lemma bucket_Delete_quiet key b :
  quiet b →
  ∃ c, bucket_Delete key b = (c, set_objects b (delete key (objects b)))
       ∧ (c = None ∨ c = Some NotFound).
Proof.
  intros Hq. unfold bucket_Delete. rewrite Hq.
  destruct (objects b !! key) as [o|] eqn:E.
  - exists None. split; [done|by left].
  - exists (Some NotFound). split; [|by right].
    rewrite delete_id by done. by destruct b.
Qed.

Lemma s3_delete_version req b :
  DeleteRequest_Validate req = true →
  del_Version req ≠ 0 →
  quiet b →
  Delete req b
  = (None, set_objects b
             (delete (buildKey (del_AppName req) (del_UserID req)
                        (del_SessionID req) (del_FileName req) (del_Version req))
                (objects b))).
Proof.
  intros Hv Hne Hq. unfold Delete. rewrite Hv. cbn [negb].
  apply Z.eqb_neq in Hne. rewrite Hne. cbn [negb].
  destruct (bucket_Delete_quiet (buildKey (del_AppName req) (del_UserID req)
              (del_SessionID req) (del_FileName req) (del_Version req)) b Hq)
    as (c & -> & [-> | ->]); done.
Qed.

Lemma Versions_public req b :
  VersionsRequest_Validate req = true →
  fails b CallList (ver_prefix req) = false →
  ∃ l, (∀ v, v ∈ l ↔ has_version b (ver_prefix req) v)
       ∧ Versions req b = match l with
                          | [] => inl NotFoundError
                          | _ => inr {| Versions_ := l |}
                          end.
Proof.
  intros Hv Hf. destruct (versions_ok req b Hv Hf) as (l & Hl & Hel).
  exists l. split; [done|]. unfold Versions. rewrite Hl. by destruct l.
Qed.

Lemma Versions_public_inr req b resp :
  Versions req b = inr resp →
  ∀ v, v ∈ Versions_ resp ↔ has_version b (ver_prefix req) v.
Proof.
  unfold Versions. destruct (versions req b) as [|resp'] eqn:E; [done|].
  destruct (length _ =? 0)%nat; [done|]. intros [= <-].
  by apply versions_inr.
Qed.

(** After [Delete] of version [V], [Versions] lists what it listed before,
    without [V]; it reports not-found when nothing is left. *)
Lemma s3_delete_then_versions a u ss f V b S :
  valid_identity a u ss f = true →
  is_int64 V = true → V ≠ 0 →
  quiet b →
  canonical b (buildKeyPrefix a u ss f) →
  Versions {| ver_AppName := a; ver_UserID := u; ver_SessionID := ss;
              ver_FileName := f |} b = inr {| Versions_ := S |} →
  ∃ b',
    Delete {| del_AppName := a; del_UserID := u; del_SessionID := ss;
              del_FileName := f; del_Version := V |} b = (None, b')
    ∧ match Versions {| ver_AppName := a; ver_UserID := u; ver_SessionID := ss;
                        ver_FileName := f |} b' with
      | inr resp => ∀ w, w ∈ Versions_ resp ↔ w ∈ S ∧ w ≠ V
      | inl e => e = NotFoundError ∧ ∀ w, w ∈ S → w = V
      end.
Proof.
  intros Hid HV HV0 Hq Hcan HS.
  pose proof (Versions_public_inr _ _ _ HS) as Hel. cbn [Versions_] in Hel.
  change (ver_prefix _) with (buildKeyPrefix a u ss f) in Hel.
  eexists. split; [by apply s3_delete_version|].
  cbn [del_AppName del_UserID del_SessionID del_FileName del_Version].
  set (b' := set_objects b _).
  assert (∀ w, has_version b' (buildKeyPrefix a u ss f) w
               ↔ has_version b (buildKeyPrefix a u ss f) w ∧ w ≠ V) as Hhv.
  { by apply (s3_has_version_deleted b b'). }
  destruct (Versions_public {| ver_AppName := a; ver_UserID := u;
              ver_SessionID := ss; ver_FileName := f |} b')
    as (l & Hel' & ->); [done|apply Hq|].
  change (ver_prefix _) with (buildKeyPrefix a u ss f) in Hel'.
  destruct l as [|x l].
  - split; [done|]. intros w Hw. destruct (decide (w = V)) as [|Hne]; [done|].
    exfalso. apply (elem_of_nil w), Hel', Hhv. split; [by apply Hel|done].
  - intros w. cbn [Versions_]. by rewrite Hel', Hhv, Hel.
Qed.

Lemma delete_all_quiet a u ss f vs b :
  quiet b →
  ∃ b', delete_all a u ss f vs b = (None, b')
        ∧ fails b' = fails b
        ∧ ∀ key, objects b' !! key
                 = if decide (key ∈ (buildKey a u ss f <$> vs)) then None
                   else objects b !! key.
Proof.
  revert b. induction vs as [|v vs IH]; intros b Hq.
  { exists b. split; [done|]. split; [done|]. intros key.
    rewrite decide_False; [done|]. by intros ?%elem_of_nil. }
  cbn [delete_all]. unfold delete_version.
  destruct (bucket_Delete_quiet (buildKey a u ss f v) b Hq) as (c & -> & Hc).
  set (b1 := set_objects b _).
  destruct (IH b1) as (b' & HD & Hf' & Hk'); [done|].
  exists b'. split; [by destruct Hc as [-> | ->]|]. split; [done|].
  intros key. rewrite Hk', fmap_cons. unfold b1. simpl.
  destruct (decide (key ∈ buildKey a u ss f <$> vs)) as [Hin|Hnin].
  - rewrite decide_True; [done|by right].
  - destruct (decide (key = buildKey a u ss f v)) as [->|Hne].
    + rewrite decide_True by (by left). apply lookup_delete_eq.
    + rewrite decide_False.
      * by apply lookup_delete_ne.
      * by intros [?|?]%elem_of_cons.
Qed.

(** After [Delete] of the whole artifact, [Versions] and [Load] report
    not-found. *)
Lemma s3_delete_all a u ss f b :
  valid_identity a u ss f = true →
  quiet b →
  canonical b (buildKeyPrefix a u ss f) →
  ∃ b',
    Delete {| del_AppName := a; del_UserID := u; del_SessionID := ss;
              del_FileName := f; del_Version := 0 |} b = (None, b')
    ∧ Versions {| ver_AppName := a; ver_UserID := u; ver_SessionID := ss;
                  ver_FileName := f |} b' = inl NotFoundError
    ∧ ∀ v, is_int64 v = true →
           Load {| load_AppName := a; load_UserID := u; load_SessionID := ss;
                   load_FileName := f; load_Version := v |} b'
           = inl NotFoundError.
Proof.
  intros Hid Hq Hcan. unfold Delete, DeleteRequest_Validate.
  cbn [del_AppName del_UserID del_SessionID del_FileName del_Version Z.eqb negb].
  fold (valid_identity a u ss f). rewrite Hid. cbn [negb].
  destruct (versions_ok {| ver_AppName := a; ver_UserID := u;
              ver_SessionID := ss; ver_FileName := f |} b)
    as (l & -> & Hel); [done|apply Hq|].
  change (ver_prefix _) with (buildKeyPrefix a u ss f) in Hel. cbn [Versions_].
  destruct (delete_all_quiet a u ss f l b Hq) as (b' & -> & Hf' & Hk').
  assert (quiet b') as Hq' by (intros c k; by rewrite Hf').
  assert (∀ w, ¬ has_version b' (buildKeyPrefix a u ss f) w) as Hnone.
  { intros w (key & o & Hm & Hp & Hkv). rewrite Hk' in Hm.
    destruct (decide (key ∈ buildKey a u ss f <$> l)) as [|Hnin]; [done|].
    apply Hnin, list_elem_of_fmap. exists w. split.
    - rewrite buildKey_prefix. by apply (Hcan key o).
    - apply Hel. by exists key, o. }
  assert (versions {| ver_AppName := a; ver_UserID := u; ver_SessionID := ss;
                      ver_FileName := f |} b' = inr {| Versions_ := [] |}) as HV.
  { destruct (versions_ok {| ver_AppName := a; ver_UserID := u;
                ver_SessionID := ss; ver_FileName := f |} b')
      as (l' & -> & Hel'); [done|apply Hq'|].
    destruct l' as [|x l']; [done|]. exfalso.
    apply (Hnone x), Hel'. by left. }
  exists b'. split; [done|]. split.
  { unfold Versions. by rewrite HV. }
  intros v Hv. unfold Load, LoadRequest_Validate.
  cbn [load_AppName load_UserID load_SessionID load_FileName load_Version].
  fold (valid_identity a u ss f). rewrite Hid. cbn [negb].
  unfold loadVersion.
  cbn [load_AppName load_UserID load_SessionID load_FileName load_Version].
  destruct (v =? 0); [by rewrite HV|].
  unfold bucket_NewReader. rewrite Hq'.
  destruct (objects b' !! buildKey a u ss f v) as [o|] eqn:E; [|done].
  exfalso. apply (Hnone v). exists (buildKey a u ss f v), o.
  split; [done|]. split; [apply HasPrefix_built|by apply key_version_built].
Qed.

(** ** Deleting what is not there *)

Lemma s3_delete_absent_version req b :
  DeleteRequest_Validate req = true →
  del_Version req ≠ 0 →
  quiet b →
  objects b !! buildKey (del_AppName req) (del_UserID req) (del_SessionID req)
                 (del_FileName req) (del_Version req) = None →
  Delete req b = (None, b).
Proof.
  intros Hv Hne Hq Hm. unfold Delete. rewrite Hv. cbn [negb].
  apply Z.eqb_neq in Hne. rewrite Hne. cbn [negb].
  unfold bucket_Delete. by rewrite Hq, Hm.
Qed.

Lemma s3_delete_absent_artifact a u ss f b :
  valid_identity a u ss f = true →
  quiet b →
  (∀ w, ¬ has_version b (buildKeyPrefix a u ss f) w) →
  Delete {| del_AppName := a; del_UserID := u; del_SessionID := ss;
            del_FileName := f; del_Version := 0 |} b = (None, b).
Proof.
  intros Hid Hq Hnone. unfold Delete, DeleteRequest_Validate.
  cbn [del_AppName del_UserID del_SessionID del_FileName del_Version Z.eqb negb].
  fold (valid_identity a u ss f). rewrite Hid. cbn [negb].
  destruct (versions_ok {| ver_AppName := a; ver_UserID := u;
              ver_SessionID := ss; ver_FileName := f |} b)
    as (l & -> & Hel); [done|apply Hq|].
  destruct l as [|x l]; [done|]. exfalso. apply (Hnone x), Hel. by left.
Qed.

(** ** [Save] when the versions cannot be listed *)

Lemma s3_save_listing_fails req b :
  SaveRequest_Validate req = true →
  fails b CallList (save_prefix req) = true →
  Save req b = (inl (StorageIOError "failed to list artifact versions"), b).
Proof.
  intros Hv Hf. unfold Save. rewrite Hv. cbn [negb].
  destruct (save_Part req) as [part|] eqn:Hp.
  2:{ revert Hv. unfold SaveRequest_Validate. rewrite Hp.
      by rewrite andb_false_r. }
  unfold versions. rewrite (s3_save_versions_valid _ Hv). cbn [negb].
  unfold bucket_List, save_prefix in *.
  cbn [ver_AppName ver_UserID ver_SessionID ver_FileName]. by rewrite Hf.
Qed.

(** The version of the request plays no part in [Save]. *)
Lemma s3_Save_version_irrelevant req v b :
  Save (with_version req v) b = Save req b.
Proof. reflexivity. Qed.

End S3Facts.

(** ** Locations do not collide *)

Lemma to_int_not_nil v :
  Z.to_int v ≠ Decimal.Pos Decimal.Nil ∧ Z.to_int v ≠ Decimal.Neg Decimal.Nil.
Proof.
  destruct v as [|p|p]; simpl; [done|..];
    pose proof (DecimalPos.Unsigned.to_uint_nonnil p); split; congruence.
Qed.

Lemma Sprintf_d_inj_all v w : Sprintf_d v = Sprintf_d w → v = w.
Proof.
  unfold Sprintf_d. intros E. apply DecimalZ.to_int_inj.
  destruct (to_int_not_nil v) as [Hv1 Hv2], (to_int_not_nil w) as [Hw1 Hw2].
  pose proof (NilZero.isi _ Hv1 Hv2) as H1. pose proof (NilZero.isi _ Hw1 Hw2) as H2.
  rewrite E in H1. congruence.
Qed.

Lemma append_sep_inj a a' X X' :
  no_sep a = true → no_sep a' = true →
  a +:+ String sep X = a' +:+ String sep X' → a = a' ∧ X = X'.
Proof.
  revert a'. induction a as [|c a IH]; intros [|c' a'] Ha Ha'.
  - by intros [= ->].
  - rewrite append_String. intros [= <- _].
    unfold no_sep in Ha'. simpl in Ha'. done.
  - rewrite append_String. intros [= -> _].
    unfold no_sep in Ha. simpl in Ha. done.
  - rewrite !append_String. intros [= -> E].
    unfold no_sep in Ha, Ha'. simpl in Ha, Ha'.
    apply andb_true_iff in Ha as [_ Ha]. apply andb_true_iff in Ha' as [_ Ha'].
    destruct (IH a' Ha Ha' E) as [-> ->]. done.
Qed.

Lemma buildKey_elems a u ss f v :
  S3Artifact.buildKey a u ss f v
  = a +:+ String sep (u +:+ String sep (scope_elem ss f +:+ String sep
        (f +:+ String sep (Sprintf_d v)))).
Proof.
  unfold S3Artifact.buildKey, S3Artifact.fileHasUserNamespace, scope_elem.
  by destruct (HasPrefix f "user:").
Qed.

Lemma scope_elem_eq ss f ss' :
  scope_elem ss f = scope_elem ss' f → HasPrefix f "user:" = true ∨ ss = ss'.
Proof. unfold scope_elem. destruct (HasPrefix f "user:"); [by left|by right]. Qed.

Lemma scope_elem_no_sep ss f : no_sep ss = true → no_sep (scope_elem ss f) = true.
Proof. unfold scope_elem. by destruct (HasPrefix f "user:"). Qed.

Lemma buildKey_inj a u ss f v a' u' ss' f' v' :
  no_sep a = true → no_sep u = true → no_sep ss = true → no_sep f = true →
  no_sep a' = true → no_sep u' = true → no_sep ss' = true → no_sep f' = true →
  S3Artifact.buildKey a u ss f v = S3Artifact.buildKey a' u' ss' f' v' →
  a = a' ∧ u = u' ∧ f = f' ∧ v = v'
  ∧ (S3Artifact.fileHasUserNamespace f = true ∨ ss = ss').
Proof.
  intros Ha Hu Hs Hf Ha' Hu' Hs' Hf'. rewrite !buildKey_elems. intros E.
  apply append_sep_inj in E as [-> E]; [|done..].
  apply append_sep_inj in E as [-> E]; [|done..].
  apply append_sep_inj in E as [Hsc E]; [|by apply scope_elem_no_sep..].
  apply append_sep_inj in E as [-> E]; [|done..].
  apply Sprintf_d_inj_all in E as ->.
  repeat split; try done. by apply scope_elem_eq in Hsc.
Qed.

Lemma plain_no_sep x : plain_elem x = true → no_sep x = true.
Proof. by intros (_ & _ & _ & ?)%plain_elem_spec. Qed.

Lemma buildPath_elems s a u ss f v :
  plain_elem a = true → plain_elem u = true → plain_elem ss = true →
  plain_elem f = true →
  FsArtifact.path_key (FsArtifact.buildPath s a u ss f v)
  = ((FsArtifact.path_key (filepath_Join [FsArtifact.rootDir s])).1,
     (FsArtifact.path_key (filepath_Join [FsArtifact.rootDir s])).2
     ++ [a; u; scope_elem ss f; f; Sprintf_d v]).
Proof.
  intros Ha Hu Hs Hf.
  assert (plain_elem (scope_elem ss f) = true) as Hsc.
  { unfold scope_elem. by destruct (HasPrefix f "user:"). }
  assert (FsArtifact.buildPath s a u ss f v
          = filepath_Join [FsArtifact.rootDir s; a; u; scope_elem ss f; f; Sprintf_d v]) as ->.
  { unfold FsArtifact.buildPath, FsArtifact.fileHasUserNamespace, scope_elem.
    by destruct (HasPrefix f "user:"). }
  set (r := FsArtifact.rootDir s).
  pose proof (path_key_Join_snoc [r; a; u; scope_elem ss f; f] _
                (Sprintf_d_plain v)) as H5.
  pose proof (path_key_Join_snoc [r; a; u; scope_elem ss f] _ Hf) as H4.
  pose proof (path_key_Join_snoc [r; a; u] _ Hsc) as H3.
  pose proof (path_key_Join_snoc [r; a] _ Hu) as H2.
  pose proof (path_key_Join_snoc [r] _ Ha) as H1.
  cbn [app] in H1, H2, H3, H4, H5. rewrite H5, H4, H3, H2, H1.
  unfold FsArtifact.extend. cbn [fst snd]. by rewrite <- !app_assoc.
Qed.

Lemma buildPath_inj s a u ss f v a' u' ss' f' v' :
  plain_elem a = true → plain_elem u = true → plain_elem ss = true →
  plain_elem f = true →
  plain_elem a' = true → plain_elem u' = true → plain_elem ss' = true →
  plain_elem f' = true →
  FsArtifact.buildPath s a u ss f v = FsArtifact.buildPath s a' u' ss' f' v' →
  a = a' ∧ u = u' ∧ f = f' ∧ v = v'
  ∧ (FsArtifact.fileHasUserNamespace f = true ∨ ss = ss').
Proof.
  intros Ha Hu Hs Hf Ha' Hu' Hs' Hf' E.
  apply (f_equal FsArtifact.path_key) in E.
  rewrite !buildPath_elems in E by done.
  injection E as E. apply app_inv_head in E.
  injection E as -> -> Hsc -> Hv. apply Sprintf_d_inj_all in Hv as ->.
  repeat split; try done. by apply scope_elem_eq in Hsc.
Qed.

(** ** Stores that [Save] has filled *)

Lemma fs_usable_empty k : FsArtifact.usable FsArtifact.empty_fs k.
Proof. split; [done|]. split; intros ?; intros; simpl; by rewrite lookup_empty. Qed.

Lemma fs_canonical_empty k : FsArtifact.canonical FsArtifact.empty_fs k.
Proof. intros name data v H. simpl in H. by rewrite lookup_empty in H. Qed.

Lemma fs_no_version_empty k v : ¬ FsArtifact.has_version FsArtifact.empty_fs k v.
Proof. intros (name & data & H & _). simpl in H. by rewrite lookup_empty in H. Qed.

Lemma fs_canonical_written fs fs' k v data md :
  is_int64 v = true →
  FsArtifact.canonical fs k →
  FsArtifact.nodes fs' !! FsArtifact.extend k (Sprintf_d v) = Some (FsArtifact.File data) →
  FsArtifact.nodes fs' !! FsArtifact.extend k (Sprintf_d v +:+ ".meta")
  = Some (FsArtifact.File md) →
  (∀ x, x ≠ Sprintf_d v → x ≠ Sprintf_d v +:+ ".meta" →
        FsArtifact.nodes fs' !! FsArtifact.extend k x
        = FsArtifact.nodes fs !! FsArtifact.extend k x) →
  FsArtifact.canonical fs' k.
Proof.
  intros Hv Hcan Hd Hm Hother name d w Hn Hs Hp.
  destruct (decide (name = Sprintf_d v)) as [->|Hne1].
  { rewrite ParseInt_Sprintf_d in Hp by done. congruence. }
  destruct (decide (name = Sprintf_d v +:+ ".meta")) as [->|Hne2].
  { by rewrite ParseInt_meta_None in Hp. }
  rewrite Hother in Hn by done. by apply (Hcan name d).
Qed.

Lemma s3_quiet_empty : S3Artifact.quiet S3Artifact.empty_bucket.
Proof. done. Qed.

Lemma s3_canonical_empty p : S3Artifact.canonical S3Artifact.empty_bucket p.
Proof. intros key o v H. simpl in H. by rewrite lookup_empty in H. Qed.

Lemma s3_no_version_empty p v :
  ¬ S3Artifact.has_version S3Artifact.empty_bucket p v.
Proof. intros (key & o & H & _). simpl in H. by rewrite lookup_empty in H. Qed.

Lemma s3_canonical_written b a u ss f v o :
  is_int64 v = true →
  S3Artifact.canonical b (S3Artifact.buildKeyPrefix a u ss f) →
  S3Artifact.canonical
    (S3Artifact.set_objects b
       (<[S3Artifact.buildKey a u ss f v := o]> (S3Artifact.objects b)))
    (S3Artifact.buildKeyPrefix a u ss f).
Proof.
  intros Hv Hcan key o' w Hm Hp Hkv. simpl in Hm.
  destruct (decide (key = S3Artifact.buildKey a u ss f v)) as [->|Hne].
  - rewrite key_version_built in Hkv by done. injection Hkv as <-.
    apply buildKey_prefix.
  - rewrite lookup_insert_ne in Hm by done. by apply (Hcan key o').
Qed.

(** [Save] after [Save] keeps a container usable and its names canonical. *)
Lemma fs_save_each_keeps s a u ss f parts fs :
  valid_identity a u ss f = true →
  FsArtifact.usable fs (FsArtifact.artifact_dir s a u ss f) →
  FsArtifact.canonical fs (FsArtifact.artifact_dir s a u ss f) →
  FsArtifact.usable (FsArtifact.save_each s a u ss f parts fs).2
    (FsArtifact.artifact_dir s a u ss f)
  ∧ FsArtifact.canonical (FsArtifact.save_each s a u ss f parts fs).2
      (FsArtifact.artifact_dir s a u ss f).
Proof.
  intros Hid. revert fs. induction parts as [|p parts IH]; intros fs Hu Hcan.
  { done. }
  cbn [FsArtifact.save_each].
  set (req := {| save_AppName := a; save_UserID := u; save_SessionID := ss;
                 save_FileName := f; save_Part := Some p; save_Version := 0 |}).
  pose proof (valid_identity_save a u ss f p 0 Hid) as Hv. fold req in Hv.
  destruct (Save_ok s req p fs Hv eq_refl Hu)
    as (fs' & -> & Hu' & Hr' & Hd & Hm & Hother).
  specialize (IH fs' Hu').
  destruct (FsArtifact.save_each s a u ss f parts fs') as [vs fs''].
  apply IH. eapply fs_canonical_written; [|done..].
  by apply nextVersion_int64.
Qed.

Lemma s3_save_each_keeps a u ss f parts b :
  valid_identity a u ss f = true →
  S3Artifact.quiet b →
  S3Artifact.canonical b (S3Artifact.buildKeyPrefix a u ss f) →
  S3Artifact.quiet (S3Artifact.save_each a u ss f parts b).2
  ∧ S3Artifact.canonical (S3Artifact.save_each a u ss f parts b).2
      (S3Artifact.buildKeyPrefix a u ss f).
Proof.
  intros Hid. revert b. induction parts as [|p parts IH]; intros b Hq Hcan.
  { done. }
  cbn [S3Artifact.save_each].
  set (req := {| save_AppName := a; save_UserID := u; save_SessionID := ss;
                 save_FileName := f; save_Part := Some p; save_Version := 0 |}).
  assert (SaveRequest_Validate req = true) as Hv.
  { unfold SaveRequest_Validate. simpl. fold (valid_identity a u ss f).
    by rewrite Hid. }
  destruct (s3_Save_ok req p b Hv eq_refl Hq) as (l & v & Hel & Hvdef & ->).
  set (b' := S3Artifact.set_objects b _).
  specialize (IH b').
  destruct (S3Artifact.save_each a u ss f parts b') as [vs b''].
  apply IH; [done|]. apply s3_canonical_written; [|done].
  rewrite Hvdef. apply s3_next_int64.
Qed.

Section FsMoreFacts.
Import FsArtifact.

(** ** The names [List] returns *)

Lemma sorted_keys_spec (set : gmap string bool) :
  StronglySorted String.le (sorted_keys set)
  ∧ NoDup (sorted_keys set)
  ∧ ∀ x, x ∈ sorted_keys set ↔ is_Some (set !! x).
Proof.
  unfold sorted_keys. split; [|split].
  - apply StronglySorted_merge_sort; apply _.
  - rewrite merge_sort_Permutation. apply NoDup_fst_map_to_list.
  - intros x. rewrite merge_sort_Permutation, list_elem_of_fmap. split.
    + intros ([k v] & -> & Hin). apply elem_of_map_to_list in Hin. by exists v.
    + intros [v Hv]. exists (x, v). split; [done|]. by apply elem_of_map_to_list.
Qed.

Lemma foldl_dir_names (es : list DirEntry) (set : gmap string bool) x :
  is_Some (foldl (λ set entry, if IsDir entry then <[Name entry := true]> set else set)
             set es !! x)
  ↔ is_Some (set !! x) ∨ ∃ e, e ∈ es ∧ IsDir e = true ∧ Name e = x.
Proof.
  revert set. induction es as [|e es IH]; intros set; simpl.
  - split; [by left|]. intros [H|(e & He & _)]; [done|]. by apply elem_of_nil in He.
  - rewrite IH. split.
    + intros [H|(e' & He' & Hd & Hn)].
      * destruct (IsDir e) eqn:Hd; [|by left].
        destruct (decide (Name e = x)) as [Hx|Hx].
        -- right. exists e. split; [apply elem_of_cons; by left|done].
        -- left. by rewrite lookup_insert_ne in H.
      * right. exists e'. split; [apply elem_of_cons; by right|done].
    + intros [H|(e' & He' & Hd & Hn)].
      * left. destruct (IsDir e); [|done].
        destruct (decide (Name e = x)) as [->|Hx].
        -- rewrite lookup_insert_eq. by eexists.
        -- by rewrite lookup_insert_ne.
      * apply elem_of_cons in He' as [->|He'].
        -- left. rewrite Hd, Hn, lookup_insert_eq. by eexists.
        -- right. by exists e'.
Qed.

Lemma resolve_extend_dir fs k x :
  resolve fs (extend k x) = Found Directory
  ↔ resolve fs k = Found Directory ∧ nodes fs !! extend k x = Some Directory.
Proof.
  rewrite resolve_extend. destruct (resolve fs k) as [[]| |].
  - split; [done|]. by intros [? _].
  - destruct (nodes fs !! extend k x) as [[]|]; split; try done; by intros [_ ?].
  - split; [done|]. by intros [? _].
  - split; [done|]. by intros [? _].
Qed.

Lemma readDir_names dir fs (set : gmap string bool) x :
  is_Some (readDir dir fs set !! x)
  ↔ is_Some (set !! x) ∨ lists fs (path_key dir) x.
Proof.
  unfold readDir, lists.
  destruct (os_ReadDir dir fs) as [e|es] eqn:HR.
  - split; [by left|]. intros [H|[Hf Hr]]; [done|].
    apply resolve_extend_dir in Hr as [Hr _].
    unfold os_ReadDir in HR. rewrite Hf, Hr in HR. done.
  - destruct (os_ReadDir_entries _ _ _ HR) as [Hr Hes].
    assert (fails fs SysReadDir (path_key dir) = false) as Hf.
    { unfold os_ReadDir in HR. by destruct (fails fs SysReadDir _). }
    rewrite foldl_dir_names. split.
    + intros [H|(e & He & Hd & Hn)]; [by left|]. right. split; [done|].
      apply resolve_extend_dir. split; [done|].
      apply Hes in He as (y & n & Hm & ->). simpl in *. subst y. by destruct n.
    + intros [H|[_ Hx]]; [by left|]. right.
      apply resolve_extend_dir in Hx as [_ Hx].
      exists {| Name := x; IsDir := true |}. split; [|done].
      apply Hes. by exists x, Directory.
Qed.

Lemma List_names s req fs :
  ListRequest_Validate req = true →
  ∃ names,
    List s req fs = inr {| FileNames := names |}
    ∧ StronglySorted String.le names
    ∧ NoDup names
    ∧ ∀ x, x ∈ names
           ↔ lists fs (session_dir s (list_AppName req) (list_UserID req)
                         (list_SessionID req)) x
             ∨ lists fs (user_dir s (list_AppName req) (list_UserID req)) x.
Proof.
  intros Hv. unfold List. rewrite Hv. cbn [negb]. eexists. split; [done|].
  destruct (sorted_keys_spec
              (readDir (buildUserDir s (list_AppName req) (list_UserID req)) fs
                 (readDir (buildSessionDir s (list_AppName req) (list_UserID req)
                             (list_SessionID req)) fs ∅))) as (HS & HN & Hin).
  split; [done|]. split; [done|]. intros x.
  rewrite Hin, !readDir_names, lookup_empty. unfold session_dir, user_dir. split.
  - intros [[[? H]|H]|H]; [done|by left|by right].
  - intros [H|H]; [left; by right|by right].
Qed.

(** ** The shape of the directories of the service *)

Lemma Join_elems r (elems : list string) :
  Forall (λ x, plain_elem x = true) elems →
  path_key (filepath_Join (r :: elems))
  = ((path_key (filepath_Join [r])).1, (path_key (filepath_Join [r])).2 ++ elems).
Proof.
  induction elems as [|x l IH] using rev_ind; intros HF.
  - rewrite app_nil_r. by destruct (path_key _).
  - apply Forall_app in HF as [Hl Hx]. apply Forall_cons in Hx as [Hx _].
    change (r :: l ++ [x]) with ((r :: l) ++ [x]).
    rewrite path_key_Join_snoc by done. rewrite IH by done.
    unfold extend. cbn [fst snd]. by rewrite <- app_assoc.
Qed.

Lemma artifact_dir_scope s a u ss f :
  plain_elem f = true →
  artifact_dir s a u ss f = extend (scope_dir s a u ss f) f.
Proof.
  intros Hf. unfold artifact_dir, scope_dir, buildDir, user_dir, session_dir,
    buildUserDir, buildSessionDir.
  destruct (fileHasUserNamespace f); by apply (path_key_Join_snoc [_; _; _; _]).
Qed.

Lemma session_dir_elems s a u ss :
  plain_elem a = true → plain_elem u = true → plain_elem ss = true →
  session_dir s a u ss
  = ((path_key (filepath_Join [rootDir s])).1,
     (path_key (filepath_Join [rootDir s])).2 ++ [a; u; ss]).
Proof.
  intros Ha Hu Hs. unfold session_dir, buildSessionDir.
  apply Join_elems. by repeat constructor.
Qed.

Lemma user_dir_elems s a u :
  plain_elem a = true → plain_elem u = true →
  user_dir s a u
  = ((path_key (filepath_Join [rootDir s])).1,
     (path_key (filepath_Join [rootDir s])).2 ++ [a; u; "user"]).
Proof.
  intros Ha Hu. unfold user_dir, buildUserDir.
  apply Join_elems. by repeat constructor.
Qed.

Lemma scope_elem_plain ss f : plain_elem ss = true → plain_elem (scope_elem ss f) = true.
Proof. intros H. unfold scope_elem. by destruct (HasPrefix f "user:"). Qed.

Lemma scope_dir_elems s a u ss f :
  plain_elem a = true → plain_elem u = true → plain_elem ss = true →
  scope_dir s a u ss f
  = ((path_key (filepath_Join [rootDir s])).1,
     (path_key (filepath_Join [rootDir s])).2 ++ [a; u; scope_elem ss f]).
Proof.
  intros Ha Hu Hs. unfold scope_dir, scope_elem, fileHasUserNamespace.
  destruct (HasPrefix f "user:"); [by apply user_dir_elems|by apply session_dir_elems].
Qed.

Lemma artifact_dir_elems s a u ss f :
  plain_elem a = true → plain_elem u = true → plain_elem ss = true →
  plain_elem f = true →
  artifact_dir s a u ss f
  = ((path_key (filepath_Join [rootDir s])).1,
     (path_key (filepath_Join [rootDir s])).2 ++ [a; u; scope_elem ss f; f]).
Proof.
  intros Ha Hu Hs Hf. rewrite artifact_dir_scope, scope_dir_elems by done.
  unfold extend. cbn [fst snd]. by rewrite <- app_assoc.
Qed.

(** ** What a call leaves as it is *)

Lemma os_ReadDir_ext name fs1 fs2 :
  fails fs1 SysReadDir (path_key name) = fails fs2 SysReadDir (path_key name) →
  (∀ P, P `prefix_of` (path_key name).2 →
        nodes fs1 !! ((path_key name).1, P) = nodes fs2 !! ((path_key name).1, P)) →
  (∀ x, nodes fs1 !! extend (path_key name) x = nodes fs2 !! extend (path_key name) x) →
  os_ReadDir name fs1 = os_ReadDir name fs2.
Proof.
  intros Hf Hp Hc. unfold os_ReadDir. rewrite Hf.
  rewrite (resolve_ext fs1 fs2) by done.
  by rewrite (children_ext (nodes fs1) (nodes fs2)).
Qed.

Lemma List_ext s req fs1 fs2 :
  (∀ k, fails fs1 SysReadDir k = fails fs2 SysReadDir k) →
  (∀ k, (k = session_dir s (list_AppName req) (list_UserID req) (list_SessionID req)
         ∨ k = user_dir s (list_AppName req) (list_UserID req)) →
        (∀ P, P `prefix_of` k.2 → nodes fs1 !! (k.1, P) = nodes fs2 !! (k.1, P))
        ∧ (∀ x, nodes fs1 !! extend k x = nodes fs2 !! extend k x)) →
  List s req fs1 = List s req fs2.
Proof.
  intros Hf Hk. unfold List, readDir.
  destruct (Hk _ (or_introl eq_refl)) as [H1 H2].
  destruct (Hk _ (or_intror eq_refl)) as [H3 H4].
  rewrite (os_ReadDir_ext (buildSessionDir _ _ _ _) fs1 fs2) by done.
  by rewrite (os_ReadDir_ext (buildUserDir _ _ _) fs1 fs2) by done.
Qed.

Lemma os_Remove_frame name fs :
  fails (os_Remove name fs).2 = fails fs
  ∧ ∀ q, q ≠ path_key name → nodes (os_Remove name fs).2 !! q = nodes fs !! q.
Proof.
  unfold os_Remove. destruct (fails fs SysRemove _); [done|].
  destruct (path_key name).2; [done|].
  destruct (resolve fs _) as [[]| |]; try done.
  - split; [done|]. intros q Hq. simpl. by rewrite lookup_delete_ne.
  - destruct (has_children _ _); [done|].
    split; [done|]. intros q Hq. simpl. by rewrite lookup_delete_ne.
Qed.

Lemma Delete_version_frame s req fs :
  del_Version req ≠ 0 →
  fails (Delete s req fs).2 = fails fs
  ∧ ∀ q,
      q ≠ extend (del_dir s req) (Sprintf_d (del_Version req)) →
      q ≠ extend (del_dir s req) (Sprintf_d (del_Version req) +:+ ".meta") →
      nodes (Delete s req fs).2 !! q = nodes fs !! q.
Proof.
  intros HV. unfold Delete. destruct (negb (DeleteRequest_Validate req)); [done|].
  apply Z.eqb_neq in HV. rewrite HV. cbn [negb].
  set (path := buildPath _ _ _ _ _ _).
  pose proof (os_Remove_frame path fs) as [Hf1 Hn1].
  destruct (os_Remove path fs) as [err fs1]. cbn [snd] in *.
  pose proof (os_Remove_frame (path +:+ ".meta") fs1) as [Hf2 Hn2].
  destruct (os_Remove (path +:+ ".meta") fs1) as [err2 fs2]. cbn [snd] in *.
  assert (fails fs2 = fails fs
          ∧ ∀ q, q ≠ extend (del_dir s req) (Sprintf_d (del_Version req)) →
                 q ≠ extend (del_dir s req) (Sprintf_d (del_Version req) +:+ ".meta") →
                 nodes fs2 !! q = nodes fs !! q) as Hres.
  { split; [congruence|]. intros q Hq1 Hq2.
    unfold path in *. rewrite buildPath_key in Hn1. rewrite buildPath_meta_key in Hn2.
    rewrite Hn2 by done. by apply Hn1. }
  destruct err as [e|]; [destruct (negb (os_IsNotExist e))|]; exact Hres.
Qed.

Lemma mkdir_all_frame (fl : pathkey → bool) (m : gmap pathkey node) (r : bool)
    (pre rest : list string) (q : pathkey) :
  (mkdir_all fl m r pre rest).2 !! q = m !! q
  ∨ (m !! q = None
     ∧ (mkdir_all fl m r pre rest).2 !! q = Some Directory
     ∧ ∃ P, P `prefix_of` rest ∧ q = (r, pre ++ P)).
Proof.
  revert m pre. induction rest as [|x rest IH]; intros m pre; simpl; [by left|].
  destruct (m !! (r, pre ++ [x])) as [[]|] eqn:E.
  - by left.
  - destruct (IH m (pre ++ [x])) as [H|(H1 & H2 & P & HP & ->)]; [by left|].
    right. split; [done|]. split; [done|]. exists (x :: P).
    split; [by apply prefix_cons|]. by rewrite <- app_assoc.
  - destruct (fl (r, pre ++ [x])); [by left|].
    destruct (IH (<[(r, pre ++ [x]) := Directory]> m) (pre ++ [x]))
      as [H|(H1 & H2 & P & HP & ->)].
    + destruct (decide (q = (r, pre ++ [x]))) as [->|Hq].
      * right. rewrite lookup_insert_eq in H. split; [done|]. split; [done|].
        exists [x]. split; [|done]. apply prefix_cons, prefix_nil.
      * left. by rewrite lookup_insert_ne in H.
    + destruct (decide ((r, (pre ++ [x]) ++ P) = (r, pre ++ [x]))) as [Hq|Hq].
      * rewrite Hq, lookup_insert_eq in H1. done.
      * rewrite lookup_insert_ne in H1 by done.
        right. split; [done|]. split; [done|]. exists (x :: P).
        split; [by apply prefix_cons|]. by rewrite <- app_assoc.
Qed.

Lemma os_MkdirAll_frame name fs q :
  nodes (os_MkdirAll name fs).2 !! q = nodes fs !! q
  ∨ (nodes fs !! q = None
     ∧ nodes (os_MkdirAll name fs).2 !! q = Some Directory
     ∧ q.1 = (path_key name).1 ∧ q.2 `prefix_of` (path_key name).2).
Proof.
  unfold os_MkdirAll.
  pose proof (mkdir_all_frame (fails fs SysMkdir) (nodes fs) (path_key name).1 []
                (path_key name).2 q) as H.
  destruct (mkdir_all _ _ _ _ _) as [e m]. cbn [snd nodes set_nodes] in *.
  destruct H as [H|(H1 & H2 & P & HP & ->)]; [by left|by right].
Qed.

Lemma os_WriteFile_frame name data fs q :
  q ≠ path_key name →
  nodes (os_WriteFile name data fs).2 !! q = nodes fs !! q.
Proof.
  intros Hq. unfold os_WriteFile. destruct (fails fs SysWriteFile _); [done|].
  destruct (path_key name).2; [done|].
  destruct (resolve fs _) as [[]| |]; try done.
  destruct (nodes fs !! _) as [[]|]; try done; simpl; by rewrite lookup_insert_ne.
Qed.

(** [Save] writes the version file and its sidecar, and creates directories
    that are missing on the way to them; every other node stays. *)
Lemma Save_frame_eq s req fs res fs' :
  Save s req fs = (res, fs') →
  fails fs' = fails fs
  ∧ ∀ q,
      q ≠ extend (save_dir s req) (Sprintf_d (nextVersion s req fs)) →
      q ≠ extend (save_dir s req) (Sprintf_d (nextVersion s req fs) +:+ ".meta") →
      nodes fs' !! q = nodes fs !! q
      ∨ (nodes fs !! q = None
         ∧ nodes fs' !! q = Some Directory
         ∧ q.1 = (save_dir s req).1 ∧ q.2 `prefix_of` (save_dir s req).2).
Proof.
  unfold Save. destruct (negb _); [intros [= <- <-]; split; [done|by left]|].
  destruct (save_Part req) as [part|]; [|intros [= <- <-]; split; [done|by left]].
  unfold bind at 1, reading at 1. set (v := nextVersion s req fs).
  set (path := buildPath _ _ _ _ _ v).
  unfold bind at 1. unfold check at 1.
  pose proof (os_MkdirAll_fails (filepath_Dir path) fs) as Hf1.
  pose proof (os_MkdirAll_frame (filepath_Dir path) fs) as Hn1.
  unfold path in Hn1. rewrite buildPath_Dir_key in Hn1. fold path in Hn1.
  fold (save_dir s req) in Hn1.
  destruct (os_MkdirAll _ fs) as [[e1|] fs1]; cbn [snd] in *.
  { intros [= <- <-]. split; [done|]. intros q _ _. apply Hn1. }
  destruct (match InlineData part with
            | Some inline => (Data inline, MIMEType inline)
            | None => (list_byte_of_string (Text part), "text/plain")
            end) as [data ct].
  unfold bind at 1. unfold check at 1.
  pose proof (os_WriteFile_fails path data fs1) as Hf2.
  pose proof (os_WriteFile_frame path data fs1) as Hn2.
  unfold path in Hn2 at 1. rewrite buildPath_key in Hn2. fold (save_dir s req) in Hn2.
  destruct (os_WriteFile path data fs1) as [[e2|] fs2]; cbn [snd] in *.
  { intros [= <- <-]. split; [congruence|]. intros q Hq1 Hq2.
    rewrite Hn2 by done. apply Hn1. }
  unfold bind at 1.
  pose proof (os_WriteFile_fails (path +:+ ".meta") (list_byte_of_string ct) fs2) as Hf3.
  pose proof (os_WriteFile_frame (path +:+ ".meta") (list_byte_of_string ct) fs2) as Hn3.
  unfold path in Hn3 at 1. rewrite buildPath_meta_key in Hn3.
  fold (save_dir s req) in Hn3.
  destruct (os_WriteFile (path +:+ ".meta") _ fs2) as [[e3|] fs3]; cbn [snd] in *.
  - pose proof (os_Remove_frame path fs3) as [Hf4 Hn4].
    unfold path in Hn4 at 1. rewrite buildPath_key in Hn4. fold (save_dir s req) in Hn4.
    destruct (os_Remove path fs3) as [e4 fs4]; cbn [snd] in *.
    intros [= <- <-]. split; [congruence|]. intros q Hq1 Hq2.
    rewrite Hn4, Hn3, Hn2 by done. apply Hn1.
  - unfold ret. intros [= <- <-]. split; [congruence|]. intros q Hq1 Hq2.
    rewrite Hn3, Hn2 by done. apply Hn1.
Qed.

Lemma Save_fails s req fs : fails (Save s req fs).2 = fails fs.
Proof.
  destruct (Save s req fs) as [res fs'] eqn:HS.
  by destruct (Save_frame_eq _ _ _ _ _ HS).
Qed.

(** ** [List] after the other operations *)

(** The name of a file that was saved is listed. *)
Lemma List_after_Save (s : fsService) (req : SaveRequest) (fs fs' : FS)
    (resp : SaveResponse) (sessionID : string) :
  Save s req fs = (inr resp, fs') →
  plain_elem (save_FileName req) = true →
  present sessionID = true →
  sessionID = save_SessionID req ∨ fileHasUserNamespace (save_FileName req) = true →
  fails fs SysReadDir
    (scope_dir s (save_AppName req) (save_UserID req) sessionID (save_FileName req))
  = false →
  ∃ names,
    List s {| list_AppName := save_AppName req; list_UserID := save_UserID req;
              list_SessionID := sessionID |} fs'
    = inr {| FileNames := names |}
    ∧ save_FileName req ∈ names.
Proof.
  intros HS Hf Hss Hscope Hfail.
  assert (SaveRequest_Validate req = true) as Hv.
  { revert HS. unfold Save. by destruct (SaveRequest_Validate req). }
  assert (ListRequest_Validate
            {| list_AppName := save_AppName req; list_UserID := save_UserID req;
               list_SessionID := sessionID |} = true) as Hlv.
  { revert Hv. unfold SaveRequest_Validate, ListRequest_Validate. cbn.
    rewrite Hss. intros [[[[-> ->]%andb_true_iff _]%andb_true_iff _]%andb_true_iff _]%andb_true_iff.
    done. }
  destruct (List_names s _ fs' Hlv) as (names & HL & _ & _ & Hin).
  exists names. split; [done|]. apply Hin. cbn.
  destruct (Save_frame_eq _ _ _ _ _ HS) as [Hfails _].
  destruct (fs_save_success _ _ _ _ _ HS) as (part & _ & _ & Hr & _).
  rewrite buildPath_key in Hr. apply resolve_extend_Found in Hr.
  assert (scope_dir s (save_AppName req) (save_UserID req) sessionID (save_FileName req)
          = scope_dir s (save_AppName req) (save_UserID req) (save_SessionID req)
              (save_FileName req)) as Hsame.
  { unfold scope_dir. destruct Hscope as [-> | ->]; done. }
  rewrite artifact_dir_scope, <- Hsame in Hr by done.
  assert (lists fs' (scope_dir s (save_AppName req) (save_UserID req) sessionID
                       (save_FileName req)) (save_FileName req)) as HL'.
  { split; [by rewrite Hfails|done]. }
  unfold scope_dir in HL'. destruct (fileHasUserNamespace _); [by right|by left].
Qed.


Lemma key_length_ne (q n : pathkey) : length q.2 ≠ length n.2 → q ≠ n.
Proof. intros H ->. done. Qed.

(** [Delete] of one version leaves every listing as it is. *)
Lemma List_Delete_version s fs a u ss f V a' u' ss' :
  plain_elem a = true → plain_elem u = true → plain_elem ss = true →
  plain_elem f = true →
  plain_elem a' = true → plain_elem u' = true → plain_elem ss' = true →
  V ≠ 0 →
  List s {| list_AppName := a'; list_UserID := u'; list_SessionID := ss' |}
    (Delete s {| del_AppName := a; del_UserID := u; del_SessionID := ss;
                 del_FileName := f; del_Version := V |} fs).2
  = List s {| list_AppName := a'; list_UserID := u'; list_SessionID := ss' |} fs.
Proof.
  intros Ha Hu Hs Hf Ha' Hu' Hs' HV.
  set (dreq := {| del_AppName := a; del_UserID := u; del_SessionID := ss;
                  del_FileName := f; del_Version := V |}).
  destruct (Delete_version_frame s dreq fs HV) as [Hfails Hnodes].
  unfold del_dir in Hnodes. cbn [del_AppName del_UserID del_SessionID del_FileName
                                  del_Version dreq] in Hnodes.
  rewrite artifact_dir_elems in Hnodes by done.
  set (r := (path_key (filepath_Join [rootDir s])).1) in *.
  set (L := (path_key (filepath_Join [rootDir s])).2) in *.
  apply List_ext; [intros k; by rewrite Hfails|].
  cbn [list_AppName list_UserID list_SessionID].
  assert (∀ k, k = session_dir s a' u' ss' ∨ k = user_dir s a' u' →
               k.1 = r ∧ length k.2 = (length L + 3)%nat) as Hshape.
  { intros k [-> | ->].
    - rewrite session_dir_elems by done. cbn [fst snd].
      rewrite length_app. done.
    - rewrite user_dir_elems by done. cbn [fst snd].
      rewrite length_app. done. }
  intros k Hk. destruct (Hshape k Hk) as [Hr Hlen]. split.
  - intros P HP. apply prefix_length in HP. apply Hnodes.
    + apply key_length_ne. unfold extend. cbn [fst snd].
      rewrite !length_app. cbn [length]. lia.
    + apply key_length_ne. unfold extend. cbn [fst snd].
      rewrite !length_app. cbn [length]. lia.
  - intros x. apply Hnodes.
    + apply key_length_ne. unfold extend. cbn [fst snd].
      rewrite !length_app. cbn [length]. lia.
    + apply key_length_ne. unfold extend. cbn [fst snd].
      rewrite !length_app. cbn [length]. lia.
Qed.

(** [os.RemoveAll] leaves nothing at the name it was given. *)
Lemma os_RemoveAll_gone name fs fs' k x n :
  path_key name = extend k x →
  os_RemoveAll name fs = (None, fs') →
  resolve fs' (extend k x) ≠ Found n.
Proof.
  intros Hk. unfold os_RemoveAll. rewrite Hk.
  destruct (fails fs SysRemoveAll _); [done|].
  destruct (extend k x).2 eqn:E; [done|]. clear E.
  destruct (resolve fs (extend k x)) as [n0| |] eqn:Hr; [| |done].
  - intros [= <-]. rewrite resolve_extend.
    destruct (resolve _ k) as [[]| |]; try done.
    cbn [nodes set_nodes].
    rewrite map_lookup_filter_None_2; [done|]. right. intros n' _ Hn. apply Hn.
    split; [done|]. cbn [fst snd]. done.
  - intros [= <-]. by rewrite Hr.
Qed.

(** After [Delete] of a whole artifact, the directory of its scope does not
    list its name. *)
Lemma Delete_all_unlists s fs fs' a u ss f :
  plain_elem f = true →
  Delete s {| del_AppName := a; del_UserID := u; del_SessionID := ss;
              del_FileName := f; del_Version := 0 |} fs = (None, fs') →
  ¬ lists fs' (scope_dir s a u ss f) f.
Proof.
  intros Hf. unfold Delete. destruct (negb _); [done|].
  cbn [del_Version del_AppName del_UserID del_SessionID del_FileName].
  change (negb (0 =? 0)) with false. cbn iota.
  destruct (os_RemoveAll _ fs) as [[e|] fs1] eqn:HR; [done|].
  intros [= <-] [_ Hl].
  eapply os_RemoveAll_gone in HR; [by apply HR|].
  fold (artifact_dir s a u ss f). by apply artifact_dir_scope.
Qed.

(** ** Trees *)

Lemma tree_resolve_parent fs k x n :
  tree fs → nodes fs !! extend k x = Some n → resolve fs k = Found Directory.
Proof.
  intros Ht. destruct k as [r L]. revert x n.
  induction L as [|y L IH] using rev_ind; intros x n Hn; [done|].
  destruct (Ht _ _ _ Hn) as [Hnil|Hd].
  { cbn in Hnil. by destruct L. }
  change (r, L ++ [y]) with (extend (r, L) y) in *.
  rewrite resolve_extend, (IH _ _ Hd). by rewrite Hd.
Qed.

Lemma tree_has_version fs dir w :
  tree fs → has_version fs dir w → resolve fs dir = Found Directory.
Proof. intros Ht (name & data & Hn & _). by eapply tree_resolve_parent. Qed.

Lemma tree_empty : tree empty_fs.
Proof. intros k x n H. cbn in H. by rewrite lookup_empty in H. Qed.

Lemma is_tree_spec fs : is_tree fs = true → tree fs.
Proof.
  unfold is_tree. intros H k x n Hn. rewrite forallb_forall in H.
  specialize (H (extend k x, n)).
  assert (parent_ok fs (extend k x) = true) as Hp.
  { apply H. apply list_elem_of_In. by apply elem_of_map_to_list. }
  unfold parent_ok in Hp. rewrite parent_extend in Hp.
  destruct k.2; [by left|]. right.
  by destruct (nodes fs !! k) as [[]|].
Qed.

(** ** The order of the versions listed *)

Lemma NoDup_omap {A B} (f : A → option B) (l : list A) :
  NoDup l →
  (∀ x y v, x ∈ l → y ∈ l → f x = Some v → f y = Some v → x = y) →
  NoDup (omap f l).
Proof.
  induction 1 as [|x l Hx Hl IH]; intros Hinj; simpl; [constructor|].
  assert (NoDup (omap f l)) as Hrest.
  { apply IH. intros y z v Hy Hz. apply Hinj; by apply elem_of_cons; right. }
  destruct (f x) as [v|] eqn:Hfx; [|done]. constructor; [|done].
  intros (y & Hy & Hfy)%list_elem_of_omap.
  assert (x = y) as ->; [|done].
  eapply Hinj; [apply elem_of_cons; by left|apply elem_of_cons; by right|done|done].
Qed.

Lemma sorted_le_lt (l : list Z) :
  StronglySorted Z.le l → NoDup l → StronglySorted Z.lt l.
Proof.
  induction 1 as [|x l Hs IH Hall]; intros Hnd; [constructor|].
  apply NoDup_cons in Hnd as [Hx Hnd]. constructor; [by apply IH|].
  apply Forall_forall. intros y Hy.
  rewrite Forall_forall in Hall. specialize (Hall y Hy).
  assert (x ≠ y) by (by intros ->). lia.
Qed.

Lemma Versions_NoDup s req fs resp :
  Versions s req fs = inr resp →
  canonical fs (ver_dir s req) →
  NoDup (Versions_ resp).
Proof.
  unfold Versions. destruct (negb _); [done|].
  unfold os_ReadDir.
  change (path_key (buildDir s (ver_AppName req) (ver_UserID req)
                      (ver_SessionID req) (ver_FileName req)))
    with (ver_dir s req).
  destruct (fails fs SysReadDir _); [done|].
  destruct (resolve fs _) as [[]| |]; try done.
  destruct (length _ =? 0)%nat; [done|]. intros [= <-] Hcan. cbn [Versions_].
  rewrite !merge_sort_Permutation.
  set (k := ver_dir s req) in *.
  assert (∀ kn, kn ∈ map_to_list (children (nodes fs) k) →
                ∃ x, kn.1 = extend k x ∧ nodes fs !! extend k x = Some kn.2
                     ∧ entry_of k kn = {| Name := x; IsDir := is_dir kn.2 |}) as Hch.
  { intros [q n] Hin. apply elem_of_map_to_list in Hin.
    apply children_lookup_Some in Hin as (x & -> & Hm). exists x.
    split; [done|]. split; [done|]. unfold entry_of. cbn [fst snd].
    by rewrite child_name_extend. }
  apply NoDup_omap.
  - apply NoDup_fmap_2_strong; [|apply NoDup_map_to_list].
    intros [q1 n1] [q2 n2] H1 H2 E.
    destruct (Hch _ H1) as (x1 & Hq1 & Hn1 & He1).
    destruct (Hch _ H2) as (x2 & Hq2 & Hn2 & He2).
    cbn [fst snd] in *. rewrite He1, He2 in E. injection E as -> _.
    subst q1 q2. rewrite Hn1 in Hn2. by injection Hn2 as ->.
  - intros e1 e2 v H1 H2 Hv1 Hv2.
    apply list_elem_of_fmap in H1 as ([q1 n1] & -> & H1).
    apply list_elem_of_fmap in H2 as ([q2 n2] & -> & H2).
    destruct (Hch _ H1) as (x1 & Hq1 & Hn1 & He1).
    destruct (Hch _ H2) as (x2 & Hq2 & Hn2 & He2).
    cbn [fst snd] in *. rewrite He1, He2 in *.
    apply entry_version_Some in Hv1 as (Hd1 & Hs1 & Hp1).
    apply entry_version_Some in Hv2 as (Hd2 & Hs2 & Hp2).
    cbn [Name IsDir] in *.
    destruct n1 as [d1|]; [|done]. destruct n2 as [d2|]; [|done].
    rewrite (Hcan _ _ _ Hn1 Hs1 Hp1), (Hcan _ _ _ Hn2 Hs2 Hp2). done.
Qed.

(** ** A [Save] that allocates its version *)

Lemma Save_new_version s req part fs :
  SaveRequest_Validate req = true →
  save_Part req = Some part →
  save_Version req ≤ 0 →
  usable fs (save_dir s req) →
  tree fs →
  (∀ w, has_version fs (save_dir s req) w → w < MaxInt64) →
  ∃ v fs',
    Save s req fs = (inr {| Version := v |}, fs')
    ∧ is_int64 v = true
    ∧ (∀ w, has_version fs (save_dir s req) w → w < v)
    ∧ usable fs' (save_dir s req)
    ∧ resolve fs' (save_dir s req) = Found Directory
    ∧ nodes fs' !! extend (save_dir s req) (Sprintf_d v)
      = Some (File (stored_bytes part))
    ∧ nodes fs' !! extend (save_dir s req) (Sprintf_d v +:+ ".meta")
      = Some (File (list_byte_of_string (stored_type part)))
    ∧ ∀ x, x ≠ Sprintf_d v → x ≠ Sprintf_d v +:+ ".meta" →
           nodes fs' !! extend (save_dir s req) x
           = nodes fs !! extend (save_dir s req) x.
Proof.
  intros Hv Hp Hver Hu Ht Hmax.
  destruct (Save_ok s req part fs Hv Hp Hu) as (fs' & HS & Hu' & Hr' & Hd & Hm & Hother).
  exists (nextVersion s req fs), fs'. split; [done|].
  assert (is_int64 (nextVersion s req fs) = true
          ∧ ∀ w, has_version fs (save_dir s req) w → w < nextVersion s req fs)
    as [Hint Hlt]; [|done].
  set (vreq := {| ver_AppName := save_AppName req; ver_UserID := save_UserID req;
                  ver_SessionID := save_SessionID req;
                  ver_FileName := save_FileName req |}).
  pose proof (save_versions_valid req Hv) as Hvv. fold vreq in Hvv.
  destruct Hu as (Hq & Hfree & _).
  assert (ver_dir s vreq = save_dir s req) as Hdir by done.
  destruct (resolve_dir_free _ _ Hfree) as [Hr|Hr].
  - destruct (Versions_Found s vreq fs Hvv (Hq _ _)) as (l & Hl & _ & HV).
    { by rewrite Hdir. }
    rewrite Hdir in Hl.
    destruct l as [|x l].
    + rewrite nextVersion_fresh; [|done|].
      * split; [done|]. intros w Hw%Hl. by apply elem_of_nil in Hw.
      * intros w Hw%Hl. by apply elem_of_nil in Hw.
    + set (M := slices_Max (x :: l)).
      assert (M ∈ x :: l) as HM by (by apply slices_Max_elem).
      assert (has_version fs (save_dir s req) M) as HMv by (by apply Hl).
      pose proof (has_version_int64 _ _ _ HMv) as HMi.
      apply is_int64_spec in HMi. pose proof (Hmax _ HMv) as HMm.
      rewrite (nextVersion_max s req fs M); try done.
      * rewrite wrap64_small.
        -- split; [apply is_int64_spec; unfold MinInt64, MaxInt64 in *; lia|].
           intros w Hw%Hl. apply slices_Max_upper in Hw. fold M in Hw. lia.
        -- apply is_int64_spec. unfold MinInt64, MaxInt64 in *. lia.
      * intros w Hw%Hl. by apply slices_Max_upper.
  - assert (∀ w, ¬ has_version fs (save_dir s req) w) as Hnone.
    { intros w Hw. apply (tree_has_version _ _ _ Ht) in Hw. congruence. }
    rewrite nextVersion_fresh by done. split; [done|]. intros w Hw. by apply Hnone in Hw.
Qed.

(** [Load] of an explicit version reads two names. *)
Lemma Load_version_ext s req fs1 fs2 :
  load_Version req ≠ 0 →
  (∀ k, fails fs1 SysReadFile k = fails fs2 SysReadFile k) →
  resolve fs1 (extend (load_dir s req) (Sprintf_d (load_Version req)))
  = resolve fs2 (extend (load_dir s req) (Sprintf_d (load_Version req))) →
  resolve fs1 (extend (load_dir s req) (Sprintf_d (load_Version req) +:+ ".meta"))
  = resolve fs2 (extend (load_dir s req) (Sprintf_d (load_Version req) +:+ ".meta")) →
  Load s req fs1 = Load s req fs2.
Proof.
  intros HV Hf H1 H2. unfold Load. destruct (negb _); [done|].
  unfold loadVersion. apply Z.eqb_neq in HV. rewrite HV.
  unfold os_ReadFile. rewrite buildPath_key, buildPath_meta_key.
  fold (load_dir s req). by rewrite !Hf, H1, H2.
Qed.

(** The entries of the directory of an artifact that a [Save] leaves alone
    resolve as before. *)
Lemma resolve_entry_kept fs fs' dir x :
  tree fs → dir_free fs dir →
  resolve fs' dir = Found Directory →
  nodes fs' !! extend dir x = nodes fs !! extend dir x →
  resolve fs' (extend dir x) = resolve fs (extend dir x).
Proof.
  intros Ht Hfree Hr' Hx. rewrite !resolve_extend, Hr', Hx.
  destruct (resolve_dir_free _ _ Hfree) as [Hr|Hr]; rewrite Hr; [done|].
  destruct (nodes fs !! extend dir x) as [n|] eqn:E; [|done].
  apply (tree_resolve_parent _ _ _ _ Ht) in E. congruence.
Qed.

Lemma length_append s t :
  String.length (s +:+ t) = (String.length s + String.length t)%nat.
Proof.
  induction s as [|c s IH]; [by rewrite append_empty_l|].
  rewrite append_String. cbn [String.length]. by rewrite IH.
Qed.

Lemma append_inj_r s s' t : s +:+ t = s' +:+ t → s = s'.
Proof.
  revert s'. induction s as [|c s IH]; intros [|c' s'] E.
  - done.
  - apply (f_equal String.length) in E.
    rewrite append_empty_l, append_String in E. cbn [String.length] in E.
    rewrite length_append in E. lia.
  - apply (f_equal String.length) in E.
    rewrite append_empty_l, append_String in E. cbn [String.length] in E.
    rewrite length_append in E. lia.
  - rewrite !append_String in E. injection E as -> E. f_equal. by apply IH.
Qed.

Lemma load_of_valid req v :
  SaveRequest_Validate req = true → LoadRequest_Validate (load_of req v) = true.
Proof.
  unfold SaveRequest_Validate, LoadRequest_Validate. cbn.
  by intros [? _]%andb_true_iff.
Qed.

(** A version is listed exactly when it is stored, in a tree. *)
Lemma Versions_has_version s req fs w :
  VersionsRequest_Validate req = true →
  quiet fs → tree fs →
  has_version fs (ver_dir s req) w
  ↔ ∃ old, Versions s req fs = inr old ∧ w ∈ Versions_ old.
Proof.
  intros Hv Hq Ht. split.
  - intros Hw. pose proof (tree_has_version _ _ _ Ht Hw) as Hr.
    destruct (Versions_Found s req fs Hv (Hq _ _) Hr) as (l & Hl & _ & HV).
    apply Hl in Hw. destruct l as [|x l]; [by apply elem_of_nil in Hw|].
    by exists {| Versions_ := x :: l |}.
  - intros (old & HV & Hw). by apply (Versions_inr _ _ _ _ HV).
Qed.

(** ** Directories created on the way *)

Lemma tree_resolve_node fs k x n :
  tree fs → nodes fs !! extend k x = Some n → resolve fs (extend k x) = Found n.
Proof.
  intros Ht Hn. rewrite resolve_extend, (tree_resolve_parent _ _ _ _ Ht Hn).
  by rewrite Hn.
Qed.

(** When the only nodes added to a tree are directories on the way to
    [dir], a name resolves as before, unless it is one of these
    directories. *)
Lemma resolve_created fs fs' (dir K : pathkey) :
  tree fs →
  (∀ P, P `prefix_of` K.2 →
        nodes fs' !! (K.1, P) = nodes fs !! (K.1, P)
        ∨ (nodes fs !! (K.1, P) = None
           ∧ nodes fs' !! (K.1, P) = Some Directory
           ∧ K.1 = dir.1 ∧ P `prefix_of` dir.2)) →
  resolve fs' K = resolve fs K
  ∨ (resolve fs K = NoEnt ∧ resolve fs' K = Found Directory
     ∧ K.1 = dir.1 ∧ K.2 `prefix_of` dir.2).
Proof.
  intros Ht. destruct K as [r L]. cbn [fst snd].
  induction L as [|y L IH] using rev_ind; intros HF; [by left|].
  change (r, L ++ [y]) with (extend (r, L) y).
  rewrite !resolve_extend.
  destruct IH as [IH|(IH1 & IH2 & IH3 & IH4)].
  { intros P HP. apply HF. by apply prefix_app_r. }
  - rewrite IH. destruct (resolve fs (r, L)) as [[]| |] eqn:Hr; try by left.
    destruct (HF (L ++ [y])) as [H|(H1 & H2 & H3 & H4)]; [done| |].
    + unfold extend. cbn [fst snd]. rewrite H. by left.
    + unfold extend. cbn [fst snd]. rewrite H1, H2. by right.
  - rewrite IH1, IH2.
    destruct (HF (L ++ [y])) as [H|(H1 & H2 & H3 & H4)]; [done| |].
    + unfold extend. cbn [fst snd]. rewrite H.
      destruct (nodes fs !! (r, L ++ [y])) as [n|] eqn:E; [|by left].
      change (r, L ++ [y]) with (extend (r, L) y) in E.
      apply (tree_resolve_parent _ _ _ _ Ht) in E. congruence.
    + unfold extend. cbn [fst snd]. rewrite H2. by right.
Qed.

Lemma os_ReadDir_resolved name fs1 fs2 :
  fails fs1 SysReadDir (path_key name) = fails fs2 SysReadDir (path_key name) →
  resolve fs1 (path_key name) = resolve fs2 (path_key name) →
  (∀ x, nodes fs1 !! extend (path_key name) x = nodes fs2 !! extend (path_key name) x) →
  os_ReadDir name fs1 = os_ReadDir name fs2.
Proof.
  intros Hf Hr Hc. unfold os_ReadDir. rewrite Hf, Hr.
  by rewrite (children_ext (nodes fs1) (nodes fs2)).
Qed.

Lemma os_ReadFile_resolved name fs1 fs2 :
  fails fs1 SysReadFile (path_key name) = fails fs2 SysReadFile (path_key name) →
  resolve fs1 (path_key name) = resolve fs2 (path_key name) →
  os_ReadFile name fs1 = os_ReadFile name fs2.
Proof. intros Hf Hr. unfold os_ReadFile. by rewrite Hf, Hr. Qed.

(** [Versions] and [Load] read the directory of the artifact and the
    entries in it. *)
Lemma Versions_resolved s req fs1 fs2 :
  fails fs1 SysReadDir (ver_dir s req) = fails fs2 SysReadDir (ver_dir s req) →
  resolve fs1 (ver_dir s req) = resolve fs2 (ver_dir s req) →
  (∀ x, nodes fs1 !! extend (ver_dir s req) x = nodes fs2 !! extend (ver_dir s req) x) →
  Versions s req fs1 = Versions s req fs2.
Proof.
  intros Hf Hr Hc. unfold Versions. by rewrite (os_ReadDir_resolved _ fs1 fs2).
Qed.

Lemma Load_resolved_eq s req fs1 fs2 :
  (∀ c k, fails fs1 c k = fails fs2 c k) →
  resolve fs1 (load_dir s req) = resolve fs2 (load_dir s req) →
  (∀ x, nodes fs1 !! extend (load_dir s req) x = nodes fs2 !! extend (load_dir s req) x) →
  Load s req fs1 = Load s req fs2.
Proof.
  intros Hf Hr Hc. unfold Load. destruct (negb _); [done|].
  assert (loadVersion s req fs1 = loadVersion s req fs2) as ->.
  { unfold loadVersion. destruct (load_Version req =? 0); [|done].
    by rewrite (Versions_resolved s _ fs1 fs2). }
  destruct (loadVersion s req fs2) as [e|v]; [done|].
  assert (∀ x, resolve fs1 (extend (load_dir s req) x)
               = resolve fs2 (extend (load_dir s req) x)) as Hx.
  { intros x. by rewrite !resolve_extend, Hr, Hc. }
  rewrite (os_ReadFile_resolved _ fs1 fs2).
  - rewrite (os_ReadFile_resolved (_ +:+ ".meta") fs1 fs2); [done|apply Hf|].
    rewrite buildPath_meta_key. apply Hx.
  - apply Hf.
  - rewrite buildPath_key. apply Hx.
Qed.

(** ** One artifact and the others *)

Lemma prefix_snoc_same_length {A} (l1 l2 : list A) x :
  l1 `prefix_of` l2 ++ [x] → length l1 = length l2 → l1 = l2.
Proof.
  intros [k Hk] Hlen. symmetry in Hk. by apply app_inj_1 in Hk as [? _].
Qed.

Lemma artifact_dir_differs s a u ss f a' u' ss' f' :
  plain_elem a = true → plain_elem u = true → plain_elem ss = true →
  plain_elem f = true →
  plain_elem a' = true → plain_elem u' = true → plain_elem ss' = true →
  plain_elem f' = true →
  (a', u', scope_elem ss' f', f') ≠ (a, u, scope_elem ss f, f) →
  (artifact_dir s a' u' ss' f').1 = (artifact_dir s a u ss f).1
  ∧ length (artifact_dir s a' u' ss' f').2 = length (artifact_dir s a u ss f).2
  ∧ (artifact_dir s a' u' ss' f').2 ≠ (artifact_dir s a u ss f).2.
Proof.
  intros Ha Hu Hs Hf Ha' Hu' Hs' Hf' Hne.
  rewrite !artifact_dir_elems by done. cbn [fst snd].
  split; [done|]. split; [by rewrite !length_app|].
  intros E%app_inv_head. injection E as -> -> E ->. by rewrite E in Hne.
Qed.

(** [Save] for one artifact leaves the directory of another artifact and
    the entries in it as they are. *)
Lemma Save_other_artifact s req fs (dirJ : pathkey) :
  tree fs →
  dirJ.1 = (save_dir s req).1 →
  length dirJ.2 = length (save_dir s req).2 →
  dirJ.2 ≠ (save_dir s req).2 →
  resolve (Save s req fs).2 dirJ = resolve fs dirJ
  ∧ ∀ x, nodes (Save s req fs).2 !! extend dirJ x = nodes fs !! extend dirJ x.
Proof.
  intros Ht H1 Hlen Hne.
  destruct (Save s req fs) as [res fs'] eqn:HS. cbn [snd].
  destruct (Save_frame_eq _ _ _ _ _ HS) as [_ Hframe].
  split.
  - destruct (resolve_created fs fs' (save_dir s req) dirJ Ht) as [H|(_ & _ & _ & H)];
      [|done|].
    + intros P HP. pose proof (prefix_length _ _ HP) as HPl.
      destruct (Hframe (dirJ.1, P)) as [H|(Ha & Hb & Hc & Hd)]; [| |by left|by right].
      * apply key_length_ne. unfold extend. cbn [fst snd]. rewrite length_app.
        cbn [length]. lia.
      * apply key_length_ne. unfold extend. cbn [fst snd]. rewrite length_app.
        cbn [length]. lia.
    + apply prefix_length_eq in H; [done|lia].
  - intros x.
    destruct (Hframe (extend dirJ x)) as [H|(_ & _ & _ & H)]; [| |done|].
    + unfold extend. rewrite H1. intros [= E%app_inj_tail]. by destruct E.
    + unfold extend. rewrite H1. intros [= E%app_inj_tail]. by destruct E.
    + apply prefix_length in H. unfold extend in H. cbn [snd] in H.
      rewrite length_app in H. cbn [length] in H. lia.
Qed.

Lemma os_RemoveAll_frame name fs :
  fails (os_RemoveAll name fs).2 = fails fs
  ∧ ∀ q, ¬ is_under (path_key name) q →
         nodes (os_RemoveAll name fs).2 !! q = nodes fs !! q.
Proof.
  unfold os_RemoveAll. destruct (fails fs SysRemoveAll _); [done|].
  destruct (path_key name).2 eqn:E; [done|]. clear E.
  destruct (resolve fs _) as [n| |]; try done.
  split; [done|]. intros q Hq. cbn [snd nodes set_nodes].
  destruct (nodes fs !! q) as [n'|] eqn:En.
  - by apply map_lookup_filter_Some_2.
  - apply map_lookup_filter_None_2. by left.
Qed.

(** [Delete] changes nothing outside the directory of the artifact. *)
Lemma Delete_frame s req fs :
  fails (Delete s req fs).2 = fails fs
  ∧ ∀ q, ¬ is_under (del_dir s req) q →
         nodes (Delete s req fs).2 !! q = nodes fs !! q.
Proof.
  destruct (decide (del_Version req = 0)) as [HV|HV].
  - unfold Delete. destruct (negb (DeleteRequest_Validate req)); [done|].
    rewrite HV. change (negb (0 =? 0)) with false. cbn iota.
    pose proof (os_RemoveAll_frame
                  (buildDir s (del_AppName req) (del_UserID req) (del_SessionID req)
                     (del_FileName req)) fs) as [Hf Hn].
    destruct (os_RemoveAll _ fs) as [[e|] fs1]; cbn [snd] in *; done.
  - destruct (Delete_version_frame s req fs HV) as [Hf Hn]. split; [done|].
    intros q Hq. apply Hn.
    + intros ->. apply Hq. split; [done|]. unfold extend. cbn [snd].
      by apply prefix_app_r.
    + intros ->. apply Hq. split; [done|]. unfold extend. cbn [snd].
      by apply prefix_app_r.
Qed.

Lemma Delete_other_artifact s req fs (dirJ : pathkey) :
  dirJ.1 = (del_dir s req).1 →
  length dirJ.2 = length (del_dir s req).2 →
  dirJ.2 ≠ (del_dir s req).2 →
  resolve (Delete s req fs).2 dirJ = resolve fs dirJ
  ∧ ∀ x, nodes (Delete s req fs).2 !! extend dirJ x = nodes fs !! extend dirJ x.
Proof.
  intros H1 Hlen Hne. destruct (Delete_frame s req fs) as [_ Hn]. split.
  - apply resolve_ext. intros P HP. apply Hn. intros [_ Hu]. cbn [snd] in Hu.
    apply Hne. symmetry. apply prefix_length_eq.
    + by trans P.
    + lia.
  - intros x. apply Hn. intros [_ Hu]. unfold extend in Hu. cbn [snd] in Hu.
    apply prefix_snoc_same_length in Hu; [|done]. by apply Hne.
Qed.

(** ** Paths in their cleaned form *)

Lemma Join_render elem :
  filepath_Join elem ≠ "" →
  filepath_Join elem
  = render (path_key (filepath_Join elem)).1 (path_key (filepath_Join elem)).2.
Proof.
  induction elem as [|e l IH]; [done|]. cbn [filepath_Join].
  destruct (decide (e = "")); [done|]. intros _.
  by rewrite path_key_Clean, Clean_render.
Qed.

Lemma Join_nonempty e l : e ≠ "" → filepath_Join (e :: l) ≠ "".
Proof.
  intros He. cbn [filepath_Join]. rewrite decide_False by done.
  rewrite Clean_render. unfold render.
  destruct (path_key _).1.
  - by rewrite append_String.
  - destruct (path_key _).2 as [|x [|y L]] eqn:E; [done| |].
    + cbn. intros ->.
      pose proof (path_key_stack (JoinSep (e :: l))) as Hst. rewrite E in Hst.
      by apply clean_stack_head in Hst as [? _].
    + rewrite JoinSep_cons. intros Hx.
      pose proof (path_key_stack (JoinSep (e :: l))) as Hst. rewrite E in Hst.
      apply clean_stack_head in Hst as [Hne _].
      destruct x; [done|]. by rewrite append_String in Hx.
Qed.

Lemma Dir_render p :
  filepath_Dir p
  = render (path_key (filepath_Dir p)).1 (path_key (filepath_Dir p)).2.
Proof.
  unfold filepath_Dir. destruct (removelast (Split p));
    by rewrite path_key_Clean, Clean_render.
Qed.

Lemma buildDir_nonempty s a u ss f : a ≠ "" → buildDir s a u ss f ≠ "".
Proof.
  intros Ha. unfold buildDir.
  destruct (fileHasUserNamespace f);
    (destruct (decide (rootDir s = "")) as [Hr|Hr];
     [rewrite Hr; change (filepath_Join ("" :: ?l)) with (filepath_Join l);
      by apply Join_nonempty
     |by apply Join_nonempty]).
Qed.

(** The directory of a version file is the directory of the artifact, and
    the version file is the entry of that directory named by the version. *)
Lemma buildPath_buildDir s a u ss f v :
  a ≠ "" →
  filepath_Dir (buildPath s a u ss f v) = buildDir s a u ss f
  ∧ buildPath s a u ss f v = filepath_Join [buildDir s a u ss f; Sprintf_d v].
Proof.
  intros Ha. split.
  - rewrite Dir_render, buildPath_Dir_key. unfold artifact_dir.
    pose proof (buildDir_nonempty s a u ss f Ha) as Hne.
    unfold buildDir in *. destruct (fileHasUserNamespace f); by rewrite <- Join_render.
  - change [buildDir s a u ss f; Sprintf_d v]
      with ([buildDir s a u ss f] ++ [Sprintf_d v]).
    rewrite Join_snoc by apply Sprintf_d_plain.
    assert (path_key (filepath_Join [buildDir s a u ss f])
            = path_key (buildDir s a u ss f)) as ->.
    { cbn [filepath_Join]. destruct (decide (buildDir s a u ss f = "")) as [->|_];
        [done|]. change (JoinSep [?x]) with x. apply path_key_Clean. }
    unfold buildPath, buildDir. destruct (fileHasUserNamespace f).
    + pose proof (Join_snoc [rootDir s; a; u; "user"; f] _ (Sprintf_d_plain v)) as H.
      cbn [app] in H. by rewrite H.
    + pose proof (Join_snoc [rootDir s; a; u; ss; f] _ (Sprintf_d_plain v)) as H.
      cbn [app] in H. by rewrite H.
Qed.

(** ** User-scoped names and sessions *)

Lemma Load_user_scope s a u ss ss' f v fs :
  fileHasUserNamespace f = true →
  present ss = present ss' →
  Load s {| load_AppName := a; load_UserID := u; load_SessionID := ss;
            load_FileName := f; load_Version := v |} fs
  = Load s {| load_AppName := a; load_UserID := u; load_SessionID := ss';
              load_FileName := f; load_Version := v |} fs.
Proof.
  intros Hf Hp. unfold Load, LoadRequest_Validate, loadVersion, Versions,
    VersionsRequest_Validate, buildPath, buildDir.
  cbn [load_AppName load_UserID load_SessionID load_FileName load_Version
       ver_AppName ver_UserID ver_SessionID ver_FileName].
  by rewrite Hf, Hp.
Qed.

End FsMoreFacts.

Section S3MoreFacts.
Import S3Artifact.

(** ** Keys and their segments *)

Lemma HasPrefix_inv s p : HasPrefix s p = true → ∃ t, s = p +:+ t.
Proof.
  unfold HasPrefix. revert s. induction p as [|c p IH]; intros s H.
  - exists s. by rewrite append_empty_l.
  - destruct s as [|c' s]; [done|]. simpl in H.
    destruct (ascii_dec c c') as [->|]; [|done].
    destruct (IH _ H) as [t ->]. exists t. by rewrite append_String.
Qed.

Lemma Split_sep_prefix X t :
  Split ((X +:+ String sep "") +:+ t) = Split X ++ Split t.
Proof.
  rewrite append_assoc. change (String sep "" +:+ t) with (String sep t).
  apply Split_app_sep.
Qed.

Lemma Split_two_segments key X :
  HasPrefix key (X +:+ String sep "") = true → (2 ≤ length (Split key))%nat.
Proof.
  intros [t ->]%HasPrefix_inv. rewrite Split_sep_prefix, length_app.
  pose proof (Split_nonempty X). pose proof (Split_nonempty t).
  destruct (Split X), (Split t); simpl; try done; lia.
Qed.

Lemma buildSessionPrefix_sep a u ss :
  buildSessionPrefix a u ss = (a +:+ "/" +:+ u +:+ "/" +:+ ss) +:+ String sep "".
Proof. unfold buildSessionPrefix. by rewrite !append_assoc. Qed.

Lemma buildUserPrefix_sep a u :
  buildUserPrefix a u = (a +:+ "/" +:+ u +:+ "/user") +:+ String sep "".
Proof. unfold buildUserPrefix. by rewrite !append_assoc. Qed.

Lemma buildKeyPrefix_scope a u ss f :
  buildKeyPrefix a u ss f = scope_prefix a u ss f +:+ f +:+ String sep "".
Proof.
  unfold buildKeyPrefix, scope_prefix, buildUserPrefix, buildSessionPrefix.
  destruct (fileHasUserNamespace f); by rewrite !append_assoc.
Qed.

Lemma HasPrefix_app_l s p t : HasPrefix s (p +:+ t) = true → HasPrefix s p = true.
Proof.
  intros [r ->]%HasPrefix_inv. rewrite append_assoc. apply HasPrefix_append.
Qed.

Lemma HasPrefix_scope a u ss f v :
  HasPrefix (buildKey a u ss f v) (scope_prefix a u ss f) = true.
Proof.
  rewrite buildKey_prefix, buildKeyPrefix_scope, !append_assoc.
  apply HasPrefix_append.
Qed.

Lemma key_filename_snoc X f y :
  no_sep f = true → no_sep y = true →
  key_filename (((X +:+ String sep "") +:+ f) +:+ String sep y) = f.
Proof.
  intros Hf Hy. unfold key_filename.
  rewrite Split_app_sep, Split_sep_prefix, (Split_no_sep f), (Split_no_sep y) by done.
  rewrite !length_app. cbn [length].
  replace (length (Split X) + 1 + 1 - 2)%nat with (length (Split X)) by lia.
  rewrite <- app_assoc. change ([f] ++ [y]) with (f :: [y]). by rewrite nth_middle.
Qed.

Lemma key_filename_built a u ss f v :
  no_sep f = true → key_filename (buildKey a u ss f v) = f.
Proof.
  intros Hf. rewrite buildKey_prefix, buildKeyPrefix_scope.
  assert (∃ X, scope_prefix a u ss f = X +:+ String sep "") as [X ->].
  { unfold scope_prefix. destruct (fileHasUserNamespace f); eexists;
      [apply buildUserPrefix_sep|apply buildSessionPrefix_sep]. }
  rewrite <- !append_assoc.
  rewrite (append_assoc _ (String sep "") (Sprintf_d v)).
  change (String sep "" +:+ Sprintf_d v) with (String sep (Sprintf_d v)).
  apply key_filename_snoc; [done|]. apply digits_no_sep, Sprintf_d_chars.
Qed.

Lemma append_inj_l p s t : p +:+ s = p +:+ t → s = t.
Proof.
  induction p as [|c p IH]; [by rewrite !append_empty_l|].
  rewrite !append_String. intros [= E]. by apply IH.
Qed.

(** ** The names [List] returns *)

Lemma collect_filenames_names (keys : list string) (set : gmap string bool) :
  (∀ key, key ∈ keys → (2 ≤ length (Split key))%nat) →
  ∃ set', collect_filenames keys set = (None, set')
          ∧ ∀ x, is_Some (set' !! x)
                 ↔ is_Some (set !! x) ∨ ∃ key, key ∈ keys ∧ key_filename key = x.
Proof.
  revert set. induction keys as [|key keys IH]; intros set Hlen.
  - exists set. split; [done|]. intros x. split; [by left|].
    intros [H|(key & Hk & _)]; [done|]. by apply elem_of_nil in Hk.
  - cbn [collect_filenames].
    assert (2 ≤ length (Split key))%nat as H2 by (apply Hlen, elem_of_cons; by left).
    apply Nat.ltb_ge in H2. rewrite H2.
    destruct (IH (<[key_filename key := true]> set)) as (set' & Hc & Hin).
    { intros k Hk. apply Hlen, elem_of_cons. by right. }
    exists set'. split; [exact Hc|]. intros x. rewrite Hin. split.
    + intros [H|(k & Hk & Hx)].
      * destruct (decide (key_filename key = x)) as [Hx|Hx].
        -- right. exists key. split; [apply elem_of_cons; by left|done].
        -- left. by rewrite lookup_insert_ne in H.
      * right. exists k. split; [apply elem_of_cons; by right|done].
    + intros [H|(k & Hk & Hx)].
      * left. destruct (decide (key_filename key = x)) as [->|Hx].
        -- rewrite lookup_insert_eq. by eexists.
        -- by rewrite lookup_insert_ne.
      * apply elem_of_cons in Hk as [->|Hk].
        -- left. rewrite Hx, lookup_insert_eq. by eexists.
        -- right. by exists k.
Qed.

Lemma fetchFilenames_names X (set : gmap string bool) b :
  fails b CallList (X +:+ String sep "") = false →
  ∃ set',
    fetchFilenamesFromPrefix (X +:+ String sep "") (Some set) b = (None, Some set')
    ∧ ∀ x, is_Some (set' !! x)
           ↔ is_Some (set !! x)
             ∨ ∃ key o, objects b !! key = Some o
                        ∧ HasPrefix key (X +:+ String sep "") = true
                        ∧ key_filename key = x.
Proof.
  intros Hf. unfold fetchFilenamesFromPrefix.
  destruct (bucket_List (X +:+ String sep "") b) as [c|keys] eqn:HL.
  { unfold bucket_List in HL. by rewrite Hf in HL. }
  pose proof (bucket_List_keys _ _ _ HL) as Hk.
  destruct (collect_filenames_names keys set) as (set' & -> & Hin).
  { intros key (o & _ & Hp)%Hk. by eapply Split_two_segments. }
  exists set'. split; [done|]. intros x. rewrite Hin. split.
  - intros [H|(key & Hkey & Hx)]; [by left|]. right.
    apply Hk in Hkey as (o & Hm & Hp). by exists key, o.
  - intros [H|(key & o & Hm & Hp & Hx)]; [by left|]. right.
    exists key. split; [|done]. apply Hk. by exists o.
Qed.

Lemma fetchFilenames_fails prefix (set : gmap string bool) b :
  fails b CallList prefix = true →
  fetchFilenamesFromPrefix prefix (Some set) b
  = (Some (StorageIOError "error iterating objects"), Some set).
Proof.
  intros Hf. unfold fetchFilenamesFromPrefix, bucket_List. by rewrite Hf.
Qed.

Lemma s3_List_names req b :
  ListRequest_Validate req = true →
  fails b CallList
    (buildSessionPrefix (list_AppName req) (list_UserID req) (list_SessionID req))
  = false →
  fails b CallList (buildUserPrefix (list_AppName req) (list_UserID req)) = false →
  ∃ names,
    List req b = inr {| FileNames := names |}
    ∧ StronglySorted String.le names
    ∧ NoDup names
    ∧ ∀ x, x ∈ names
           ↔ ∃ key o,
               objects b !! key = Some o
               ∧ (HasPrefix key (buildSessionPrefix (list_AppName req)
                                   (list_UserID req) (list_SessionID req)) = true
                  ∨ HasPrefix key (buildUserPrefix (list_AppName req)
                                     (list_UserID req)) = true)
               ∧ key_filename key = x.
Proof.
  intros Hv Hf1 Hf2. unfold List. rewrite Hv. cbn [negb].
  rewrite buildSessionPrefix_sep, buildUserPrefix_sep in *.
  destruct (fetchFilenames_names _ ∅ b Hf1) as (set1 & -> & H1).
  destruct (fetchFilenames_names _ set1 b Hf2) as (set2 & -> & H2).
  cbn [default]. eexists. split; [done|].
  destruct (sorted_keys_spec set2) as (HS & HN & Hin).
  split; [done|]. split; [done|]. intros x. rewrite Hin, H2, H1, lookup_empty. split.
  - intros [[[? H]|(key & o & Hm & Hp & Hx)]|(key & o & Hm & Hp & Hx)]; [done| |].
    + exists key, o. split; [done|]. split; [by left|done].
    + exists key, o. split; [done|]. split; [by right|done].
  - intros (key & o & Hm & [Hp|Hp] & Hx).
    + left. right. by exists key, o.
    + right. by exists key, o.
Qed.

Lemma s3_List_fails req b :
  ListRequest_Validate req = true →
  List req b
  = if fails b CallList (buildSessionPrefix (list_AppName req) (list_UserID req)
                           (list_SessionID req))
    then inl (StorageIOError "failed to fetch session filenames")
    else if fails b CallList (buildUserPrefix (list_AppName req) (list_UserID req))
    then inl (StorageIOError "failed to fetch user filenames")
    else List req b.
Proof.
  intros Hv.
  destruct (fails b CallList (buildSessionPrefix _ _ _)) eqn:Hf1.
  { unfold List. rewrite Hv. cbn [negb]. by rewrite fetchFilenames_fails. }
  destruct (fails b CallList (buildUserPrefix _ _)) eqn:Hf2; [|done].
  unfold List. rewrite Hv. cbn [negb].
  rewrite buildSessionPrefix_sep in *.
  destruct (fetchFilenames_names _ ∅ b Hf1) as (set1 & -> & _).
  by rewrite fetchFilenames_fails.
Qed.

(** ** What [Save] and [Delete] leave as it is *)

Lemma write_object_result key ct p msg b e b' :
  write_object key ct p msg b = (e, b') →
  fails b' = fails b ∧ detect b' = detect b
  ∧ match e with
    | Some _ => objects b' = objects b
    | None =>
        objects b'
        = <[key := {| body := p;
                      contentType := if decide (ct = "") then detect b p
                                     else media_type b ct |}]>
            (objects b)
    end.
Proof.
  unfold write_object, bucket_NewWriter, Writer_Write, Writer_Close.
  destruct (fails b CallNewWriter key); [by intros [= <- <-]|].
  destruct (decide (ct = "")).
  - cbn [w_key w_broken w_contentType w_written w_sniff].
    destruct (fails b CallWrite key); [by intros [= <- <-]|].
    cbn [w_key w_broken w_contentType w_written w_sniff].
    destruct (fails b CallCloseWriter key); by intros [= <- <-].
  - destruct (fails b CallParseMediaType ct); [by intros [= <- <-]|].
    cbn [w_key w_broken w_contentType w_written w_sniff].
    destruct (fails b CallWrite key); [by intros [= <- <-]|].
    cbn [w_key w_broken w_contentType w_written w_sniff].
    destruct (fails b CallCloseWriter key); by intros [= <- <-].
Qed.

Lemma s3_Save_result req b res b' :
  Save req b = (res, b') →
  fails b' = fails b ∧ detect b' = detect b
  ∧ match res with
    | inl _ => objects b' = objects b
    | inr resp =>
        SaveRequest_Validate req = true
        ∧ is_int64 (Version resp) = true
        ∧ ∃ part,
            save_Part req = Some part
            ∧ objects b'
              = <[buildKey (save_AppName req) (save_UserID req) (save_SessionID req)
                    (save_FileName req) (Version resp)
                  := {| body := stored_bytes part; contentType := kept_type b part |}]>
                  (objects b)
    end.
Proof.
  unfold Save. destruct (SaveRequest_Validate req) eqn:Hv; [|by intros [= <- <-]].
  cbn [negb]. destruct (save_Part req) as [part|] eqn:Hp; [|by intros [= <- <-]].
  destruct (versions _ b) as [e|resp]; [by intros [= <- <-]|].
  set (v := if (0 <? length (Versions_ resp))%nat then _ else 1).
  assert (is_int64 v = true) as Hvi by apply s3_next_int64.
  set (key := buildKey _ _ _ _ v).
  assert (∃ ct msg,
            match InlineData part with
            | Some inline => write_object key (MIMEType inline) (Data inline)
                               "failed to write data" b
            | None => write_object key "text/plain"
                        (list_byte_of_string (Text part)) "failed to write text" b
            end = write_object key ct (stored_bytes part) msg b
            ∧ (if decide (ct = "") then detect b (stored_bytes part)
               else media_type b ct)
              = kept_type b part) as (ct & msg & -> & Hct).
  { unfold kept_type, stored_type, stored_bytes.
    destruct (InlineData part) as [inline|].
    - by exists (MIMEType inline), "failed to write data".
    - by exists "text/plain", "failed to write text". }
  destruct (write_object key ct (stored_bytes part) msg b) as [err b1] eqn:HW.
  destruct (write_object_result _ _ _ _ _ _ _ HW) as (Hf & Hd & Ho).
  destruct err as [e|]; intros [= <- <-].
  - done.
  - split; [done|]. split; [done|]. split; [done|]. split; [done|].
    exists part. split; [done|]. by rewrite Ho, Hct.
Qed.

Lemma s3_Save_fails req b : fails (Save req b).2 = fails b.
Proof.
  destruct (Save req b) as [res b'] eqn:HS.
  by destruct (s3_Save_result _ _ _ _ HS).
Qed.

(** The listing of a prefix, after a key that is not under it was written
    or removed. *)
Lemma bucket_List_other prefix b b' :
  fails b' = fails b →
  (∀ key, HasPrefix key prefix = true → objects b' !! key = objects b !! key) →
  bucket_List prefix b' = bucket_List prefix b.
Proof.
  intros Hf Hk. unfold bucket_List. rewrite Hf.
  destruct (fails b CallList prefix); [done|].
  assert (filter (λ ko : string * object, HasPrefix ko.1 prefix = true) (objects b')
          = filter (λ ko : string * object, HasPrefix ko.1 prefix = true) (objects b))
    as ->; [|done].
  apply map_eq. intros key.
  destruct (HasPrefix key prefix) eqn:Hp.
  - destruct (objects b !! key) as [o|] eqn:E.
    + rewrite (map_lookup_filter_Some_2 _ _ key o); [|by rewrite <- Hk in E|done].
      symmetry. by apply map_lookup_filter_Some_2.
    + rewrite (map_lookup_filter_None_2 _ (objects b')); [|left; by rewrite Hk].
      symmetry. apply map_lookup_filter_None_2. by left.
  - rewrite !map_lookup_filter_None_2; [done| |].
    + right. intros o _. cbn [fst]. by rewrite Hp.
    + right. intros o _. cbn [fst]. by rewrite Hp.
Qed.

Lemma versions_other req b b' :
  fails b' = fails b →
  (∀ key, HasPrefix key (ver_prefix req) = true →
          objects b' !! key = objects b !! key) →
  versions req b' = versions req b.
Proof.
  intros Hf Hk. unfold versions. fold (ver_prefix req).
  by rewrite (bucket_List_other _ b b').
Qed.

Lemma Load_other req b b' :
  fails b' = fails b →
  (∀ key, HasPrefix key (buildKeyPrefix (load_AppName req) (load_UserID req)
                           (load_SessionID req) (load_FileName req)) = true →
          objects b' !! key = objects b !! key) →
  Load req b' = Load req b.
Proof.
  intros Hf Hk. unfold Load. destruct (negb _); [done|].
  assert (loadVersion req b' = loadVersion req b) as ->.
  { unfold loadVersion. destruct (load_Version req =? 0); [|done].
    by rewrite (versions_other _ b b'). }
  destruct (loadVersion req b) as [e|v]; [done|].
  unfold bucket_NewReader, io_ReadAll, Reader_Close. rewrite !Hf.
  by rewrite Hk by apply HasPrefix_built.
Qed.

Lemma Load_version_other req b b' :
  load_Version req ≠ 0 →
  fails b' = fails b →
  objects b' !! buildKey (load_AppName req) (load_UserID req) (load_SessionID req)
                  (load_FileName req) (load_Version req)
  = objects b !! buildKey (load_AppName req) (load_UserID req) (load_SessionID req)
                   (load_FileName req) (load_Version req) →
  Load req b' = Load req b.
Proof.
  intros HV Hf Hk. unfold Load. destruct (negb _); [done|].
  unfold loadVersion. apply Z.eqb_neq in HV. rewrite HV.
  unfold bucket_NewReader, io_ReadAll, Reader_Close. by rewrite !Hf, Hk.
Qed.

(** ** One artifact and the others *)

Lemma buildKeyPrefix_elems a u ss f t :
  buildKeyPrefix a u ss f +:+ t
  = a +:+ String sep (u +:+ String sep (scope_elem ss f +:+ String sep
        (f +:+ String sep t))).
Proof.
  unfold buildKeyPrefix, scope_elem, fileHasUserNamespace.
  destruct (HasPrefix f "user:"); by rewrite !append_assoc.
Qed.

Lemma buildKey_not_under a u ss f v a' u' ss' f' :
  no_sep a = true → no_sep u = true → no_sep ss = true → no_sep f = true →
  no_sep a' = true → no_sep u' = true → no_sep ss' = true → no_sep f' = true →
  (a', u', scope_elem ss' f', f') ≠ (a, u, scope_elem ss f, f) →
  HasPrefix (buildKey a u ss f v) (buildKeyPrefix a' u' ss' f') = false.
Proof.
  intros Ha Hu Hs Hf Ha' Hu' Hs' Hf' Hne.
  destruct (HasPrefix _ _) eqn:E; [|done]. exfalso. apply Hne.
  apply HasPrefix_inv in E as [t E].
  rewrite buildKey_prefix, !buildKeyPrefix_elems in E.
  apply append_sep_inj in E as [-> E]; [|done|done].
  apply append_sep_inj in E as [-> E]; [|done|done].
  apply append_sep_inj in E as [Hsc E]; [|by apply scope_elem_no_sep..].
  apply append_sep_inj in E as [-> E]; [|done|done].
  by rewrite Hsc.
Qed.

Lemma s3_Save_other req b a' u' ss' f' :
  no_sep (save_AppName req) = true → no_sep (save_UserID req) = true →
  no_sep (save_SessionID req) = true → no_sep (save_FileName req) = true →
  no_sep a' = true → no_sep u' = true → no_sep ss' = true → no_sep f' = true →
  (a', u', scope_elem ss' f', f')
  ≠ (save_AppName req, save_UserID req,
     scope_elem (save_SessionID req) (save_FileName req), save_FileName req) →
  fails (Save req b).2 = fails b
  ∧ ∀ key, HasPrefix key (buildKeyPrefix a' u' ss' f') = true →
           objects (Save req b).2 !! key = objects b !! key.
Proof.
  intros Ha Hu Hs Hf Ha' Hu' Hs' Hf' Hne.
  destruct (Save req b) as [res b1] eqn:HS. cbn [snd].
  destruct (s3_Save_result _ _ _ _ HS) as (Hfl & _ & Hres). split; [done|].
  intros key Hp. destruct res as [e|resp]; [by rewrite Hres|].
  destruct Hres as (_ & _ & part & _ & ->).
  rewrite lookup_insert_ne; [done|]. intros <-.
  by rewrite buildKey_not_under in Hp.
Qed.

Lemma bucket_Delete_frame key b :
  fails (bucket_Delete key b).2 = fails b
  ∧ detect (bucket_Delete key b).2 = detect b
  ∧ ∀ k, k ≠ key → objects (bucket_Delete key b).2 !! k = objects b !! k.
Proof.
  unfold bucket_Delete. destruct (fails b CallDelete key); [done|].
  destruct (objects b !! key); [|done].
  split; [done|]. split; [done|]. intros k Hk. cbn. by rewrite lookup_delete_ne.
Qed.

Lemma delete_all_frame a u ss f vs b :
  fails (delete_all a u ss f vs b).2 = fails b
  ∧ ∀ k, (∀ w, k ≠ buildKey a u ss f w) →
         objects (delete_all a u ss f vs b).2 !! k = objects b !! k.
Proof.
  revert b. induction vs as [|v vs IH]; intros b; [done|].
  cbn [delete_all]. unfold delete_version.
  destruct (bucket_Delete_frame (buildKey a u ss f v) b) as (Hf & _ & Hk).
  destruct (bucket_Delete _ b) as [[[]|] b1]; cbn [snd] in *.
  - destruct (IH b1) as [Hf' Hk']. split; [congruence|].
    intros k Hne. rewrite Hk' by done. by apply Hk.
  - split; [done|]. intros k Hne. by apply Hk.
  - destruct (IH b1) as [Hf' Hk']. split; [congruence|].
    intros k Hne. rewrite Hk' by done. by apply Hk.
Qed.

(** [Delete] changes no object other than those of the artifact. *)
Lemma s3_Delete_frame req b :
  fails (Delete req b).2 = fails b
  ∧ ∀ k, (∀ w, k ≠ buildKey (del_AppName req) (del_UserID req) (del_SessionID req)
                       (del_FileName req) w) →
         objects (Delete req b).2 !! k = objects b !! k.
Proof.
  unfold Delete. destruct (negb (DeleteRequest_Validate req)); [done|].
  destruct (negb (del_Version req =? 0)).
  - destruct (bucket_Delete_frame
                (buildKey (del_AppName req) (del_UserID req) (del_SessionID req)
                   (del_FileName req) (del_Version req)) b) as (Hf & _ & Hk).
    destruct (bucket_Delete _ b) as [[[]|] b1]; cbn [snd] in *;
      (split; [done|]; intros k Hne; by apply Hk).
  - destruct (versions _ b) as [e|resp]; [done|]. apply delete_all_frame.
Qed.

Lemma s3_Delete_other req b a' u' ss' f' :
  no_sep (del_AppName req) = true → no_sep (del_UserID req) = true →
  no_sep (del_SessionID req) = true → no_sep (del_FileName req) = true →
  no_sep a' = true → no_sep u' = true → no_sep ss' = true → no_sep f' = true →
  (a', u', scope_elem ss' f', f')
  ≠ (del_AppName req, del_UserID req,
     scope_elem (del_SessionID req) (del_FileName req), del_FileName req) →
  fails (Delete req b).2 = fails b
  ∧ ∀ key, HasPrefix key (buildKeyPrefix a' u' ss' f') = true →
           objects (Delete req b).2 !! key = objects b !! key.
Proof.
  intros Ha Hu Hs Hf Ha' Hu' Hs' Hf' Hne.
  destruct (s3_Delete_frame req b) as [Hfl Hk]. split; [done|].
  intros key Hp. apply Hk. intros w ->.
  by rewrite buildKey_not_under in Hp.
Qed.

(** ** User-scoped names and sessions *)

Lemma s3_Load_user_scope a u ss ss' f v b :
  fileHasUserNamespace f = true →
  present ss = present ss' →
  Load {| load_AppName := a; load_UserID := u; load_SessionID := ss;
          load_FileName := f; load_Version := v |} b
  = Load {| load_AppName := a; load_UserID := u; load_SessionID := ss';
            load_FileName := f; load_Version := v |} b.
Proof.
  intros Hf Hp. unfold Load, LoadRequest_Validate, loadVersion, versions,
    VersionsRequest_Validate, buildKey, buildKeyPrefix.
  cbn [load_AppName load_UserID load_SessionID load_FileName load_Version
       ver_AppName ver_UserID ver_SessionID ver_FileName].
  by rewrite Hf, Hp.
Qed.

(** ** The order of the versions listed *)

Lemma compare_append p s t : String.compare (p +:+ s) (p +:+ t) = String.compare s t.
Proof.
  induction p as [|c p IH]; [by rewrite !append_empty_l|].
  rewrite !append_String. cbn [String.compare].
  assert (Ascii.compare c c = Eq) as ->.
  { unfold Ascii.compare. by rewrite N.compare_refl. }
  exact IH.
Qed.

Lemma le_append p s t : String.le (p +:+ s) (p +:+ t) → String.le s t.
Proof. unfold String.le, String.leb. by rewrite compare_append. Qed.

Lemma sorted_omap {A B} (R : relation A) (R' : relation B) (f : A → option B)
    (l : list A) :
  (∀ x y a b, x ∈ l → y ∈ l → R x y → f x = Some a → f y = Some b → R' a b) →
  StronglySorted R l → StronglySorted R' (omap f l).
Proof.
  intros Hf. induction 1 as [|x l Hs IH Hall]; simpl; [constructor|].
  assert (StronglySorted R' (omap f l)) as Hrest.
  { apply IH. intros y z a b Hy Hz. apply Hf; apply elem_of_cons; by right. }
  destruct (f x) as [a|] eqn:Hfx; [|done]. constructor; [done|].
  apply Forall_forall. intros b (y & Hy & Hfy)%list_elem_of_omap.
  rewrite Forall_forall in Hall.
  apply (Hf x y); [apply elem_of_cons; by left|apply elem_of_cons; by right| |done|done].
  by apply Hall.
Qed.

Lemma versions_order req b resp :
  versions req b = inr resp →
  canonical b (ver_prefix req) →
  NoDup (Versions_ resp)
  ∧ StronglySorted (λ v w, String.le (Sprintf_d v) (Sprintf_d w)) (Versions_ resp).
Proof.
  unfold versions. destruct (negb _); [done|]. fold (ver_prefix req).
  destruct (bucket_List (ver_prefix req) b) as [c|keys] eqn:HL; [done|].
  intros [= <-] Hcan. cbn [Versions_].
  pose proof (bucket_List_keys _ _ _ HL) as Hk.
  assert (∀ key v, key ∈ keys → key_version key = Some v →
                   key = ver_prefix req +:+ Sprintf_d v) as Hform.
  { intros key v (o & Hm & Hp)%Hk Hv. by eapply Hcan. }
  unfold bucket_List in HL. destruct (fails b CallList _); [done|].
  injection HL as <-. split.
  - apply NoDup_omap.
    + rewrite merge_sort_Permutation. apply NoDup_fst_map_to_list.
    + intros x y v Hx Hy Hvx Hvy.
      by rewrite (Hform _ _ Hx Hvx), (Hform _ _ Hy Hvy).
  - apply (sorted_omap String.le).
    + intros x y v w Hx Hy Hle Hvx Hvy.
      rewrite (Hform _ _ Hx Hvx), (Hform _ _ Hy Hvy) in Hle. by apply le_append in Hle.
    + apply StronglySorted_merge_sort; apply _.
Qed.

(** ** A [Save] on a bucket without faults *)

Lemma s3_Save_new_version req part b :
  SaveRequest_Validate req = true →
  save_Part req = Some part →
  quiet b →
  (∀ w, has_version b (save_prefix req) w → w < MaxInt64) →
  ∃ v,
    Save req b
    = (inr {| Version := v |},
       set_objects b
         (<[buildKey (save_AppName req) (save_UserID req) (save_SessionID req)
              (save_FileName req) v
            := {| body := stored_bytes part; contentType := kept_type b part |}]>
            (objects b)))
    ∧ is_int64 v = true
    ∧ (∀ w, has_version b (save_prefix req) w → w < v)
    ∧ ((∀ w, has_version b (save_prefix req) w → 0 ≤ w) → 1 ≤ v).
Proof.
  intros Hv Hp Hq Hmax.
  destruct (s3_Save_ok req part b Hv Hp Hq) as (l & v & Hel & Hvdef & HS).
  exists v. split; [done|]. split; [subst v; apply s3_next_int64|].
  destruct l as [|x l].
  - cbn in Hvdef. subst v. split.
    + intros w Hw%Hel. by apply elem_of_nil in Hw.
    + done.
  - change (0 <? length (x :: l))%nat with true in Hvdef. cbn iota in Hvdef.
    set (M := slices_Max (x :: l)) in *.
    assert (M ∈ x :: l) as HM by (by apply slices_Max_elem).
    assert (has_version b (save_prefix req) M) as HMv by (by apply Hel).
    pose proof (Hmax _ HMv) as HMm.
    destruct HMv as (key & o & _ & _ & HMi%key_version_int64).
    apply is_int64_spec in HMi.
    rewrite wrap64_small in Hvdef
      by (apply is_int64_spec; unfold MinInt64, MaxInt64 in *; lia).
    subst v. split.
    + intros w Hw%Hel. apply slices_Max_upper in Hw. fold M in Hw. lia.
    + intros Hpos. assert (0 ≤ M); [|lia]. apply Hpos, Hel, HM.
Qed.

Lemma s3_load_of_valid req v :
  SaveRequest_Validate req = true → LoadRequest_Validate (load_of req v) = true.
Proof.
  unfold SaveRequest_Validate, LoadRequest_Validate. cbn.
  by intros [? _]%andb_true_iff.
Qed.

End S3MoreFacts.

(* ===================================================================== *)
(** * Part III: the properties of the specification                       *)
(* ===================================================================== *)

(** C1, on the code: the object store back end does not read the explicit
    version of a request.  Saving with version 5 into an empty bucket returns
    version 1, where the file system back end returns 5. *)
Theorem s3_save_ignores_explicit_version :
  (S3Artifact.Save (notes_save "hello" 5) S3Artifact.empty_bucket).1
  = inr {| S3Artifact.Version := 1 |}
  ∧ (FsArtifact.Save root_service (notes_save "hello" 5) FsArtifact.empty_fs).1
    = inr {| FsArtifact.Version := 5 |}.
Proof. split; vm_compute; reflexivity. Qed.

(** C2, on the code: the object store back end returns the versions in the
    order of the keys, which is not the order of the numbers.  After ten
    saves [Versions] answers 1, 10, 2, ..., 9. *)
Theorem s3_versions_in_key_order :
  S3Artifact.Versions notes_versions
    (S3Artifact.save_each "app" "u1" "s1" "notes.txt"
       (replicate 10 (text_part "x")) S3Artifact.empty_bucket).2
  = inr {| S3Artifact.Versions_ := [1; 10; 2; 3; 4; 5; 6; 7; 8; 9] |}.
Proof. vm_compute. reflexivity. Qed.

(** C3 as stated fails on the object store.  The blob library does not keep
    the content type of a writer as it is given, it keeps what
    [mime.FormatMediaType] writes for it: an image saved with the MIME type
    ["IMAGE/PNG"] is loaded with the content type ["image/png"]. *)
Lemma content_type_not_kept :
  SaveRequest_Validate shouting_save = true
  ∧ stored_type shouting_part = "IMAGE/PNG"
  ∧ ∃ resp b',
      S3Artifact.Save shouting_save S3Artifact.empty_bucket = (inr resp, b')
      ∧ S3Artifact.Load (notes_load (S3Artifact.Version resp)) b'
        = inr {| S3Artifact.LoadedPart :=
                   NewPartFromBytes (list_byte_of_string "PNG") "image/png" |}
      ∧ S3Artifact.Load (notes_load (S3Artifact.Version resp)) b'
        ≠ inr {| S3Artifact.LoadedPart :=
                   NewPartFromBytes (stored_bytes shouting_part)
                     (stored_type shouting_part) |}.
Proof.
  split; [reflexivity|]. split; [reflexivity|].
  eexists _, _. split; [vm_compute; reflexivity|]. split.
  - vm_compute. reflexivity.
  - vm_compute. discriminate.
Qed.

(** C3, amended: on a usable container of the file system, and on a bucket
    without faults, [Save] succeeds and [Load] of the version it returns
    gives back the bytes of the part.  On the file system the content type
    is that of the part: the MIME type of an inline part, [text/plain] for a
    text part ([stored_type]).  On the bucket it is the type the blob
    library keeps for the part ([kept_type]): the type of the part as
    [mime.FormatMediaType] writes it, or the type detected from the bytes
    when the part has none; it is the type of the part when that is in the
    form the library writes (without parameters, in lower case, without
    white space around it), and [text/plain] for a text part. *)
Theorem save_then_load (s : FsArtifact.fsService) (fs : FsArtifact.FS)
    (b : S3Artifact.Bucket) (req : SaveRequest) (part : Part) :
  SaveRequest_Validate req = true →
  save_Part req = Some part →
  FsArtifact.usable fs (FsArtifact.save_dir s req) →
  S3Artifact.quiet b →
  (∃ resp fs',
      FsArtifact.Save s req fs = (inr resp, fs')
      ∧ FsArtifact.Load s
          {| load_AppName := save_AppName req; load_UserID := save_UserID req;
             load_SessionID := save_SessionID req;
             load_FileName := save_FileName req;
             load_Version := FsArtifact.Version resp |} fs'
        = inr {| FsArtifact.LoadedPart :=
                   NewPartFromBytes (stored_bytes part) (stored_type part) |})
  ∧ (∃ resp b',
        S3Artifact.Save req b = (inr resp, b')
        ∧ S3Artifact.Load
            {| load_AppName := save_AppName req; load_UserID := save_UserID req;
               load_SessionID := save_SessionID req;
               load_FileName := save_FileName req;
               load_Version := S3Artifact.Version resp |} b'
          = inr {| S3Artifact.LoadedPart :=
                     NewPartFromBytes (stored_bytes part)
                       (S3Artifact.kept_type b part) |})
  ∧ (canonical_type (stored_type part) = true →
     S3Artifact.kept_type b part = stored_type part)
  ∧ (InlineData part = None → S3Artifact.kept_type b part = "text/plain").
Proof.
  intros Hv Hp Hu Hq. split; [by apply fs_save_load|].
  split; [by apply s3_save_load|]. split.
  - by apply kept_type_canonical.
  - intros Hnone.
    assert (stored_type part = "text/plain") as Ht
      by (unfold stored_type; by rewrite Hnone).
    rewrite <- Ht. apply kept_type_canonical. by rewrite Ht.
Qed.

Lemma save_then_load_witness :
  (∃ resp fs',
      FsArtifact.Save root_service image_save FsArtifact.empty_fs = (inr resp, fs')
      ∧ FsArtifact.Load root_service (notes_load (FsArtifact.Version resp)) fs'
        = inr {| FsArtifact.LoadedPart :=
                   NewPartFromBytes (list_byte_of_string "PNG") "image/png" |})
  ∧ (∃ resp b',
        S3Artifact.Save image_save S3Artifact.empty_bucket = (inr resp, b')
        ∧ S3Artifact.Load (notes_load (S3Artifact.Version resp)) b'
          = inr {| S3Artifact.LoadedPart :=
                     NewPartFromBytes (list_byte_of_string "PNG")
                       (S3Artifact.kept_type S3Artifact.empty_bucket
                          {| Text := "";
                             InlineData := Some {| Data := list_byte_of_string "PNG";
                                                   MIMEType := "image/png" |} |}) |})
  ∧ S3Artifact.kept_type S3Artifact.empty_bucket
      {| Text := "";
         InlineData := Some {| Data := list_byte_of_string "PNG";
                               MIMEType := "image/png" |} |}
    = "image/png".
Proof.
  destruct (save_then_load root_service FsArtifact.empty_fs S3Artifact.empty_bucket
              image_save
              {| Text := "";
                 InlineData := Some {| Data := list_byte_of_string "PNG";
                                       MIMEType := "image/png" |} |})
    as (H1 & H2 & H3 & _).
  - reflexivity.
  - reflexivity.
  - apply fs_usable_empty.
  - apply s3_quiet_empty.
  - split; [exact H1|]. split; [exact H2|]. apply H3. reflexivity.
Defined.

(** C4: for an artifact without stored versions, [Save] called n times in a
    row without an explicit version succeeds each time and returns 1, 2, ...,
    n, on both back ends (n is at most the largest [int64]). *)
Theorem saves_number_from_one (s : FsArtifact.fsService) (fs : FsArtifact.FS)
    (b : S3Artifact.Bucket) (a u ss f : string) (parts : list Part) :
  valid_identity a u ss f = true →
  Z.of_nat (length parts) ≤ MaxInt64 →
  FsArtifact.usable fs (FsArtifact.artifact_dir s a u ss f) →
  (∀ w, ¬ FsArtifact.has_version fs (FsArtifact.artifact_dir s a u ss f) w) →
  S3Artifact.quiet b →
  (∀ w, ¬ S3Artifact.has_version b (S3Artifact.buildKeyPrefix a u ss f) w) →
  (FsArtifact.save_each s a u ss f parts fs).1 = seqZ 1 (Z.of_nat (length parts))
  ∧ (S3Artifact.save_each a u ss f parts b).1 = seqZ 1 (Z.of_nat (length parts)).
Proof.
  intros Hid Hlen Hu Hfresh Hq Hfresh'. split.
  - by apply fs_save_each_fresh.
  - by apply s3_save_each_fresh.
Qed.

Lemma saves_number_from_one_witness :
  (FsArtifact.save_each root_service "app" "u1" "s1" "notes.txt"
     [text_part "hello"; text_part "world"; text_part "again"]
     FsArtifact.empty_fs).1 = [1; 2; 3]
  ∧ (S3Artifact.save_each "app" "u1" "s1" "notes.txt"
       [text_part "hello"; text_part "world"; text_part "again"]
       S3Artifact.empty_bucket).1 = [1; 2; 3].
Proof.
  apply (saves_number_from_one root_service FsArtifact.empty_fs
           S3Artifact.empty_bucket "app" "u1" "s1" "notes.txt"
           [text_part "hello"; text_part "world"; text_part "again"]).
  - reflexivity.
  - vm_compute. discriminate.
  - apply fs_usable_empty.
  - apply fs_no_version_empty.
  - apply s3_quiet_empty.
  - apply s3_no_version_empty.
Defined.

(** C5: on stores without faults that hold the names [Save] gives, with V a
    version other than 0, [Delete] of V succeeds and a following [Versions]
    lists the versions listed before without V (it reports not-found when
    none is left); [Delete] of version 0 succeeds and a following [Versions]
    or [Load] reports not-found (on the file system the file name is a plain
    path element, so that the artifact has a directory of its own). *)
Theorem delete_removes_versions (s : FsArtifact.fsService) (fs : FsArtifact.FS)
    (b : S3Artifact.Bucket) (a u ss f : string) :
  valid_identity a u ss f = true →
  FsArtifact.usable fs (FsArtifact.artifact_dir s a u ss f) →
  FsArtifact.canonical fs (FsArtifact.artifact_dir s a u ss f) →
  S3Artifact.quiet b →
  S3Artifact.canonical b (S3Artifact.buildKeyPrefix a u ss f) →
  (∀ V S,
      is_int64 V = true → V ≠ 0 →
      FsArtifact.Versions s
        {| ver_AppName := a; ver_UserID := u; ver_SessionID := ss;
           ver_FileName := f |} fs = inr {| FsArtifact.Versions_ := S |} →
      ∃ fs',
        FsArtifact.Delete s
          {| del_AppName := a; del_UserID := u; del_SessionID := ss;
             del_FileName := f; del_Version := V |} fs = (None, fs')
        ∧ match FsArtifact.Versions s
                  {| ver_AppName := a; ver_UserID := u; ver_SessionID := ss;
                     ver_FileName := f |} fs' with
          | inr resp => ∀ w, w ∈ FsArtifact.Versions_ resp ↔ w ∈ S ∧ w ≠ V
          | inl e => e = NotFoundError ∧ ∀ w, w ∈ S → w = V
          end)
  ∧ (plain_elem f = true →
     ∃ fs',
       FsArtifact.Delete s
         {| del_AppName := a; del_UserID := u; del_SessionID := ss;
            del_FileName := f; del_Version := 0 |} fs = (None, fs')
       ∧ FsArtifact.Versions s
           {| ver_AppName := a; ver_UserID := u; ver_SessionID := ss;
              ver_FileName := f |} fs' = inl NotFoundError
       ∧ ∀ v, FsArtifact.Load s
                {| load_AppName := a; load_UserID := u; load_SessionID := ss;
                   load_FileName := f; load_Version := v |} fs'
              = inl NotFoundError)
  ∧ (∀ V S,
        is_int64 V = true → V ≠ 0 →
        S3Artifact.Versions
          {| ver_AppName := a; ver_UserID := u; ver_SessionID := ss;
             ver_FileName := f |} b = inr {| S3Artifact.Versions_ := S |} →
        ∃ b',
          S3Artifact.Delete
            {| del_AppName := a; del_UserID := u; del_SessionID := ss;
               del_FileName := f; del_Version := V |} b = (None, b')
          ∧ match S3Artifact.Versions
                    {| ver_AppName := a; ver_UserID := u; ver_SessionID := ss;
                       ver_FileName := f |} b' with
            | inr resp => ∀ w, w ∈ S3Artifact.Versions_ resp ↔ w ∈ S ∧ w ≠ V
            | inl e => e = NotFoundError ∧ ∀ w, w ∈ S → w = V
            end)
  ∧ (∃ b',
        S3Artifact.Delete
          {| del_AppName := a; del_UserID := u; del_SessionID := ss;
             del_FileName := f; del_Version := 0 |} b = (None, b')
        ∧ S3Artifact.Versions
            {| ver_AppName := a; ver_UserID := u; ver_SessionID := ss;
               ver_FileName := f |} b' = inl NotFoundError
        ∧ ∀ v, is_int64 v = true →
               S3Artifact.Load
                 {| load_AppName := a; load_UserID := u; load_SessionID := ss;
                    load_FileName := f; load_Version := v |} b'
               = inl NotFoundError).
Proof.
  intros Hid Hu Hcan Hq Hcan'.
  split; [intros V S HV HV0 HS; by apply fs_delete_then_versions|].
  split; [intros Hf; apply fs_delete_all; try done; apply Hu|].
  split; [intros V S HV HV0 HS; by apply s3_delete_then_versions|].
  by apply s3_delete_all.
Qed.

Lemma delete_removes_versions_witness :
  (∃ fs',
      FsArtifact.Delete root_service (notes_delete 1)
        (FsArtifact.save_each root_service "app" "u1" "s1" "notes.txt" two_notes
           FsArtifact.empty_fs).2 = (None, fs')
      ∧ match FsArtifact.Versions root_service notes_versions fs' with
        | inr resp => ∀ w, w ∈ FsArtifact.Versions_ resp ↔ w ∈ [1; 2] ∧ w ≠ 1
        | inl e => e = NotFoundError ∧ ∀ w, w ∈ [1; 2] → w = 1
        end)
  ∧ (∃ fs',
        FsArtifact.Delete root_service (notes_delete 0)
          (FsArtifact.save_each root_service "app" "u1" "s1" "notes.txt" two_notes
             FsArtifact.empty_fs).2 = (None, fs')
        ∧ FsArtifact.Versions root_service notes_versions fs' = inl NotFoundError)
  ∧ (∃ b',
        S3Artifact.Delete (notes_delete 2)
          (S3Artifact.save_each "app" "u1" "s1" "notes.txt" two_notes
             S3Artifact.empty_bucket).2 = (None, b')
        ∧ match S3Artifact.Versions notes_versions b' with
          | inr resp => ∀ w, w ∈ S3Artifact.Versions_ resp ↔ w ∈ [1; 2] ∧ w ≠ 2
          | inl e => e = NotFoundError ∧ ∀ w, w ∈ [1; 2] → w = 2
          end)
  ∧ (∃ b',
        S3Artifact.Delete (notes_delete 0)
          (S3Artifact.save_each "app" "u1" "s1" "notes.txt" two_notes
             S3Artifact.empty_bucket).2 = (None, b')
        ∧ S3Artifact.Versions notes_versions b' = inl NotFoundError).
Proof.
  destruct (fs_save_each_keeps root_service "app" "u1" "s1" "notes.txt" two_notes
              FsArtifact.empty_fs eq_refl (fs_usable_empty _) (fs_canonical_empty _))
    as [Hu Hcan].
  destruct (s3_save_each_keeps "app" "u1" "s1" "notes.txt" two_notes
              S3Artifact.empty_bucket eq_refl s3_quiet_empty (s3_canonical_empty _))
    as [Hq Hcan'].
  destruct (delete_removes_versions root_service
              (FsArtifact.save_each root_service "app" "u1" "s1" "notes.txt"
                 two_notes FsArtifact.empty_fs).2
              (S3Artifact.save_each "app" "u1" "s1" "notes.txt" two_notes
                 S3Artifact.empty_bucket).2
              "app" "u1" "s1" "notes.txt" eq_refl Hu Hcan Hq Hcan')
    as (H1 & H2 & H3 & (b' & H4 & H5 & _)).
  split; [|split; [|split]].
  - apply (H1 1 [1; 2]); [reflexivity|discriminate|vm_compute; reflexivity].
  - destruct (H2 eq_refl) as (fs' & Hd & Hv & _). exists fs'. split; [exact Hd|exact Hv].
  - apply (H3 2 [1; 2]); [reflexivity|discriminate|vm_compute; reflexivity].
  - exists b'. split; [exact H4|exact H5].
Defined.

(** C6: on a store without faults, [Delete] of a version whose file or
    object does not exist succeeds, and so does [Delete] of a whole artifact
    that does not exist (on the file system the file name is a plain path
    element, so that the artifact has a directory of its own). *)
Theorem delete_absent_succeeds (s : FsArtifact.fsService) (fs : FsArtifact.FS)
    (b : S3Artifact.Bucket) (a u ss f : string) (V : Z) :
  valid_identity a u ss f = true →
  V ≠ 0 →
  FsArtifact.quiet fs →
  S3Artifact.quiet b →
  (FsArtifact.resolve fs (FsArtifact.path_key (FsArtifact.buildPath s a u ss f V))
   = FsArtifact.NoEnt →
   (FsArtifact.Delete s
      {| del_AppName := a; del_UserID := u; del_SessionID := ss;
         del_FileName := f; del_Version := V |} fs).1 = None)
  ∧ (plain_elem f = true →
     FsArtifact.resolve fs (FsArtifact.artifact_dir s a u ss f) = FsArtifact.NoEnt →
     FsArtifact.Delete s
       {| del_AppName := a; del_UserID := u; del_SessionID := ss;
          del_FileName := f; del_Version := 0 |} fs = (None, fs))
  ∧ (S3Artifact.objects b !! S3Artifact.buildKey a u ss f V = None →
     S3Artifact.Delete
       {| del_AppName := a; del_UserID := u; del_SessionID := ss;
          del_FileName := f; del_Version := V |} b = (None, b))
  ∧ ((∀ w, ¬ S3Artifact.has_version b (S3Artifact.buildKeyPrefix a u ss f) w) →
     S3Artifact.Delete
       {| del_AppName := a; del_UserID := u; del_SessionID := ss;
          del_FileName := f; del_Version := 0 |} b = (None, b)).
Proof.
  intros Hid HV Hq Hq'.
  assert (∀ v, DeleteRequest_Validate
                 {| del_AppName := a; del_UserID := u; del_SessionID := ss;
                    del_FileName := f; del_Version := v |} = true) as Hv.
  { intros v. unfold DeleteRequest_Validate. simpl. by fold (valid_identity a u ss f). }
  split; [|split; [|split]].
  - intros Hr. by apply fs_delete_absent_version.
  - intros Hf Hr. by apply fs_delete_absent_artifact.
  - intros Hm. by apply s3_delete_absent_version.
  - intros Hnone. by apply s3_delete_absent_artifact.
Qed.

Lemma delete_absent_succeeds_witness :
  (FsArtifact.Delete root_service (notes_delete 7) FsArtifact.empty_fs).1 = None
  ∧ FsArtifact.Delete root_service (notes_delete 0) FsArtifact.empty_fs
    = (None, FsArtifact.empty_fs)
  ∧ S3Artifact.Delete (notes_delete 7) S3Artifact.empty_bucket
    = (None, S3Artifact.empty_bucket)
  ∧ S3Artifact.Delete (notes_delete 0) S3Artifact.empty_bucket
    = (None, S3Artifact.empty_bucket).
Proof.
  destruct (delete_absent_succeeds root_service FsArtifact.empty_fs
              S3Artifact.empty_bucket "app" "u1" "s1" "notes.txt" 7)
    as (H1 & H2 & H3 & H4).
  - reflexivity.
  - discriminate.
  - intros c k. reflexivity.
  - apply s3_quiet_empty.
  - split; [apply H1; reflexivity|].
    split; [apply H2; reflexivity|].
    split; [apply H3; reflexivity|].
    apply H4. apply s3_no_version_empty.
Defined.

(** C7 as stated fails.  The session of a user-scoped name is not part of
    its location, so two identities that differ in the session only share a
    key; and [filepath.Join] drops a ["."] element, so two identities free of
    the separator share a path. *)
Lemma location_collision :
  S3Artifact.buildKey "app" "u1" "s1" "user:f" 1
  = S3Artifact.buildKey "app" "u1" "s2" "user:f" 1
  ∧ FsArtifact.buildPath root_service "." "a" "u" "f" 1
    = FsArtifact.buildPath root_service "a" "u" "." "f" 1
  ∧ ("app", "u1", "s1", "user:f") ≠ ("app", "u1", "s2", "user:f")
  ∧ (".", "a", "u", "f") ≠ ("a", "u", ".", "f")
  ∧ forallb no_sep ["app"; "u1"; "s1"; "s2"; "user:f"; "."; "a"; "u"; "f"] = true.
Proof. repeat split; (reflexivity || discriminate). Qed.

(** C7, amended: for inputs free of the separator, two keys of the object
    store are equal only when application, user, file name and version are
    equal, and the session too unless the name is user-scoped; the same holds
    for the paths of the file system when the inputs are plain path elements
    (not empty, not ["."], not [".."]).  A session-scoped and a user-scoped
    name are different names, so they never share a location. *)
Theorem location_injective (s : FsArtifact.fsService)
    (a u ss f : string) (v : Z) (a' u' ss' f' : string) (v' : Z) :
  Forall (λ x, no_sep x = true) [a; u; ss; f; a'; u'; ss'; f'] →
  (S3Artifact.buildKey a u ss f v = S3Artifact.buildKey a' u' ss' f' v' →
   a = a' ∧ u = u' ∧ f = f' ∧ v = v'
   ∧ (S3Artifact.fileHasUserNamespace f = true ∨ ss = ss'))
  ∧ (Forall (λ x, plain_elem x = true) [a; u; ss; f; a'; u'; ss'; f'] →
     FsArtifact.buildPath s a u ss f v = FsArtifact.buildPath s a' u' ss' f' v' →
     a = a' ∧ u = u' ∧ f = f' ∧ v = v'
     ∧ (FsArtifact.fileHasUserNamespace f = true ∨ ss = ss')).
Proof.
  intros Hns. split.
  - repeat (apply Forall_cons in Hns as [? Hns]). by apply buildKey_inj.
  - intros Hpl. repeat (apply Forall_cons in Hpl as [? Hpl]). by apply buildPath_inj.
Qed.

Lemma location_injective_witness :
  (S3Artifact.fileHasUserNamespace "user:f" = true ∨ "s1" = "s2")
  ∧ (FsArtifact.fileHasUserNamespace "user:f" = true ∨ "s1" = "s2").
Proof.
  destruct (location_injective root_service "app" "u1" "s1" "user:f" 1
              "app" "u1" "s2" "user:f" 1) as [H1 H2].
  - repeat constructor.
  - split.
    + apply H1. reflexivity.
    + apply H2; [repeat constructor|reflexivity].
Defined.

(** C8: when the payload has been written and the write of the sidecar
    fails, [Save] returns the failure of the sidecar, not a response, and
    the payload is gone afterwards unless its removal was refused; and
    whenever [Save] does return a response, payload and sidecar are both
    there, each a file. *)
Theorem sidecar_failure_removes_payload (s : FsArtifact.fsService)
    (req : SaveRequest) (part : Part) (fs fs1 fs2 fs3 : FsArtifact.FS)
    (e : FsArtifact.errno) :
  SaveRequest_Validate req = true →
  save_Part req = Some part →
  FsArtifact.os_MkdirAll
    (filepath_Dir
       (FsArtifact.buildPath s (save_AppName req) (save_UserID req)
          (save_SessionID req) (save_FileName req)
          (FsArtifact.nextVersion s req fs))) fs = (None, fs1) →
  FsArtifact.os_WriteFile
    (FsArtifact.buildPath s (save_AppName req) (save_UserID req)
       (save_SessionID req) (save_FileName req) (FsArtifact.nextVersion s req fs))
    (stored_bytes part) fs1 = (None, fs2) →
  FsArtifact.os_WriteFile
    (FsArtifact.buildPath s (save_AppName req) (save_UserID req)
       (save_SessionID req) (save_FileName req) (FsArtifact.nextVersion s req fs)
     +:+ ".meta")
    (list_byte_of_string (stored_type part)) fs2 = (Some e, fs3) →
  (∃ fs',
      FsArtifact.Save s req fs
      = (inl (StorageIOError "failed to write metadata file"), fs')
      ∧ (FsArtifact.resolve fs'
           (FsArtifact.path_key
              (FsArtifact.buildPath s (save_AppName req) (save_UserID req)
                 (save_SessionID req) (save_FileName req)
                 (FsArtifact.nextVersion s req fs))) = FsArtifact.NoEnt
         ∨ FsArtifact.fails fs FsArtifact.SysRemove
             (FsArtifact.path_key
                (FsArtifact.buildPath s (save_AppName req) (save_UserID req)
                   (save_SessionID req) (save_FileName req)
                   (FsArtifact.nextVersion s req fs))) = true))
  ∧ (∀ fs0 resp fs0',
        FsArtifact.Save s req fs0 = (inr resp, fs0') →
        FsArtifact.resolve fs0'
          (FsArtifact.path_key
             (FsArtifact.buildPath s (save_AppName req) (save_UserID req)
                (save_SessionID req) (save_FileName req)
                (FsArtifact.Version resp)))
        = FsArtifact.Found (FsArtifact.File (stored_bytes part))
        ∧ FsArtifact.resolve fs0'
            (FsArtifact.path_key
               (FsArtifact.buildPath s (save_AppName req) (save_UserID req)
                  (save_SessionID req) (save_FileName req)
                  (FsArtifact.Version resp) +:+ ".meta"))
          = FsArtifact.Found
              (FsArtifact.File (list_byte_of_string (stored_type part)))).
Proof.
  intros Hv Hp Hmk W1 W2. split.
  - by apply (fs_save_sidecar_failure s req part fs fs1 fs2 e fs3).
  - intros fs0 resp fs0' HS.
    destruct (fs_save_success s req fs0 resp fs0' HS) as (part' & Hp' & _ & H1 & H2).
    rewrite Hp in Hp'. injection Hp' as <-. done.
Qed.

Lemma sidecar_failure_removes_payload_witness :
  ∃ fs',
    FsArtifact.Save root_service (notes_save "hello" 0) blocked_sidecar_fs
    = (inl (StorageIOError "failed to write metadata file"), fs')
    ∧ FsArtifact.resolve fs' (false, ["root"; "app"; "u1"; "s1"; "notes.txt"; "1"])
      = FsArtifact.NoEnt.
Proof.
  pose (path := FsArtifact.buildPath root_service "app" "u1" "s1" "notes.txt" 1).
  pose (fs1 := (FsArtifact.os_MkdirAll (filepath_Dir path) blocked_sidecar_fs).2).
  pose (fs2 := (FsArtifact.os_WriteFile path (list_byte_of_string "hello") fs1).2).
  destruct (sidecar_failure_removes_payload root_service (notes_save "hello" 0)
              (text_part "hello") blocked_sidecar_fs fs1 fs2 fs2 FsArtifact.EISDIR)
    as [(fs' & HS & [HR|HF]) _].
  - reflexivity.
  - reflexivity.
  - vm_compute. reflexivity.
  - vm_compute. reflexivity.
  - vm_compute. reflexivity.
  - exists fs'. split; [exact HS|exact HR].
  - discriminate HF.
Defined.

(** C9: when the payload can be read and the sidecar cannot, whatever the
    reason, [Load] succeeds and the content type is [text/plain]. *)
Theorem load_without_sidecar (s : FsArtifact.fsService) (req : LoadRequest)
    (fs : FsArtifact.FS) (v : Z) (data : list Byte.byte) (e : FsArtifact.errno) :
  LoadRequest_Validate req = true →
  FsArtifact.loadVersion s req fs = inr v →
  FsArtifact.os_ReadFile
    (FsArtifact.buildPath s (load_AppName req) (load_UserID req)
       (load_SessionID req) (load_FileName req) v) fs = inr data →
  FsArtifact.os_ReadFile
    (FsArtifact.buildPath s (load_AppName req) (load_UserID req)
       (load_SessionID req) (load_FileName req) v +:+ ".meta") fs = inl e →
  FsArtifact.Load s req fs
  = inr {| FsArtifact.LoadedPart := NewPartFromBytes data "text/plain" |}.
Proof. apply fs_load_without_sidecar. Qed.

Lemma load_without_sidecar_witness :
  FsArtifact.Load root_service (notes_load 0) lost_sidecar_fs
  = inr {| FsArtifact.LoadedPart :=
             NewPartFromBytes (list_byte_of_string "PNG") "text/plain" |}.
Proof.
  apply (load_without_sidecar root_service (notes_load 0) lost_sidecar_fs 1
           (list_byte_of_string "PNG") FsArtifact.ENOENT).
  - reflexivity.
  - vm_compute. reflexivity.
  - vm_compute. reflexivity.
  - vm_compute. reflexivity.
Defined.

(** C10: without an explicit version, when [Versions] fails for whatever
    reason, the file system back end takes version 1 and goes on exactly as
    for a request with the explicit version 1; the object store back end
    returns the failure of the listing and leaves the bucket as it is. *)
Theorem save_when_listing_fails (s : FsArtifact.fsService) (req : SaveRequest)
    (fs : FsArtifact.FS) (e : error) (b : S3Artifact.Bucket) :
  SaveRequest_Validate req = true →
  save_Version req ≤ 0 →
  FsArtifact.Versions s
    {| ver_AppName := save_AppName req; ver_UserID := save_UserID req;
       ver_SessionID := save_SessionID req; ver_FileName := save_FileName req |}
    fs = inl e →
  S3Artifact.fails b S3Artifact.CallList (S3Artifact.save_prefix req) = true →
  (FsArtifact.nextVersion s req fs = 1
   ∧ FsArtifact.Save s req fs = FsArtifact.Save s (with_version req 1) fs)
  ∧ S3Artifact.Save req b
    = (inl (StorageIOError "failed to list artifact versions"), b).
Proof.
  intros Hv Hle HV Hf. split.
  - by apply (fs_save_listing_fails s req fs e).
  - by apply s3_save_listing_fails.
Qed.

Lemma save_when_listing_fails_witness :
  (FsArtifact.Load root_service (notes_load 1) unlistable_fs
   = inr {| FsArtifact.LoadedPart :=
              NewPartFromBytes (list_byte_of_string "old") "text/plain" |}
   ∧ (FsArtifact.Save root_service (notes_save "new" 0) unlistable_fs).1
     = inr {| FsArtifact.Version := 1 |}
   ∧ FsArtifact.Load root_service (notes_load 1)
       (FsArtifact.Save root_service (notes_save "new" 0) unlistable_fs).2
     = inr {| FsArtifact.LoadedPart :=
                NewPartFromBytes (list_byte_of_string "new") "text/plain" |})
  ∧ S3Artifact.Save (notes_save "new" 0) unlistable_bucket
    = (inl (StorageIOError "failed to list artifact versions"), unlistable_bucket).
Proof.
  destruct (save_when_listing_fails root_service (notes_save "new" 0)
              unlistable_fs (StorageIOError "failed to list versions")
              unlistable_bucket) as [[H1 H2] H3].
  - reflexivity.
  - discriminate.
  - vm_compute. reflexivity.
  - reflexivity.
  - split; [|exact H3]. rewrite H2.
    split; [vm_compute; reflexivity|].
    split; vm_compute; reflexivity.
Defined.

Section FsProperties.
Import FsArtifact.

(* ===================================================================== *)
(** * Part IV: further properties of the file system back end             *)
(* ===================================================================== *)

(** ** [List] *)

(** X1: [List] of a valid request does not fail, whatever the state of the
    tree and whatever call fails.  It returns, in ascending order and
    without duplicates, exactly the names of the directories that the
    session directory and the user directory hold; a directory that cannot
    be read counts as empty. *)
Theorem fs_list_names (s : fsService) (req : ListRequest) (fs : FS) :
  ListRequest_Validate req = true →
  ∃ names,
    List s req fs = inr {| FileNames := names |}
    ∧ StronglySorted String.le names
    ∧ NoDup names
    ∧ ∀ x, x ∈ names
           ↔ lists fs (session_dir s (list_AppName req) (list_UserID req)
                         (list_SessionID req)) x
             ∨ lists fs (user_dir s (list_AppName req) (list_UserID req)) x.
Proof. apply List_names. Qed.

Lemma fs_list_names_witness :
  ∃ names,
    List root_service notes_list unlistable_fs = inr {| FileNames := names |}
    ∧ StronglySorted String.le names
    ∧ NoDup names
    ∧ ∀ x, x ∈ names
           ↔ lists unlistable_fs (session_dir root_service "app" "u1" "s1") x
             ∨ lists unlistable_fs (user_dir root_service "app" "u1") x.
Proof. apply (fs_list_names root_service notes_list unlistable_fs). reflexivity. Defined.

(** X2: after a successful [Save] of a file whose name is a plain path
    element, [List] for the session of the request holds the file name; for
    a user-scoped name, [List] for every session of the user holds it.  The
    directory of the scope is one that can be read. *)
Theorem fs_list_after_save (s : fsService) (req : SaveRequest) (fs fs' : FS)
    (resp : SaveResponse) (sessionID : string) :
  Save s req fs = (inr resp, fs') →
  plain_elem (save_FileName req) = true →
  present sessionID = true →
  sessionID = save_SessionID req ∨ fileHasUserNamespace (save_FileName req) = true →
  fails fs SysReadDir
    (scope_dir s (save_AppName req) (save_UserID req) sessionID (save_FileName req))
  = false →
  ∃ names,
    List s {| list_AppName := save_AppName req; list_UserID := save_UserID req;
              list_SessionID := sessionID |} fs'
    = inr {| FileNames := names |}
    ∧ save_FileName req ∈ names.
Proof. apply List_after_Save. Qed.

Lemma fs_list_after_save_witness :
  ∃ names,
    List root_service other_session_list (Save root_service avatar_save empty_fs).2
    = inr {| FileNames := names |}
    ∧ "user:avatar.png" ∈ names.
Proof.
  apply (fs_list_after_save root_service avatar_save empty_fs
           (Save root_service avatar_save empty_fs).2 {| Version := 1 |} "s2").
  - vm_compute. reflexivity.
  - reflexivity.
  - reflexivity.
  - right. reflexivity.
  - reflexivity.
Defined.

(** X3: [Delete] of one version (a version other than 0) changes no listing:
    [List] returns afterwards what it returned before, for every session of
    every user, whatever the state of the tree.  The names are plain path
    elements.  In particular the file name of an artifact stays listed when
    its last version is deleted this way. *)
Theorem fs_delete_version_keeps_list (s : fsService) (fs : FS)
    (a u ss f : string) (V : Z) (a' u' ss' : string) :
  plain_elem a = true → plain_elem u = true → plain_elem ss = true →
  plain_elem f = true →
  plain_elem a' = true → plain_elem u' = true → plain_elem ss' = true →
  V ≠ 0 →
  List s {| list_AppName := a'; list_UserID := u'; list_SessionID := ss' |}
    (Delete s {| del_AppName := a; del_UserID := u; del_SessionID := ss;
                 del_FileName := f; del_Version := V |} fs).2
  = List s {| list_AppName := a'; list_UserID := u'; list_SessionID := ss' |} fs.
Proof. apply List_Delete_version. Qed.

Lemma fs_delete_version_keeps_list_witness :
  List root_service notes_list
    (Delete root_service (notes_delete 1)
       (Save root_service (notes_save "hello" 0) empty_fs).2).2
  = List root_service notes_list
      (Save root_service (notes_save "hello" 0) empty_fs).2.
Proof.
  apply (fs_delete_version_keeps_list root_service
           (Save root_service (notes_save "hello" 0) empty_fs).2
           "app" "u1" "s1" "notes.txt" 1 "app" "u1" "s1");
    reflexivity || discriminate.
Defined.

(** X4: after a successful [Delete] of a whole artifact (version 0) whose
    file name is a plain path element, [List] for its session holds the
    file name only if the directory of the other scope (that of the user
    for a session-scoped name, that of the session for a user-scoped one)
    has a directory of that name. *)
Theorem fs_delete_all_unlists (s : fsService) (fs fs' : FS) (a u ss f : string) :
  plain_elem f = true →
  Delete s {| del_AppName := a; del_UserID := u; del_SessionID := ss;
              del_FileName := f; del_Version := 0 |} fs = (None, fs') →
  ∃ names,
    List s {| list_AppName := a; list_UserID := u; list_SessionID := ss |} fs'
    = inr {| FileNames := names |}
    ∧ (f ∈ names
       ↔ lists fs' (if fileHasUserNamespace f then session_dir s a u ss
                    else user_dir s a u) f).
Proof.
  intros Hf HD.
  assert (ListRequest_Validate
            {| list_AppName := a; list_UserID := u; list_SessionID := ss |} = true)
    as Hlv.
  { revert HD. unfold Delete, DeleteRequest_Validate, ListRequest_Validate. cbn.
    destruct (present a), (present u), (present ss); done. }
  destruct (List_names s _ fs' Hlv) as (names & HL & _ & _ & Hin).
  exists names. split; [done|]. rewrite Hin. cbn.
  pose proof (Delete_all_unlists _ _ _ _ _ _ _ Hf HD) as Hno.
  unfold scope_dir in Hno. destruct (fileHasUserNamespace f).
  - split; [by intros [?|?]|by left].
  - split; [by intros [?|?]|by right].
Qed.

Lemma fs_delete_all_unlists_witness :
  ∃ names,
    List root_service notes_list
      (Delete root_service (notes_delete 0)
         (Save root_service (notes_save "hello" 0) empty_fs).2).2
    = inr {| FileNames := names |}
    ∧ ("notes.txt" ∈ names
       ↔ lists (Delete root_service (notes_delete 0)
                  (Save root_service (notes_save "hello" 0) empty_fs).2).2
           (user_dir root_service "app" "u1") "notes.txt").
Proof.
  apply (fs_delete_all_unlists root_service
           (Save root_service (notes_save "hello" 0) empty_fs).2
           (Delete root_service (notes_delete 0)
              (Save root_service (notes_save "hello" 0) empty_fs).2).2
           "app" "u1" "s1" "notes.txt").
  - reflexivity.
  - vm_compute. reflexivity.
Defined.

(** ** [Versions] *)

(** X5: when [Versions] succeeds, its list is not empty, is in ascending
    order, and holds exactly the versions stored in the directory of the
    artifact: the integers that the names of its files read as, sidecars
    apart.  When the files carry the names [Save] gives them, no version is
    listed twice and the order is strict. *)
Theorem fs_versions_listing (s : fsService) (req : VersionsRequest) (fs : FS)
    (resp : VersionsResponse) :
  Versions s req fs = inr resp →
  Versions_ resp ≠ []
  ∧ StronglySorted Z.le (Versions_ resp)
  ∧ (∀ v, v ∈ Versions_ resp ↔ has_version fs (ver_dir s req) v)
  ∧ (canonical fs (ver_dir s req) → StronglySorted Z.lt (Versions_ resp)).
Proof.
  intros HV. destruct (Versions_inr _ _ _ _ HV) as (_ & Hne & Hs & Hin).
  split; [done|]. split; [done|]. split; [done|].
  intros Hcan. apply sorted_le_lt; [done|]. by eapply Versions_NoDup.
Qed.

Lemma fs_versions_listing_witness :
  [1; 2] ≠ []
  ∧ StronglySorted Z.le [1; 2]
  ∧ (∀ v, v ∈ [1; 2]
          ↔ has_version (save_each root_service "app" "u1" "s1" "notes.txt"
                           two_notes empty_fs).2
              (ver_dir root_service notes_versions) v)
  ∧ (canonical (save_each root_service "app" "u1" "s1" "notes.txt"
                  two_notes empty_fs).2
       (ver_dir root_service notes_versions) → StronglySorted Z.lt [1; 2]).
Proof.
  apply (fs_versions_listing root_service notes_versions
           (save_each root_service "app" "u1" "s1" "notes.txt" two_notes empty_fs).2
           {| Versions_ := [1; 2] |}).
  vm_compute. reflexivity.
Defined.

(** ** [Save] and the versions of its artifact *)

(** X6: in a tree without faults whose versions of the artifact are below
    the largest [int64], a [Save] without an explicit version succeeds, and
    [Load] without a version (version 0) then returns the part just saved:
    the latest version is the one [Save] allocated. *)
Theorem fs_load_latest_after_save (s : fsService) (req : SaveRequest) (part : Part)
    (fs : FS) :
  SaveRequest_Validate req = true →
  save_Part req = Some part →
  save_Version req ≤ 0 →
  usable fs (save_dir s req) →
  tree fs →
  (∀ w, has_version fs (save_dir s req) w → w < MaxInt64) →
  ∃ resp fs',
    Save s req fs = (inr resp, fs')
    ∧ Load s (load_of req 0) fs'
      = inr {| LoadedPart := NewPartFromBytes (stored_bytes part) (stored_type part) |}.
Proof.
  intros Hv Hp Hver Hu Ht Hmax.
  destruct (Save_new_version s req part fs Hv Hp Hver Hu Ht Hmax)
    as (v & fs' & HS & Hint & Hlt & Hu' & Hr' & Hd & Hm & Hother).
  exists {| Version := v |}, fs'. split; [done|].
  pose proof (has_version_written fs fs' _ v _ _ Hint Hd Hm Hother) as Hhv.
  pose proof (save_versions_valid req Hv) as Hvv.
  destruct Hu' as (Hq' & Hfree' & Hfiles').
  destruct (Versions_Found s (versions_of req) fs' Hvv (Hq' _ _) Hr')
    as (l & Hl & _ & HV).
  change (ver_dir s (versions_of req)) with (save_dir s req) in Hl.
  assert (v ∈ l) as Hvl by (apply Hl, Hhv; by left).
  assert (slices_Max l = v) as HM.
  { apply slices_Max_unique; [done|]. intros y Hy%Hl%Hhv.
    destruct Hy as [->|Hy]; [lia|]. apply Hlt in Hy. lia. }
  assert (loadVersion s (load_of req 0) fs' = inr v) as HLV.
  { unfold loadVersion. cbn [load_Version load_of]. change (0 =? 0) with true.
    cbn iota. change {| ver_AppName := _ |} with (versions_of req).
    rewrite HV. destruct l; [by apply elem_of_nil in Hvl|].
    cbn [Versions_]. by rewrite HM. }
  rewrite (Load_stored s (load_of req 0) fs' v _ _ (load_of_valid _ _ Hv) HLV Hq' Hr' Hd Hm).
  by rewrite string_of_list_byte_of_string.
Qed.

Lemma fs_load_latest_after_save_witness :
  ∃ resp fs',
    Save root_service (notes_save "hello" 0) empty_fs = (inr resp, fs')
    ∧ Load root_service (notes_load 0) fs'
      = inr {| LoadedPart := NewPartFromBytes (list_byte_of_string "hello") "text/plain" |}.
Proof.
  apply (fs_load_latest_after_save root_service (notes_save "hello" 0)
           (text_part "hello") empty_fs).
  - reflexivity.
  - reflexivity.
  - reflexivity || (cbn; lia).
  - apply fs_usable_empty.
  - apply tree_empty.
  - intros w Hw. by apply fs_no_version_empty in Hw.
Defined.

(** X7: in a tree without faults whose versions of the artifact are below
    the largest [int64], a [Save] without an explicit version writes a
    version that was not stored before, and [Load] of every other version
    returns what it returned before: no stored version is overwritten. *)
Theorem fs_save_keeps_versions (s : fsService) (req : SaveRequest) (part : Part)
    (fs : FS) :
  SaveRequest_Validate req = true →
  save_Part req = Some part →
  save_Version req ≤ 0 →
  usable fs (save_dir s req) →
  tree fs →
  (∀ w, has_version fs (save_dir s req) w → w < MaxInt64) →
  ∃ resp fs',
    Save s req fs = (inr resp, fs')
    ∧ ¬ has_version fs (save_dir s req) (Version resp)
    ∧ ∀ w, w ≠ 0 → w ≠ Version resp →
           Load s (load_of req w) fs' = Load s (load_of req w) fs.
Proof.
  intros Hv Hp Hver Hu Ht Hmax.
  destruct (Save_new_version s req part fs Hv Hp Hver Hu Ht Hmax)
    as (v & fs' & HS & Hint & Hlt & Hu' & Hr' & Hd & Hm & Hother).
  exists {| Version := v |}, fs'. split; [done|]. cbn [Version]. split.
  { intros Hw%Hlt. lia. }
  intros w Hw0 Hwv.
  destruct (Save_frame_eq _ _ _ _ _ HS) as [Hfails _].
  destruct Hu as (_ & Hfree & _).
  apply Load_version_ext; [done|intros k; by rewrite Hfails| |].
  - apply resolve_entry_kept; try done. apply Hother.
    + intros E%Sprintf_d_inj_all. done.
    + intros E. symmetry in E. by apply meta_name_ne in E.
  - apply resolve_entry_kept; try done. apply Hother.
    + apply meta_name_ne.
    + intros E%append_inj_r%Sprintf_d_inj_all. done.
Qed.

Lemma fs_save_keeps_versions_witness :
  ∃ resp fs',
    Save root_service (notes_save "hello" 0) empty_fs = (inr resp, fs')
    ∧ ¬ has_version empty_fs (save_dir root_service (notes_save "hello" 0))
          (Version resp)
    ∧ ∀ w, w ≠ 0 → w ≠ Version resp →
           Load root_service (load_of (notes_save "hello" 0) w) fs'
           = Load root_service (load_of (notes_save "hello" 0) w) empty_fs.
Proof.
  apply (fs_save_keeps_versions root_service (notes_save "hello" 0)
           (text_part "hello") empty_fs).
  - reflexivity.
  - reflexivity.
  - reflexivity || (cbn; lia).
  - apply fs_usable_empty.
  - apply tree_empty.
  - intros w Hw. by apply fs_no_version_empty in Hw.
Defined.

(** X8: in a tree without faults, after a successful [Save], with or
    without an explicit version, [Versions] lists the version of the
    response and the versions it listed before, and nothing else. *)
Theorem fs_versions_after_save (s : fsService) (req : SaveRequest) (part : Part)
    (fs : FS) :
  SaveRequest_Validate req = true →
  save_Part req = Some part →
  is_int64 (save_Version req) = true →
  usable fs (save_dir s req) →
  tree fs →
  ∃ resp fs' after,
    Save s req fs = (inr resp, fs')
    ∧ Versions s (versions_of req) fs' = inr after
    ∧ ∀ w, w ∈ Versions_ after
           ↔ w = Version resp
             ∨ ∃ before, Versions s (versions_of req) fs = inr before
                         ∧ w ∈ Versions_ before.
Proof.
  intros Hv Hp Hint Hu Ht.
  destruct (Save_ok s req part fs Hv Hp Hu) as (fs' & HS & Hu' & Hr' & Hd & Hm & Hother).
  pose proof (nextVersion_int64 s req fs Hint) as Hvi.
  pose proof (has_version_written fs fs' _ _ _ _ Hvi Hd Hm Hother) as Hhv.
  pose proof (save_versions_valid req Hv) as Hvv.
  destruct Hu' as (Hq' & _ & _).
  destruct (Versions_Found s (versions_of req) fs' Hvv (Hq' _ _) Hr')
    as (l & Hl & _ & HV).
  change (ver_dir s (versions_of req)) with (save_dir s req) in Hl.
  assert (nextVersion s req fs ∈ l) as Hvl by (apply Hl, Hhv; by left).
  destruct l as [|x l]; [by apply elem_of_nil in Hvl|].
  exists {| Version := nextVersion s req fs |}, fs', {| Versions_ := x :: l |}.
  split; [done|]. split; [done|]. intros w. cbn [Versions_ Version].
  rewrite Hl, Hhv.
  destruct Hu as (Hq & _ & _).
  by rewrite <- (Versions_has_version s (versions_of req) fs w Hvv Hq Ht).
Qed.

Lemma fs_versions_after_save_witness :
  ∃ resp fs' after,
    Save root_service (notes_save "hello" 7) empty_fs = (inr resp, fs')
    ∧ Versions root_service (versions_of (notes_save "hello" 7)) fs' = inr after
    ∧ ∀ w, w ∈ Versions_ after
           ↔ w = Version resp
             ∨ ∃ before,
                 Versions root_service (versions_of (notes_save "hello" 7)) empty_fs
                 = inr before
                 ∧ w ∈ Versions_ before.
Proof.
  apply (fs_versions_after_save root_service (notes_save "hello" 7)
           (text_part "hello") empty_fs).
  - reflexivity.
  - reflexivity.
  - reflexivity.
  - apply fs_usable_empty.
  - apply tree_empty.
Defined.

(** ** One artifact and the others *)

(** X9: [Save] for one artifact, whatever its outcome, changes neither what
    [Versions] nor what [Load] returns for an artifact at another location
    (another application, user, scope or file name).  The names are plain
    path elements and the nodes form a tree. *)
Theorem fs_save_other_artifact (s : fsService) (req : SaveRequest) (fs : FS)
    (a' u' ss' f' : string) :
  plain_elem (save_AppName req) = true → plain_elem (save_UserID req) = true →
  plain_elem (save_SessionID req) = true → plain_elem (save_FileName req) = true →
  plain_elem a' = true → plain_elem u' = true → plain_elem ss' = true →
  plain_elem f' = true →
  (a', u', scope_elem ss' f', f')
  ≠ (save_AppName req, save_UserID req,
     scope_elem (save_SessionID req) (save_FileName req), save_FileName req) →
  tree fs →
  Versions s {| ver_AppName := a'; ver_UserID := u'; ver_SessionID := ss';
                ver_FileName := f' |} (Save s req fs).2
  = Versions s {| ver_AppName := a'; ver_UserID := u'; ver_SessionID := ss';
                  ver_FileName := f' |} fs
  ∧ ∀ v, Load s {| load_AppName := a'; load_UserID := u'; load_SessionID := ss';
                   load_FileName := f'; load_Version := v |} (Save s req fs).2
         = Load s {| load_AppName := a'; load_UserID := u'; load_SessionID := ss';
                     load_FileName := f'; load_Version := v |} fs.
Proof.
  intros Ha Hu Hs Hf Ha' Hu' Hs' Hf' Hne Ht.
  destruct (artifact_dir_differs s _ _ _ _ _ _ _ _ Ha Hu Hs Hf Ha' Hu' Hs' Hf' Hne)
    as (H1 & H2 & H3).
  destruct (Save_other_artifact s req fs (artifact_dir s a' u' ss' f') Ht H1 H2 H3)
    as [Hr Hc].
  pose proof (Save_fails s req fs) as Hfails.
  split.
  - apply Versions_resolved; [by rewrite Hfails|done|done].
  - intros v. apply Load_resolved_eq; [intros c k; by rewrite Hfails|done|done].
Qed.

Lemma fs_save_other_artifact_witness :
  Versions root_service (versions_of avatar_save)
    (Save root_service (notes_save "hello" 0)
       (Save root_service avatar_save empty_fs).2).2
  = Versions root_service (versions_of avatar_save)
      (Save root_service avatar_save empty_fs).2
  ∧ ∀ v, Load root_service (load_of avatar_save v)
           (Save root_service (notes_save "hello" 0)
              (Save root_service avatar_save empty_fs).2).2
         = Load root_service (load_of avatar_save v)
             (Save root_service avatar_save empty_fs).2.
Proof.
  apply (fs_save_other_artifact root_service (notes_save "hello" 0)
           (Save root_service avatar_save empty_fs).2
           "app" "u1" "s1" "user:avatar.png"); try reflexivity.
  - discriminate.
  - apply is_tree_spec. vm_compute. reflexivity.
Defined.

(** X10: [Delete] for one artifact, of one version or of all of them and
    whatever its outcome, changes neither what [Versions] nor what [Load]
    returns for an artifact at another location.  The names are plain path
    elements. *)
Theorem fs_delete_other_artifact (s : fsService) (req : DeleteRequest) (fs : FS)
    (a' u' ss' f' : string) :
  plain_elem (del_AppName req) = true → plain_elem (del_UserID req) = true →
  plain_elem (del_SessionID req) = true → plain_elem (del_FileName req) = true →
  plain_elem a' = true → plain_elem u' = true → plain_elem ss' = true →
  plain_elem f' = true →
  (a', u', scope_elem ss' f', f')
  ≠ (del_AppName req, del_UserID req,
     scope_elem (del_SessionID req) (del_FileName req), del_FileName req) →
  Versions s {| ver_AppName := a'; ver_UserID := u'; ver_SessionID := ss';
                ver_FileName := f' |} (Delete s req fs).2
  = Versions s {| ver_AppName := a'; ver_UserID := u'; ver_SessionID := ss';
                  ver_FileName := f' |} fs
  ∧ ∀ v, Load s {| load_AppName := a'; load_UserID := u'; load_SessionID := ss';
                   load_FileName := f'; load_Version := v |} (Delete s req fs).2
         = Load s {| load_AppName := a'; load_UserID := u'; load_SessionID := ss';
                     load_FileName := f'; load_Version := v |} fs.
Proof.
  intros Ha Hu Hs Hf Ha' Hu' Hs' Hf' Hne.
  destruct (artifact_dir_differs s _ _ _ _ _ _ _ _ Ha Hu Hs Hf Ha' Hu' Hs' Hf' Hne)
    as (H1 & H2 & H3).
  destruct (Delete_other_artifact s req fs (artifact_dir s a' u' ss' f') H1 H2 H3)
    as [Hr Hc].
  destruct (Delete_frame s req fs) as [Hfails _].
  split.
  - apply Versions_resolved; [by rewrite Hfails|done|done].
  - intros v. apply Load_resolved_eq; [intros c k; by rewrite Hfails|done|done].
Qed.

Lemma fs_delete_other_artifact_witness :
  Versions root_service (versions_of avatar_save)
    (Delete root_service (notes_delete 0)
       (Save root_service avatar_save empty_fs).2).2
  = Versions root_service (versions_of avatar_save)
      (Save root_service avatar_save empty_fs).2
  ∧ ∀ v, Load root_service (load_of avatar_save v)
           (Delete root_service (notes_delete 0)
              (Save root_service avatar_save empty_fs).2).2
         = Load root_service (load_of avatar_save v)
             (Save root_service avatar_save empty_fs).2.
Proof.
  apply (fs_delete_other_artifact root_service (notes_delete 0)
           (Save root_service avatar_save empty_fs).2
           "app" "u1" "s1" "user:avatar.png"); try reflexivity.
  discriminate.
Defined.

(** ** One version and the others *)

(** X11: [Delete] of one version, whatever its outcome and whatever the
    state of the tree, does not change what [Load] returns for another
    version of the artifact. *)
Theorem fs_delete_version_keeps_others (s : fsService) (fs : FS)
    (a u ss f : string) (V W : Z) :
  V ≠ 0 → W ≠ 0 → W ≠ V →
  Load s {| load_AppName := a; load_UserID := u; load_SessionID := ss;
            load_FileName := f; load_Version := W |}
    (Delete s {| del_AppName := a; del_UserID := u; del_SessionID := ss;
                 del_FileName := f; del_Version := V |} fs).2
  = Load s {| load_AppName := a; load_UserID := u; load_SessionID := ss;
              load_FileName := f; load_Version := W |} fs.
Proof.
  intros HV HW HWV.
  set (dreq := {| del_AppName := a; del_UserID := u; del_SessionID := ss;
                  del_FileName := f; del_Version := V |}).
  destruct (Delete_version_frame s dreq fs HV) as [Hfails Hn].
  change (del_dir s dreq) with (artifact_dir s a u ss f) in Hn.
  cbn [del_Version dreq] in Hn.
  assert (∀ x, x ≠ Sprintf_d V → x ≠ Sprintf_d V +:+ ".meta" →
               resolve (Delete s dreq fs).2 (extend (artifact_dir s a u ss f) x)
               = resolve fs (extend (artifact_dir s a u ss f) x)) as Hres.
  { intros x Hx1 Hx2. apply resolve_ext. intros P HP. apply Hn.
    - intros [= E]. rewrite E in HP. unfold extend in HP. cbn [snd] in HP.
      apply prefix_length_eq in HP; [|by rewrite !length_app].
      apply app_inj_tail in HP as [_ HP]. done.
    - intros [= E]. rewrite E in HP. unfold extend in HP. cbn [snd] in HP.
      apply prefix_length_eq in HP; [|by rewrite !length_app].
      apply app_inj_tail in HP as [_ HP]. done. }
  apply Load_version_ext; [done|intros k; by rewrite Hfails| |].
  - apply Hres.
    + intros E%Sprintf_d_inj_all. done.
    + intros E. symmetry in E. by apply meta_name_ne in E.
  - apply Hres.
    + apply meta_name_ne.
    + intros E%append_inj_r%Sprintf_d_inj_all. done.
Qed.

Lemma fs_delete_version_keeps_others_witness :
  Load root_service (notes_load 2)
    (Delete root_service (notes_delete 1)
       (save_each root_service "app" "u1" "s1" "notes.txt" two_notes empty_fs).2).2
  = Load root_service (notes_load 2)
      (save_each root_service "app" "u1" "s1" "notes.txt" two_notes empty_fs).2.
Proof.
  apply (fs_delete_version_keeps_others root_service
           (save_each root_service "app" "u1" "s1" "notes.txt" two_notes empty_fs).2
           "app" "u1" "s1" "notes.txt" 1 2); discriminate.
Defined.

(** ** User-scoped names *)

(** X12: an artifact with a user-scoped name (a name that starts with
    [user:]) does not belong to a session: in a container that can be used,
    after a [Save] in one session, [Load] of the version returned gives the
    part back from every session of the user. *)
Theorem fs_user_scope_shared (s : fsService) (req : SaveRequest) (part : Part)
    (fs : FS) (sessionID : string) :
  SaveRequest_Validate req = true →
  save_Part req = Some part →
  fileHasUserNamespace (save_FileName req) = true →
  present sessionID = true →
  usable fs (save_dir s req) →
  ∃ resp fs',
    Save s req fs = (inr resp, fs')
    ∧ Load s {| load_AppName := save_AppName req; load_UserID := save_UserID req;
                load_SessionID := sessionID; load_FileName := save_FileName req;
                load_Version := Version resp |} fs'
      = inr {| LoadedPart := NewPartFromBytes (stored_bytes part) (stored_type part) |}.
Proof.
  intros Hv Hp Hf Hss Hu.
  destruct (fs_save_load s req part fs Hv Hp Hu) as (resp & fs' & HS & HL).
  exists resp, fs'. split; [done|]. rewrite <- HL.
  apply Load_user_scope; [done|]. rewrite Hss.
  revert Hv. unfold SaveRequest_Validate.
  by intros [[[_ ->]%andb_true_iff _]%andb_true_iff _]%andb_true_iff.
Qed.

Lemma fs_user_scope_shared_witness :
  ∃ resp fs',
    Save root_service avatar_save empty_fs = (inr resp, fs')
    ∧ Load root_service
        {| load_AppName := "app"; load_UserID := "u1"; load_SessionID := "s2";
           load_FileName := "user:avatar.png"; load_Version := Version resp |} fs'
      = inr {| LoadedPart := NewPartFromBytes (list_byte_of_string "PNG") "image/png" |}.
Proof.
  apply (fs_user_scope_shared root_service avatar_save
           {| Text := "";
              InlineData := Some {| Data := list_byte_of_string "PNG";
                                    MIMEType := "image/png" |} |}
           empty_fs "s2").
  - reflexivity.
  - reflexivity.
  - reflexivity.
  - reflexivity.
  - apply fs_usable_empty.
Defined.

(** ** Locations *)

(** X13: for every root directory and every identity with an application
    name, the directory of the path of a version, which [Save] creates, is
    the directory of the artifact, which [Versions] reads and [Delete]
    removes; and the path of a version is the directory of the artifact
    joined with the decimal form of the version. *)
Theorem fs_location_consistent (s : fsService) (a u ss f : string) (v : Z) :
  a ≠ "" →
  filepath_Dir (buildPath s a u ss f v) = buildDir s a u ss f
  ∧ buildPath s a u ss f v = filepath_Join [buildDir s a u ss f; Sprintf_d v].
Proof. apply buildPath_buildDir. Qed.

Lemma fs_location_consistent_witness :
  filepath_Dir (buildPath {| rootDir := "/var/../data/" |} "app" "." "s1" "user:a" 12)
  = buildDir {| rootDir := "/var/../data/" |} "app" "." "s1" "user:a"
  ∧ buildPath {| rootDir := "/var/../data/" |} "app" "." "s1" "user:a" 12
    = filepath_Join [buildDir {| rootDir := "/var/../data/" |} "app" "." "s1" "user:a";
                     Sprintf_d 12].
Proof.
  apply (fs_location_consistent {| rootDir := "/var/../data/" |} "app" "." "s1"
           "user:a" 12).
  discriminate.
Defined.

(** X14: the name [Save] gives the file of a version reads back as that
    version in the loop of [Versions], and the name of its sidecar is never
    read as a version. *)
Theorem fs_version_names (v : Z) :
  is_int64 v = true →
  entry_version {| Name := Sprintf_d v; IsDir := false |} = Some v
  ∧ ∀ name, entry_version {| Name := name +:+ ".meta"; IsDir := false |} = None.
Proof.
  intros Hv. split.
  - apply entry_version_Some. cbn [Name IsDir]. split; [done|]. split.
    + apply Sprintf_d_not_meta.
    + by apply ParseInt_Sprintf_d.
  - intros name. unfold entry_version. cbn [Name IsDir].
    destruct (HasSuffix _ _); [done|]. apply ParseInt_meta_None.
Qed.

Lemma fs_version_names_witness :
  entry_version {| Name := Sprintf_d (-42); IsDir := false |} = Some (-42)
  ∧ ∀ name, entry_version {| Name := name +:+ ".meta"; IsDir := false |} = None.
Proof. apply (fs_version_names (-42)). reflexivity. Defined.

(** ** An artifact without versions *)

(** X15: deleting the versions of an artifact one by one does not remove
    its directory.  In a tree without faults, after the first [Save] of an
    artifact (it returns version 1) and the [Delete] of version 1,
    [Versions] reports that the artifact is not found, and [List] still
    holds its file name.  The names are plain path elements. *)
Theorem fs_emptied_artifact_listed (s : fsService) (a u ss f : string)
    (part : Part) (fs : FS) :
  plain_elem a = true → plain_elem u = true → plain_elem ss = true →
  plain_elem f = true →
  usable fs (artifact_dir s a u ss f) →
  (∀ w, ¬ has_version fs (artifact_dir s a u ss f) w) →
  ∃ fs1 fs2 names,
    Save s {| save_AppName := a; save_UserID := u; save_SessionID := ss;
              save_FileName := f; save_Part := Some part; save_Version := 0 |} fs
    = (inr {| Version := 1 |}, fs1)
    ∧ Delete s {| del_AppName := a; del_UserID := u; del_SessionID := ss;
                  del_FileName := f; del_Version := 1 |} fs1 = (None, fs2)
    ∧ Versions s {| ver_AppName := a; ver_UserID := u; ver_SessionID := ss;
                    ver_FileName := f |} fs2 = inl NotFoundError
    ∧ List s {| list_AppName := a; list_UserID := u; list_SessionID := ss |} fs2
      = inr {| FileNames := names |}
    ∧ f ∈ names.
Proof.
  intros Ha Hu Hs Hf Hus Hnone.
  assert (∀ x, plain_elem x = true → present x = true) as Hpres.
  { intros x (Hx & _)%plain_elem_spec. unfold present.
    destruct (String.eqb_spec x ""); done. }
  assert (valid_identity a u ss f = true) as Hid.
  { unfold valid_identity. by rewrite !Hpres. }
  set (req := {| save_AppName := a; save_UserID := u; save_SessionID := ss;
                 save_FileName := f; save_Part := Some part; save_Version := 0 |}).
  set (vreq := {| ver_AppName := a; ver_UserID := u; ver_SessionID := ss;
                  ver_FileName := f |}).
  pose proof (valid_identity_save a u ss f part 0 Hid) as Hv. fold req in Hv.
  destruct (Save_ok s req part fs Hv eq_refl Hus)
    as (fs1 & HS & Hu1 & Hr1 & Hd & Hm & Hother).
  rewrite (nextVersion_fresh s req fs) in * by done.
  change (save_dir s req) with (artifact_dir s a u ss f) in *.
  pose proof (has_version_written fs fs1 _ 1 _ _ eq_refl Hd Hm Hother) as Hhv.
  assert (canonical fs (artifact_dir s a u ss f)) as Hcan.
  { intros name data v Hn Hsuf Hparse. destruct (Hnone v). by exists name, data. }
  pose proof (fs_canonical_written fs fs1 _ 1 _ _ eq_refl Hcan Hd Hm Hother) as Hcan1.
  assert (VersionsRequest_Validate vreq = true) as Hvv by exact Hid.
  destruct Hu1 as (Hq1 & Hfree1 & Hfiles1).
  destruct (Versions_Found s vreq fs1 Hvv (Hq1 _ _) Hr1) as (l & Hl & _ & HV1).
  change (ver_dir s vreq) with (artifact_dir s a u ss f) in Hl.
  assert (1 ∈ l) as H1l by (apply Hl, Hhv; by left).
  destruct l as [|x l]; [by apply elem_of_nil in H1l|].
  destruct (fs_delete_then_versions s a u ss f 1 fs1 (x :: l) Hid eq_refl)
    as (fs2 & HD & HV2); [done|done|done|done|].
  fold vreq in HV2.
  assert (Versions s vreq fs2 = inl NotFoundError) as HNF.
  { destruct (Versions s vreq fs2) as [e|resp] eqn:E; [by destruct HV2 as [-> _]|].
    destruct (Versions_inr _ _ _ _ E) as (_ & Hne & _).
    destruct (Versions_ resp) as [|y r] eqn:Er; [done|].
    assert (y ∈ x :: l ∧ y ≠ 1) as [Hy Hy1].
    { apply HV2. apply elem_of_cons. by left. }
    apply Hl, Hhv in Hy as [Hy|Hy]; [done|by apply Hnone in Hy]. }
  destruct Hus as (Hq & _).
  destruct (List_after_Save s req fs fs1 {| Version := 1 |} ss HS Hf (Hpres _ Hs)
              (or_introl eq_refl) (Hq _ _)) as (names & HL & Hin).
  exists fs1, fs2, names. split; [done|]. split; [done|]. split; [done|].
  split; [|done].
  pose proof (List_Delete_version s fs1 a u ss f 1 a u ss Ha Hu Hs Hf Ha Hu Hs) as HLD.
  rewrite HD in HLD. cbn [snd] in HLD. rewrite HLD by done. exact HL.
Qed.

Lemma fs_emptied_artifact_listed_witness :
  ∃ fs1 fs2 names,
    Save root_service (notes_save "hello" 0) empty_fs = (inr {| Version := 1 |}, fs1)
    ∧ Delete root_service (notes_delete 1) fs1 = (None, fs2)
    ∧ Versions root_service notes_versions fs2 = inl NotFoundError
    ∧ List root_service notes_list fs2 = inr {| FileNames := names |}
    ∧ "notes.txt" ∈ names.
Proof.
  apply (fs_emptied_artifact_listed root_service "app" "u1" "s1" "notes.txt"
           (text_part "hello") empty_fs); try reflexivity.
  - apply fs_usable_empty.
  - apply fs_no_version_empty.
Defined.

End FsProperties.

Section S3Properties.
Import S3Artifact.

(* ===================================================================== *)
(** * Part V: further properties of the object store back end             *)
(* ===================================================================== *)

(** ** [List] *)

(** X16: [List] of a valid request fails exactly when one of its two
    listings fails: that of the session prefix first, then that of the user
    prefix.  Otherwise it returns, in ascending order and without
    duplicates, exactly the last segments but one of the keys under the two
    prefixes; the failure for a key with too few segments does not occur. *)
Theorem s3_list_names (req : ListRequest) (b : Bucket) :
  ListRequest_Validate req = true →
  if fails b CallList (buildSessionPrefix (list_AppName req) (list_UserID req)
                         (list_SessionID req))
  then List req b = inl (StorageIOError "failed to fetch session filenames")
  else if fails b CallList (buildUserPrefix (list_AppName req) (list_UserID req))
  then List req b = inl (StorageIOError "failed to fetch user filenames")
  else
    ∃ names,
      List req b = inr {| FileNames := names |}
      ∧ StronglySorted String.le names
      ∧ NoDup names
      ∧ ∀ x, x ∈ names
             ↔ ∃ key o,
                 objects b !! key = Some o
                 ∧ (HasPrefix key (buildSessionPrefix (list_AppName req)
                                     (list_UserID req) (list_SessionID req)) = true
                    ∨ HasPrefix key (buildUserPrefix (list_AppName req)
                                       (list_UserID req)) = true)
                 ∧ key_filename key = x.
Proof.
  intros Hv. pose proof (s3_List_fails req b Hv) as HF.
  destruct (fails b CallList (buildSessionPrefix _ _ _)) eqn:Hf1; [done|].
  destruct (fails b CallList (buildUserPrefix _ _)) eqn:Hf2; [done|].
  by apply s3_List_names.
Qed.

Lemma s3_list_names_witness :
  List notes_list unlistable_bucket
  = inl (StorageIOError "failed to fetch session filenames").
Proof. apply (s3_list_names notes_list unlistable_bucket). reflexivity. Defined.

(** X17: after a successful [Save] of a file whose name is free of the
    separator, [List] for the session of the request holds the file name;
    for a user-scoped name, [List] for every session of the user holds it.
    The two listings of [List] are calls that do not fail. *)
Theorem s3_list_after_save (req : SaveRequest) (b b' : Bucket)
    (resp : SaveResponse) (sessionID : string) :
  Save req b = (inr resp, b') →
  no_sep (save_FileName req) = true →
  present sessionID = true →
  sessionID = save_SessionID req ∨ fileHasUserNamespace (save_FileName req) = true →
  fails b CallList
    (buildSessionPrefix (save_AppName req) (save_UserID req) sessionID) = false →
  fails b CallList (buildUserPrefix (save_AppName req) (save_UserID req)) = false →
  ∃ names,
    List {| list_AppName := save_AppName req; list_UserID := save_UserID req;
            list_SessionID := sessionID |} b'
    = inr {| FileNames := names |}
    ∧ save_FileName req ∈ names.
Proof.
  intros HS Hf Hss Hscope Hf1 Hf2.
  destruct (s3_Save_result _ _ _ _ HS) as (Hfl & _ & Hv & _ & part & _ & Ho).
  assert (ListRequest_Validate
            {| list_AppName := save_AppName req; list_UserID := save_UserID req;
               list_SessionID := sessionID |} = true) as Hlv.
  { revert Hv. unfold SaveRequest_Validate, ListRequest_Validate. cbn.
    rewrite Hss.
    by intros [[[[-> ->]%andb_true_iff _]%andb_true_iff _]%andb_true_iff _]%andb_true_iff. }
  destruct (s3_List_names _ b' Hlv) as (names & HL & _ & _ & Hin).
  { by rewrite Hfl. }
  { by rewrite Hfl. }
  exists names. split; [done|]. apply Hin.
  cbn [list_AppName list_UserID list_SessionID].
  eexists _, _. split; [rewrite Ho; apply lookup_insert_eq|].
  split; [|by apply key_filename_built].
  pose proof (HasPrefix_scope (save_AppName req) (save_UserID req) (save_SessionID req)
                (save_FileName req) (Version resp)) as Hp.
  unfold scope_prefix in Hp. destruct Hscope as [-> | Hus].
  - destruct (fileHasUserNamespace _); [by right|by left].
  - rewrite Hus in Hp. by right.
Qed.

Lemma s3_list_after_save_witness :
  ∃ names,
    List other_session_list (Save avatar_save empty_bucket).2
    = inr {| FileNames := names |}
    ∧ "user:avatar.png" ∈ names.
Proof.
  apply (s3_list_after_save avatar_save empty_bucket (Save avatar_save empty_bucket).2
           {| Version := 1 |} "s2").
  - vm_compute. reflexivity.
  - reflexivity.
  - reflexivity.
  - right. reflexivity.
  - reflexivity.
  - reflexivity.
Defined.

(** ** [Versions] *)

(** X18: when [Versions] succeeds, its list is not empty and holds exactly
    the versions stored under the prefix of the artifact: the integers that
    the last segments of the keys read as.  When the keys are those [Save]
    builds, no version is listed twice, and the versions come in the
    lexicographic order of their decimal forms. *)
Theorem s3_versions_listing (req : VersionsRequest) (b : Bucket)
    (resp : VersionsResponse) :
  Versions req b = inr resp →
  Versions_ resp ≠ []
  ∧ (∀ v, v ∈ Versions_ resp ↔ has_version b (ver_prefix req) v)
  ∧ (canonical b (ver_prefix req) →
     NoDup (Versions_ resp)
     ∧ StronglySorted (λ v w, String.le (Sprintf_d v) (Sprintf_d w))
         (Versions_ resp)).
Proof.
  intros HV. split; [|split].
  - revert HV. unfold Versions. destruct (versions req b) as [e|r]; [done|].
    destruct (Versions_ r) eqn:E; [done|]. intros [= <-]. by rewrite E.
  - by apply Versions_public_inr.
  - revert HV. unfold Versions. destruct (versions req b) as [e|r] eqn:Hv; [done|].
    destruct (length (Versions_ r) =? 0)%nat; [done|]. intros [= <-].
    by apply versions_order.
Qed.

Lemma s3_versions_listing_witness :
  [1; 2] ≠ []
  ∧ (∀ v, v ∈ [1; 2]
          ↔ has_version (save_each "app" "u1" "s1" "notes.txt" two_notes
                           empty_bucket).2 (ver_prefix notes_versions) v)
  ∧ (canonical (save_each "app" "u1" "s1" "notes.txt" two_notes empty_bucket).2
       (ver_prefix notes_versions) →
     NoDup [1; 2]
     ∧ StronglySorted (λ v w, String.le (Sprintf_d v) (Sprintf_d w)) [1; 2]).
Proof.
  apply (s3_versions_listing notes_versions
           (save_each "app" "u1" "s1" "notes.txt" two_notes empty_bucket).2
           {| Versions_ := [1; 2] |}).
  vm_compute. reflexivity.
Defined.

(** ** [Save] and the versions of its artifact *)

(** X19: on a bucket without faults whose versions of the artifact are
    below the largest [int64], [Save] succeeds, and [Load] without a version
    (version 0) then returns the bytes of the part just saved: the latest
    version is the one [Save] allocated.  The content type returned is the
    one the blob library keeps for the part ([kept_type]): its MIME type as
    [mime.FormatMediaType] writes it (["image/png"] for ["IMAGE/PNG"]), the
    type detected from the bytes when the MIME type is empty, [text/plain]
    for a text part. *)
Theorem s3_load_latest_after_save (req : SaveRequest) (part : Part) (b : Bucket) :
  SaveRequest_Validate req = true →
  save_Part req = Some part →
  quiet b →
  (∀ w, has_version b (save_prefix req) w → w < MaxInt64) →
  ∃ resp b',
    Save req b = (inr resp, b')
    ∧ Load (load_of req 0) b'
      = inr {| LoadedPart := NewPartFromBytes (stored_bytes part) (kept_type b part) |}.
Proof.
  intros Hv Hp Hq Hmax.
  destruct (s3_Save_new_version req part b Hv Hp Hq Hmax) as (v & HS & Hvi & Hlt & _).
  eexists _, _. split; [exact HS|].
  set (o := {| body := stored_bytes part; contentType := kept_type b part |}).
  set (b' := set_objects b _).
  assert (quiet b') as Hq' by done.
  pose proof (s3_has_version_written b b' (save_AppName req) (save_UserID req)
                (save_SessionID req) (save_FileName req) v o Hvi eq_refl) as Hhv.
  destruct (versions_ok (versions_of req) b' (s3_save_versions_valid _ Hv) (Hq' _ _))
    as (l & HV & Hl).
  change (ver_prefix (versions_of req)) with (save_prefix req) in Hl.
  assert (v ∈ l) as Hvl by (apply Hl, Hhv; by left).
  assert (slices_Max l = v) as HM.
  { apply slices_Max_unique; [done|]. intros y Hy%Hl%Hhv.
    destruct Hy as [->|Hy]; [lia|]. apply Hlt in Hy. lia. }
  assert (loadVersion (load_of req 0) b' = inr v) as HLV.
  { unfold loadVersion. cbn [load_Version load_of]. change (0 =? 0) with true.
    cbn iota. change {| ver_AppName := _ |} with (versions_of req).
    rewrite HV. cbn [Versions_]. destruct l; [by apply elem_of_nil in Hvl|].
    cbn [length Nat.eqb]. by rewrite HM. }
  rewrite (s3_Load_stored (load_of req 0) b' v o (s3_load_of_valid _ _ Hv) HLV Hq');
    [done|].
  apply lookup_insert_eq.
Qed.

Lemma s3_load_latest_after_save_witness :
  ∃ resp b',
    Save (notes_save "hello" 0) empty_bucket = (inr resp, b')
    ∧ Load (notes_load 0) b'
      = inr {| LoadedPart := NewPartFromBytes (list_byte_of_string "hello") "text/plain" |}.
Proof.
  apply (s3_load_latest_after_save (notes_save "hello" 0) (text_part "hello")
           empty_bucket).
  - reflexivity.
  - reflexivity.
  - apply s3_quiet_empty.
  - intros w Hw. by apply s3_no_version_empty in Hw.
Defined.

(** X20: on a bucket without faults whose versions of the artifact are
    below the largest [int64], [Save] writes a version that was not stored
    before, and [Load] of every other version returns what it returned
    before: no stored version is overwritten. *)
Theorem s3_save_keeps_versions (req : SaveRequest) (part : Part) (b : Bucket) :
  SaveRequest_Validate req = true →
  save_Part req = Some part →
  quiet b →
  (∀ w, has_version b (save_prefix req) w → w < MaxInt64) →
  ∃ resp b',
    Save req b = (inr resp, b')
    ∧ ¬ has_version b (save_prefix req) (Version resp)
    ∧ ∀ w, w ≠ 0 → w ≠ Version resp →
           Load (load_of req w) b' = Load (load_of req w) b.
Proof.
  intros Hv Hp Hq Hmax.
  destruct (s3_Save_new_version req part b Hv Hp Hq Hmax) as (v & HS & Hvi & Hlt & _).
  eexists _, _. split; [exact HS|]. cbn [Version]. split.
  { intros Hw%Hlt. lia. }
  intros w Hw0 Hwv. apply Load_version_other; [done|done|].
  cbn [objects set_objects load_of load_AppName load_UserID load_SessionID
       load_FileName load_Version].
  apply lookup_insert_ne. rewrite !buildKey_prefix.
  intros E%append_inj_l%Sprintf_d_inj_all. by subst.
Qed.

Lemma s3_save_keeps_versions_witness :
  ∃ resp b',
    Save (notes_save "hello" 0) empty_bucket = (inr resp, b')
    ∧ ¬ has_version empty_bucket (save_prefix (notes_save "hello" 0)) (Version resp)
    ∧ ∀ w, w ≠ 0 → w ≠ Version resp →
           Load (load_of (notes_save "hello" 0) w) b'
           = Load (load_of (notes_save "hello" 0) w) empty_bucket.
Proof.
  apply (s3_save_keeps_versions (notes_save "hello" 0) (text_part "hello")
           empty_bucket).
  - reflexivity.
  - reflexivity.
  - apply s3_quiet_empty.
  - intros w Hw. by apply s3_no_version_empty in Hw.
Defined.

(** X21: on a bucket without faults, after [Save], [Versions] lists the
    version of the response and the versions it listed before, and nothing
    else. *)
Theorem s3_versions_after_save (req : SaveRequest) (part : Part) (b : Bucket) :
  SaveRequest_Validate req = true →
  save_Part req = Some part →
  quiet b →
  ∃ resp b' after,
    Save req b = (inr resp, b')
    ∧ Versions (versions_of req) b' = inr after
    ∧ ∀ w, w ∈ Versions_ after
           ↔ w = Version resp
             ∨ ∃ before, Versions (versions_of req) b = inr before
                         ∧ w ∈ Versions_ before.
Proof.
  intros Hv Hp Hq.
  destruct (s3_Save_ok req part b Hv Hp Hq) as (l & v & Hel & Hvdef & HS).
  assert (is_int64 v = true) as Hvi by (subst v; apply s3_next_int64).
  set (o := {| body := stored_bytes part; contentType := kept_type b part |}) in *.
  set (b' := set_objects b _) in *.
  assert (quiet b') as Hq' by done.
  pose proof (s3_has_version_written b b' (save_AppName req) (save_UserID req)
                (save_SessionID req) (save_FileName req) v o Hvi eq_refl) as Hhv.
  pose proof (s3_save_versions_valid _ Hv) as Hvv.
  destruct (Versions_public (versions_of req) b' Hvv (Hq' _ _)) as (l' & Hl' & HV').
  change (ver_prefix (versions_of req)) with (save_prefix req) in Hl'.
  assert (v ∈ l') as Hvl by (apply Hl', Hhv; by left).
  destruct l' as [|x l']; [by apply elem_of_nil in Hvl|].
  exists {| Version := v |}, b', {| Versions_ := x :: l' |}.
  split; [done|]. split; [done|]. intros w. cbn [Versions_ Version].
  rewrite Hl', Hhv.
  destruct (Versions_public (versions_of req) b Hvv (Hq _ _)) as (l0 & Hl0 & HV0).
  change (ver_prefix (versions_of req)) with (save_prefix req) in Hl0.
  split.
  - intros [->|Hw]; [by left|]. right. apply Hl0 in Hw.
    destruct l0 as [|y l0]; [by apply elem_of_nil in Hw|]. by eexists.
  - intros [->|(before & HB & Hw)]; [by left|]. right.
    by apply (Versions_public_inr _ _ _ HB).
Qed.

Lemma s3_versions_after_save_witness :
  ∃ resp b' after,
    Save (notes_save "hello" 0) empty_bucket = (inr resp, b')
    ∧ Versions (versions_of (notes_save "hello" 0)) b' = inr after
    ∧ ∀ w, w ∈ Versions_ after
           ↔ w = Version resp
             ∨ ∃ before,
                 Versions (versions_of (notes_save "hello" 0)) empty_bucket = inr before
                 ∧ w ∈ Versions_ before.
Proof.
  apply (s3_versions_after_save (notes_save "hello" 0) (text_part "hello")
           empty_bucket).
  - reflexivity.
  - reflexivity.
  - apply s3_quiet_empty.
Defined.

(** ** One artifact and the others *)

(** X22: [Save] for one artifact, whatever its outcome, changes neither
    what [Versions] nor what [Load] returns for an artifact at another
    location (another application, user, scope or file name).  The names
    are free of the separator. *)
Theorem s3_save_other_artifact (req : SaveRequest) (b : Bucket)
    (a' u' ss' f' : string) :
  no_sep (save_AppName req) = true → no_sep (save_UserID req) = true →
  no_sep (save_SessionID req) = true → no_sep (save_FileName req) = true →
  no_sep a' = true → no_sep u' = true → no_sep ss' = true → no_sep f' = true →
  (a', u', scope_elem ss' f', f')
  ≠ (save_AppName req, save_UserID req,
     scope_elem (save_SessionID req) (save_FileName req), save_FileName req) →
  Versions {| ver_AppName := a'; ver_UserID := u'; ver_SessionID := ss';
              ver_FileName := f' |} (Save req b).2
  = Versions {| ver_AppName := a'; ver_UserID := u'; ver_SessionID := ss';
                ver_FileName := f' |} b
  ∧ ∀ v, Load {| load_AppName := a'; load_UserID := u'; load_SessionID := ss';
                 load_FileName := f'; load_Version := v |} (Save req b).2
         = Load {| load_AppName := a'; load_UserID := u'; load_SessionID := ss';
                   load_FileName := f'; load_Version := v |} b.
Proof.
  intros Ha Hu Hs Hf Ha' Hu' Hs' Hf' Hne.
  destruct (s3_Save_other req b a' u' ss' f' Ha Hu Hs Hf Ha' Hu' Hs' Hf' Hne)
    as [Hfl Hk].
  split.
  - unfold Versions. by rewrite (versions_other _ b (Save req b).2).
  - intros v. by apply Load_other.
Qed.

Lemma s3_save_other_artifact_witness :
  Versions (versions_of avatar_save)
    (Save (notes_save "hello" 0) (Save avatar_save empty_bucket).2).2
  = Versions (versions_of avatar_save) (Save avatar_save empty_bucket).2
  ∧ ∀ v, Load (load_of avatar_save v)
           (Save (notes_save "hello" 0) (Save avatar_save empty_bucket).2).2
         = Load (load_of avatar_save v) (Save avatar_save empty_bucket).2.
Proof.
  apply (s3_save_other_artifact (notes_save "hello" 0)
           (Save avatar_save empty_bucket).2 "app" "u1" "s1" "user:avatar.png");
    try reflexivity.
  discriminate.
Defined.

(** X23: [Delete] for one artifact, of one version or of all of them and
    whatever its outcome, changes neither what [Versions] nor what [Load]
    returns for an artifact at another location.  The names are free of the
    separator. *)
Theorem s3_delete_other_artifact (req : DeleteRequest) (b : Bucket)
    (a' u' ss' f' : string) :
  no_sep (del_AppName req) = true → no_sep (del_UserID req) = true →
  no_sep (del_SessionID req) = true → no_sep (del_FileName req) = true →
  no_sep a' = true → no_sep u' = true → no_sep ss' = true → no_sep f' = true →
  (a', u', scope_elem ss' f', f')
  ≠ (del_AppName req, del_UserID req,
     scope_elem (del_SessionID req) (del_FileName req), del_FileName req) →
  Versions {| ver_AppName := a'; ver_UserID := u'; ver_SessionID := ss';
              ver_FileName := f' |} (Delete req b).2
  = Versions {| ver_AppName := a'; ver_UserID := u'; ver_SessionID := ss';
                ver_FileName := f' |} b
  ∧ ∀ v, Load {| load_AppName := a'; load_UserID := u'; load_SessionID := ss';
                 load_FileName := f'; load_Version := v |} (Delete req b).2
         = Load {| load_AppName := a'; load_UserID := u'; load_SessionID := ss';
                   load_FileName := f'; load_Version := v |} b.
Proof.
  intros Ha Hu Hs Hf Ha' Hu' Hs' Hf' Hne.
  destruct (s3_Delete_other req b a' u' ss' f' Ha Hu Hs Hf Ha' Hu' Hs' Hf' Hne)
    as [Hfl Hk].
  split.
  - unfold Versions. by rewrite (versions_other _ b (Delete req b).2).
  - intros v. by apply Load_other.
Qed.

Lemma s3_delete_other_artifact_witness :
  Versions (versions_of avatar_save)
    (Delete (notes_delete 0) (Save avatar_save empty_bucket).2).2
  = Versions (versions_of avatar_save) (Save avatar_save empty_bucket).2
  ∧ ∀ v, Load (load_of avatar_save v)
           (Delete (notes_delete 0) (Save avatar_save empty_bucket).2).2
         = Load (load_of avatar_save v) (Save avatar_save empty_bucket).2.
Proof.
  apply (s3_delete_other_artifact (notes_delete 0)
           (Save avatar_save empty_bucket).2 "app" "u1" "s1" "user:avatar.png");
    try reflexivity.
  discriminate.
Defined.

(** X24: [Delete] of one version, whatever its outcome and whatever the
    state of the bucket, does not change what [Load] returns for another
    version of the artifact. *)
Theorem s3_delete_version_keeps_others (b : Bucket) (a u ss f : string) (V W : Z) :
  V ≠ 0 → W ≠ 0 → W ≠ V →
  Load {| load_AppName := a; load_UserID := u; load_SessionID := ss;
          load_FileName := f; load_Version := W |}
    (Delete {| del_AppName := a; del_UserID := u; del_SessionID := ss;
               del_FileName := f; del_Version := V |} b).2
  = Load {| load_AppName := a; load_UserID := u; load_SessionID := ss;
            load_FileName := f; load_Version := W |} b.
Proof.
  intros HV HW HWV.
  set (dreq := {| del_AppName := a; del_UserID := u; del_SessionID := ss;
                  del_FileName := f; del_Version := V |}).
  assert (fails (Delete dreq b).2 = fails b
          ∧ ∀ k, k ≠ buildKey a u ss f V →
                 objects (Delete dreq b).2 !! k = objects b !! k) as [Hfl Hk].
  { unfold Delete. destruct (negb (DeleteRequest_Validate dreq)); [done|].
    cbn [dreq del_Version del_AppName del_UserID del_SessionID del_FileName].
    apply Z.eqb_neq in HV. rewrite HV. cbn [negb].
    destruct (bucket_Delete_frame (buildKey a u ss f V) b) as (Hf & _ & Hk).
    destruct (bucket_Delete _ b) as [[[]|] b1]; cbn [snd] in *; done. }
  apply Load_version_other; [done|done|].
  apply Hk. cbn [load_AppName load_UserID load_SessionID load_FileName load_Version].
  rewrite !buildKey_prefix. intros E%append_inj_l%Sprintf_d_inj_all. done.
Qed.

Lemma s3_delete_version_keeps_others_witness :
  Load (notes_load 2)
    (Delete (notes_delete 1)
       (save_each "app" "u1" "s1" "notes.txt" two_notes empty_bucket).2).2
  = Load (notes_load 2)
      (save_each "app" "u1" "s1" "notes.txt" two_notes empty_bucket).2.
Proof.
  apply (s3_delete_version_keeps_others
           (save_each "app" "u1" "s1" "notes.txt" two_notes empty_bucket).2
           "app" "u1" "s1" "notes.txt" 1 2); discriminate.
Defined.

(** ** User-scoped names *)

(** X25: an artifact with a user-scoped name (a name that starts with
    [user:]) does not belong to a session: on a bucket without faults, after
    a [Save] in one session, [Load] of the version returned gives the bytes
    of the part back from every session of the user, with the content type
    the blob library keeps for the part ([kept_type]: the MIME type as
    [mime.FormatMediaType] writes it, the type detected from the bytes when
    the MIME type is empty, [text/plain] for a text part). *)
Theorem s3_user_scope_shared (req : SaveRequest) (part : Part) (b : Bucket)
    (sessionID : string) :
  SaveRequest_Validate req = true →
  save_Part req = Some part →
  fileHasUserNamespace (save_FileName req) = true →
  present sessionID = true →
  quiet b →
  ∃ resp b',
    Save req b = (inr resp, b')
    ∧ Load {| load_AppName := save_AppName req; load_UserID := save_UserID req;
              load_SessionID := sessionID; load_FileName := save_FileName req;
              load_Version := Version resp |} b'
      = inr {| LoadedPart := NewPartFromBytes (stored_bytes part) (kept_type b part) |}.
Proof.
  intros Hv Hp Hf Hss Hq.
  destruct (s3_save_load req part b Hv Hp Hq) as (resp & b' & HS & HL).
  exists resp, b'. split; [done|]. rewrite <- HL.
  apply s3_Load_user_scope; [done|]. rewrite Hss.
  revert Hv. unfold SaveRequest_Validate.
  by intros [[[_ ->]%andb_true_iff _]%andb_true_iff _]%andb_true_iff.
Qed.

Lemma s3_user_scope_shared_witness :
  ∃ resp b',
    Save avatar_save empty_bucket = (inr resp, b')
    ∧ Load {| load_AppName := "app"; load_UserID := "u1"; load_SessionID := "s2";
              load_FileName := "user:avatar.png"; load_Version := Version resp |} b'
      = inr {| LoadedPart := NewPartFromBytes (list_byte_of_string "PNG") "image/png" |}.
Proof.
  apply (s3_user_scope_shared avatar_save
           {| Text := "";
              InlineData := Some {| Data := list_byte_of_string "PNG";
                                    MIMEType := "image/png" |} |}
           empty_bucket "s2").
  - reflexivity.
  - reflexivity.
  - reflexivity.
  - reflexivity.
  - apply s3_quiet_empty.
Defined.

(** ** Keys *)

(** X26: what [versions] and [List] read from a key that [buildKey] builds.
    The key lies under the prefix of its artifact and under the prefix of
    its scope, the listing prefixes of [versions] and of [List]; its last
    segment reads as the version, for every identity; and its last segment
    but one is the file name when the file name is free of the separator. *)
Theorem s3_key_round_trip (a u ss f : string) (v : Z) :
  is_int64 v = true →
  HasPrefix (buildKey a u ss f v) (buildKeyPrefix a u ss f) = true
  ∧ HasPrefix (buildKey a u ss f v) (scope_prefix a u ss f) = true
  ∧ key_version (buildKey a u ss f v) = Some v
  ∧ (no_sep f = true → key_filename (buildKey a u ss f v) = f).
Proof.
  intros Hv. split; [apply HasPrefix_built|]. split; [apply HasPrefix_scope|].
  split; [by apply key_version_built|]. apply key_filename_built.
Qed.

Lemma s3_key_round_trip_witness :
  HasPrefix (buildKey "app" "u/1" "s1" "user:a" (-7)) (buildKeyPrefix "app" "u/1" "s1" "user:a")
  = true
  ∧ HasPrefix (buildKey "app" "u/1" "s1" "user:a" (-7)) (scope_prefix "app" "u/1" "s1" "user:a")
    = true
  ∧ key_version (buildKey "app" "u/1" "s1" "user:a" (-7)) = Some (-7)
  ∧ (no_sep "user:a" = true → key_filename (buildKey "app" "u/1" "s1" "user:a" (-7)) = "user:a").
Proof. apply (s3_key_round_trip "app" "u/1" "s1" "user:a" (-7)). reflexivity. Defined.

(** ** [Save] and [Delete] *)

(** X28: on a bucket without faults whose versions of the artifact lie
    between 0 and the largest [int64], the largest excluded, [Save] followed
    by [Delete] of the version returned gives the bucket back as it was. *)
Theorem s3_save_delete_restores (req : SaveRequest) (part : Part) (b : Bucket) :
  SaveRequest_Validate req = true →
  save_Part req = Some part →
  quiet b →
  (∀ w, has_version b (save_prefix req) w → 0 ≤ w < MaxInt64) →
  ∃ resp b',
    Save req b = (inr resp, b')
    ∧ Delete (delete_of req (Version resp)) b' = (None, b).
Proof.
  intros Hv Hp Hq Hrange.
  destruct (s3_Save_new_version req part b Hv Hp Hq) as (v & HS & Hvi & Hlt & Hpos).
  { intros w Hw. by apply Hrange. }
  assert (1 ≤ v) as Hv1 by (apply Hpos; intros w Hw; by apply Hrange).
  eexists _, _. split; [exact HS|]. cbn [Version].
  set (key := buildKey _ _ _ _ v).
  set (o := {| body := stored_bytes part; contentType := kept_type b part |}).
  set (b' := set_objects b _).
  assert (quiet b') as Hq' by done.
  assert (DeleteRequest_Validate (delete_of req v) = true) as Hdv.
  { revert Hv. unfold SaveRequest_Validate, DeleteRequest_Validate. cbn.
    by intros [? _]%andb_true_iff. }
  rewrite (s3_delete_version (delete_of req v) b' Hdv) by (cbn; lia || done).
  f_equal. cbn [delete_of del_AppName del_UserID del_SessionID del_FileName
                del_Version]. fold key.
  assert (objects b !! key = None) as Hnone.
  { destruct (objects b !! key) as [o'|] eqn:E; [|done].
    assert (has_version b (save_prefix req) v) as Hhv.
    { exists key, o'. split; [done|]. split; [apply HasPrefix_built|].
      by apply key_version_built. }
    apply Hlt in Hhv. lia. }
  unfold b'. cbn [objects set_objects]. rewrite delete_insert_eq.
  rewrite delete_id by done. by destruct b.
Qed.

Lemma s3_save_delete_restores_witness :
  ∃ resp b',
    Save (notes_save "hello" 0) empty_bucket = (inr resp, b')
    ∧ Delete (delete_of (notes_save "hello" 0) (Version resp)) b'
      = (None, empty_bucket).
Proof.
  apply (s3_save_delete_restores (notes_save "hello" 0) (text_part "hello")
           empty_bucket).
  - reflexivity.
  - reflexivity.
  - apply s3_quiet_empty.
  - intros w Hw. by apply s3_no_version_empty in Hw.
Defined.

End S3Properties.
